(** * MN DNR cross-section tools: Create2Dpoints_SWL.py and CreateConspys.py

    A shallow embedding of the two geoprocessing scripts of
    [Scripts3_3_1] and the properties of their projection kernel.

    Conventions of the embedding.
    - Python [float] values (coordinates, distances, elevations, field
      values of type DOUBLE/FLOAT) are real numbers [R]; rounding of binary
      floating point is not modelled.
    - Python [int] values ([buffer_dist], [vertical_exaggeration], object
      ids) are integers [Z]; a mixed operation converts with [IZR], as
      Python does.
    - A nullable field is an [option]; [None] is Python's [None].
    - Exceptions are values of [exn]; a statement sequence is a computation
      in a monad [M] that threads the output geodatabase [Gdb], stops at a
      raised exception and collects the printed messages.
    - The geometry library called by the scripts (arcpy) is not part of the
      repository; the few operations the scripts use are modelled in
      planar Euclidean geometry. *)

From Stdlib Require Import Reals Lra Lia ZArith List String Bool Psatz Permutation.
Import ListNotations.

Open Scope R_scope.

(* ================================================================== *)
(** * Python primitives                                                *)
(* ================================================================== *)

Inductive exn : Type :=
| SystemExit
| IndexError
| ZeroDivisionError
| NameError
| ExecuteError.

Inductive outcome (A : Type) : Type :=
| Done (a : A)
| Raised (e : exn).

Arguments Done {A} a.
Arguments Raised {A} e.

Definition obind {A B : Type} (c : outcome A) (k : A -> outcome B) : outcome B :=
  match c with
  | Done a => k a
  | Raised e => Raised e
  end.

Notation "x <-? c ;; k" := (obind c (fun x => k))
  (at level 61, c at next level, right associativity).

(** [int(x)] on a float: truncation toward zero. *)
Definition py_int (x : R) : Z :=
  if Rle_dec 0 x then Zfloor x else Zceil x.

(** [x / d] with an [int] divisor. *)
Definition py_div_int (x : R) (d : Z) : outcome R :=
  if (d =? 0)%Z then Raised ZeroDivisionError else Done (x / IZR d).

(** The position designated by a Python index into a list of length [len]:
    negative indices count from the end. *)
Definition py_index (len : nat) (i : Z) : option nat :=
  let n := Z.of_nat len in
  if ((0 <=? i) && (i <? n))%Z then Some (Z.to_nat i)
  else if ((- n <=? i) && (i <? 0))%Z then Some (Z.to_nat (i + n))
  else None.

(** [l[i]] *)
Definition py_getitem {A : Type} (l : list A) (i : Z) : outcome A :=
  match py_index (List.length l) i with
  | Some k =>
      match nth_error l k with
      | Some a => Done a
      | None => Raised IndexError
      end
  | None => Raised IndexError
  end.

Fixpoint list_set {A : Type} (l : list A) (k : nat) (v : A) : list A :=
  match l, k with
  | [], _ => []
  | _ :: t, O => v :: t
  | h :: t, S k' => h :: list_set t k' v
  end.

(** [l[i] = v] *)
Definition py_setitem {A : Type} (l : list A) (i : Z) (v : A) : outcome (list A) :=
  match py_index (List.length l) i with
  | Some k => Done (list_set l k v)
  | None => Raised IndexError
  end.

(* ================================================================== *)
(** * Planar geometry used by the scripts                              *)
(* ================================================================== *)

Record Point : Type := mkPoint { X : R; Y : R }.

Definition sq (x : R) : R := x * x.

Definition dist2 (a b : Point) : R := sq (X b - X a) + sq (Y b - Y a).

Definition dist (a b : Point) : R := sqrt (dist2 a b).

(** Modelled from the spec: the angle value returned by arcpy's
    [angleAndDistanceTo] and consumed by [pointFromAngleAndDistance]
    (arcpy is not in the repository).  A bearing is kept as its direction
    cosines: [az_east] is the sine and [az_north] the cosine of the
    azimuth measured from north. *)
Record Angle : Type := mkAngle { az_east : R; az_north : R }.

(** Modelled from the spec: [a.angleAndDistanceTo(b, "PLANAR")] of arcpy,
    the bearing and the distance from [a] to [b]; two coincident points
    have bearing zero (north). *)
Definition angleAndDistanceTo (a b : Point) : Angle * R :=
  let d := dist a b in
  if Req_dec_T d 0 then (mkAngle 0 1, d)
  else (mkAngle ((X b - X a) / d) ((Y b - Y a) / d), d).

(** Modelled from the spec: [p.pointFromAngleAndDistance(angle, d, "PLANAR")]
    of arcpy, the point at distance [d] from [p] on the bearing [angle]. *)
Definition pointFromAngleAndDistance (p : Point) (angle : Angle) (d : R) : Point :=
  mkPoint (X p + d * az_east angle) (Y p + d * az_north angle).

Definition clamp01 (t : R) : R := Rmax 0 (Rmin 1 t).

(** The point of the segment [a b] closest to [q]. *)
Definition closest_on_segment (a b q : Point) : Point :=
  let dx := X b - X a in
  let dy := Y b - Y a in
  let len2 := dist2 a b in
  if Req_dec_T len2 0 then a
  else
    let t := clamp01 (((X q - X a) * dx + (Y q - Y a) * dy) / len2) in
    mkPoint (X a + t * dx) (Y a + t * dy).

(** The point closest to [q] on the polyline that starts at [a] and goes
    through [rest]; the earliest segment wins a tie. *)
Fixpoint closest_from (a : Point) (rest : list Point) (q : Point) : Point :=
  match rest with
  | [] => a
  | b :: rest' =>
      let c := closest_on_segment a b q in
      match rest' with
      | [] => c
      | _ :: _ =>
          let c' := closest_from b rest' q in
          if Rle_dec (dist q c) (dist q c') then c else c'
      end
  end.

Record NearResult : Type := mkNear { NEAR_DIST : R; NEAR_X : R; NEAR_Y : R }.

(** Modelled from the spec: arcpy's [analysis.Near(points, line, '',
    'LOCATION', '', 'PLANAR')] for one input point, following the kernel
    contract: the point N of the polyline closest to Q and the distance
    d(Q, N).  An empty geometry is refused. *)
Definition Near (q : Point) (polyline : list Point) : outcome NearResult :=
  match polyline with
  | [] => Raised ExecuteError
  | a :: rest =>
      let n := closest_from a rest q in
      Done (mkNear (dist q n) (X n) (Y n))
  end.

(** [p] lies on the segment from [a] to [b]: it is collinear with the two
    ends and between them.  A segment of length zero holds its end only. *)
Definition on_segment (a b p : Point) : Prop :=
  (X b - X a) * (Y p - Y a) - (Y b - Y a) * (X p - X a) = 0 /\
  (X p - X a) * (X p - X b) + (Y p - Y a) * (Y p - Y b) <= 0.

Definition on_segment_dec (a b p : Point) : {on_segment a b p} + {~ on_segment a b p}.
Proof.
  unfold on_segment.
  destruct (Req_dec_T ((X b - X a) * (Y p - Y a) - (Y b - Y a) * (X p - X a)) 0) as [e | n].
  - destruct (Rle_dec ((X p - X a) * (X p - X b) + (Y p - Y a) * (Y p - Y b)) 0) as [l | n].
    + left. split; assumption.
    + right. intros [_ H]. exact (n H).
  - right. intros [H _]. exact (n H).
Defined.

(** Arc length from [a] along [a :: rest] to the first place where the
    line passes through [p]; the whole length when it never does. *)
Fixpoint measure_from (a : Point) (rest : list Point) (p : Point) : R :=
  match rest with
  | [] => 0
  | b :: rest' =>
      if on_segment_dec a b p then dist a p
      else dist a b + measure_from b rest' p
  end.

(** Modelled from the spec: arcpy's [Polyline.measureOnLine(line, point)],
    the arc length from the first vertex of the line to [point], following
    the kernel contract. *)
Definition measureOnLine (polyline : list Point) (p : Point) : R :=
  match polyline with
  | [] => 0
  | a :: rest => measure_from a rest p
  end.

(** Length of a polyline. *)
Fixpoint length_from (a : Point) (rest : list Point) : R :=
  match rest with
  | [] => 0
  | b :: rest' => dist a b + length_from b rest'
  end.

Definition polyline_length (polyline : list Point) : R :=
  match polyline with
  | [] => 0
  | a :: rest => length_from a rest
  end.

(* ================================================================== *)
(** * Tables of the geodatabase                                        *)
(* ================================================================== *)

(** A well id is numeric or text, after the data type of the id field. *)
Inductive WellId : Type :=
| WellNum (n : Z)
| WellText (s : string).

Definition wellid_eqb (a b : WellId) : bool :=
  match a, b with
  | WellNum n, WellNum m => (n =? m)%Z
  | WellText s, WellText t => String.eqb s t
  | _, _ => false
  end.

Definition wellid_is_str (a : WellId) : bool :=
  match a with
  | WellText _ => true
  | WellNum _ => false
  end.

(** A row of the cross-section line feature class: the vertices of part 0
    of its shape, and its cross-section id. *)
Record XsLine : Type := mkXsLine {
  xs_part0 : list Point;
  xs_etid : string;
  xs_isMultipart : bool }.

(** A row of the well point feature class. *)
Record WellPoint : Type := mkWellPoint {
  wp_wellid : WellId;
  wp_etid : string;
  wp_shape : Point;
  wp_elevation : option R;
  wp_meas_elev : option R;
  wp_measuremt : option R;
  wp_BUFF_DIST : option R;
  wp_VE : option R;
  wp_Data_Source : option string }.

(** A row of a per-line well file and of [wwpt_merge]: a well with the
    fields filled by the near analysis and the measure on the line. *)
Record NearWell : Type := mkNearWell {
  nw_well : WellPoint;
  nw_NEAR_DIST : R;
  nw_NEAR_X : R;
  nw_NEAR_Y : R;
  nw_OnLine_DIST : R }.

(** A row of the construction table. *)
Record ConspyRec : Type := mkConspyRec {
  cr_oid : Z;
  cr_wellid : WellId;
  cr_elev_top : option R;
  cr_elev_bot : option R }.

(** A row of [swl_2d_xsecview]. *)
Record SwlPoint : Type := mkSwlPoint {
  sp_shape : Point;
  sp_wellid : WellId;
  sp_etid : string;
  sp_x_coord : R;
  sp_y_coord : R;
  sp_x_coord_2d : R;
  sp_y_coord_2d : R;
  sp_distance : R;
  sp_elevation : R;
  sp_meas_elev : R;
  sp_pct_dist : R;
  sp_measuremt : option R;
  sp_BUFF_DIST : Z;
  sp_VE : Z;
  sp_Data_Source : option string }.

(** A vertex of a 3D polyline. *)
Record PointZ : Type := mkPointZ { PX : R; PY : R; PZ : R }.

(** A row of [conspys_3d]. *)
Record Conspy3d : Type := mkConspy3d {
  c3_shape : list PointZ;
  c3_wellid : WellId;
  c3_etid : string;
  c3_x_coord : R;
  c3_y_coord : R;
  c3_z_top : R;
  c3_z_bot : R;
  c3_conspy_oid : Z }.

(** A row of [conspys_2d_line]. *)
Record Conspy2d : Type := mkConspy2d {
  c2_shape : list Point;
  c2_wellid : WellId;
  c2_etid : string;
  c2_x_coord : R;
  c2_y_coord : R;
  c2_z_top : R;
  c2_z_bot : R;
  c2_conspy_oid : Z;
  c2_distance : R;
  c2_pct_dist : R;
  c2_BUFF_DIST : Z;
  c2_VE : Z }.

(** An argument of a formatted message. *)
Inductive fmt_arg : Type :=
| ArgInt (n : Z)
| ArgStr (s : string)
| ArgId (w : WellId)
| ArgStrs (l : list string).

(** A message given to [printit] or [printerror]: the template and the
    arguments of its [format]. *)
Record message : Type := mkMessage {
  msg_is_error : bool;
  msg_template : string;
  msg_args : list fmt_arg }.

(** The output geodatabase ([workspace]): the feature classes the two
    scripts create in it; [None] is a feature class that does not exist. *)
Record Gdb : Type := mkGdb {
  swl_2d_xsecview : option (list SwlPoint);
  conspys_3d : option (list Conspy3d);
  conspys_2d_line : option (list Conspy2d);
  wwpt_temp : option (list WellPoint);
  wwpt_by_xs : option (list (string * list NearWell));
  xsln_temp : option (list XsLine);
  wwpt_merge : option (list NearWell) }.

Definition empty_gdb : Gdb :=
  mkGdb None None None None None None None.

Definition set_swl_2d_xsecview (g : Gdb) (v : option (list SwlPoint)) : Gdb :=
  mkGdb v (conspys_3d g) (conspys_2d_line g)
        (wwpt_temp g) (wwpt_by_xs g) (xsln_temp g) (wwpt_merge g).

Definition set_conspys_3d (g : Gdb) (v : option (list Conspy3d)) : Gdb :=
  mkGdb (swl_2d_xsecview g) v (conspys_2d_line g)
        (wwpt_temp g) (wwpt_by_xs g) (xsln_temp g) (wwpt_merge g).

Definition set_conspys_2d_line (g : Gdb) (v : option (list Conspy2d)) : Gdb :=
  mkGdb (swl_2d_xsecview g) (conspys_3d g) v
        (wwpt_temp g) (wwpt_by_xs g) (xsln_temp g) (wwpt_merge g).

Definition set_wwpt_temp (g : Gdb) (v : option (list WellPoint)) : Gdb :=
  mkGdb (swl_2d_xsecview g) (conspys_3d g) (conspys_2d_line g)
        v (wwpt_by_xs g) (xsln_temp g) (wwpt_merge g).

Definition set_wwpt_by_xs (g : Gdb) (v : option (list (string * list NearWell))) : Gdb :=
  mkGdb (swl_2d_xsecview g) (conspys_3d g) (conspys_2d_line g)
        (wwpt_temp g) v (xsln_temp g) (wwpt_merge g).

Definition set_xsln_temp (g : Gdb) (v : option (list XsLine)) : Gdb :=
  mkGdb (swl_2d_xsecview g) (conspys_3d g) (conspys_2d_line g)
        (wwpt_temp g) (wwpt_by_xs g) v (wwpt_merge g).

Definition set_wwpt_merge (g : Gdb) (v : option (list NearWell)) : Gdb :=
  mkGdb (swl_2d_xsecview g) (conspys_3d g) (conspys_2d_line g)
        (wwpt_temp g) (wwpt_by_xs g) (xsln_temp g) v.

(* ================================================================== *)
(** * The monad of script statements                                   *)
(* ================================================================== *)

(** What a statement leaves: its value or the exception it raised, the
    geodatabase, and the messages it printed. *)
Record Res (A : Type) : Type := mkRes {
  res : outcome A;
  db : Gdb;
  log : list message }.

Arguments mkRes {A} res db log.
Arguments res {A} r.
Arguments db {A} r.
Arguments log {A} r.

Definition M (A : Type) : Type := Gdb -> Res A.

Definition ret {A : Type} (a : A) : M A := fun g => mkRes (Done a) g [].

Definition bind {A B : Type} (c : M A) (k : A -> M B) : M B :=
  fun g =>
    let r := c g in
    match res r with
    | Done a =>
        let r' := k a (db r) in
        mkRes (res r') (db r') (log r ++ log r')
    | Raised e => mkRes (Raised e) (db r) (log r)
    end.

Notation "x <- c ;; k" := (bind c (fun x => k))
  (at level 61, c at next level, right associativity).
Notation "c ;;; k" := (bind c (fun _ => k))
  (at level 61, right associativity).

Definition raise {A : Type} (e : exn) : M A := fun g => mkRes (Raised e) g [].

Definition lift {A : Type} (c : outcome A) : M A := fun g => mkRes c g [].

Definition get : M Gdb := fun g => mkRes (Done g) g [].

Definition modify (f : Gdb -> Gdb) : M unit := fun g => mkRes (Done tt) (f g) [].

(** [for x in l: body], with the variables the loop updates as [acc]. *)
Fixpoint for_each {A S : Type} (l : list A) (acc : S) (body : S -> A -> M S) : M S :=
  match l with
  | [] => ret acc
  | x :: t => acc' <- body acc x ;; for_each t acc' body
  end.

Definition printit (template : string) (args : list fmt_arg) : M unit :=
  fun g => mkRes (Done tt) g [mkMessage false template args].

Definition printerror (template : string) (args : list fmt_arg) : M unit :=
  fun g => mkRes (Done tt) g [mkMessage true template args].

(** A search cursor on a feature class: its rows, or an error when the
    feature class does not exist. *)
Definition rows_of {A : Type} (fc : Gdb -> option (list A)) : M (list A) :=
  g <- get ;;
  match fc g with
  | Some rows => ret rows
  | None => raise ExecuteError
  end.

(* ================================================================== *)
(** * Parameters and inputs of the scripts                             *)
(* ================================================================== *)

(** The two numeric tool parameters, read with [int(...)]. *)
Record Params : Type := mkParams {
  buffer_dist : Z;
  vertical_exaggeration : Z }.

(** The input datasets: their rows, the names of their fields, the base
    name of their path, and the name of the spatial reference of the
    cross-section line file. *)
Record Inputs : Type := mkInputs {
  wwpt_file_orig : list WellPoint;
  wwpt_file_fields : list string;
  wwpt_file_name : string;
  xsln_file_orig : list XsLine;
  xsln_file_name : string;
  spatialref_name : string;
  conspy_table : list ConspyRec;
  conspy_table_fields : list string;
  conspy_table_name : string }.

Open Scope string_scope.

Definition FieldExists (fields : list string) (dataset field_name : string) : M unit :=
  if existsb (String.eqb field_name) fields then ret tt
  else printerror "Error: {0} field does not exist in {1}." [ArgStr field_name; ArgStr dataset].

(** Section 4 of both scripts. *)
Definition set_spatialref (inp : Inputs) : M unit :=
  if String.eqb (spatialref_name inp) "Unknown"
  then printerror "{0} file has an unknown spatial reference. Continuing may result in errors."
                  [ArgStr (xsln_file_name inp)]
  else printit "Spatial reference set as {0} to match {1} file."
               [ArgStr (spatialref_name inp); ArgStr (xsln_file_name inp)].

Definition check_multipart (inp : Inputs) : M unit :=
  if existsb xs_isMultipart (xsln_file_orig inp)
  then printerror "Warning: cross section file contains multipart features. Continuing may result in errors." []
  else ret tt.

Definition check_buffer_dist (p : Params) : M unit :=
  if (buffer_dist p <=? 0)%Z
  then printerror "Error: Buffer distance must be greater than zero." [] ;;; raise SystemExit
  else ret tt.

Definition check_vertical_exaggeration (p : Params) : M unit :=
  if (vertical_exaggeration p <=? 0)%Z
  then printerror "Error: Vertical Exaggeration must be greater than 0." [] ;;; raise SystemExit
  else ret tt.

(** [GetCount] of a dataset and the exit on an empty one. *)
Definition check_count {A : Type} (rows : list A) (error : string) : M unit :=
  if (Z.of_nat (List.length rows) =? 0)%Z
  then printerror error [] ;;; raise SystemExit
  else ret tt.

(** [if x not in l: l.append(x)] *)
Definition append_unique {A : Type} (eqb : A -> A -> bool) (l : list A) (x : A) : list A :=
  if existsb (eqb x) l then l else l ++ [x].

Definition unique_values {A : Type} (eqb : A -> A -> bool) (l : list A) : list A :=
  fold_left (append_unique eqb) l [].

(** The elements of [l] that are not in [l']. *)
Definition not_in_list {A : Type} (eqb : A -> A -> bool) (l l' : list A) : list A :=
  filter (fun x => negb (existsb (eqb x) l')) l.

(** The two et_id checks that end section 7 of both scripts. *)
Definition check_etids (wwpt_etid_list xsln_etid_list : list string) : M unit :=
  let listprint := not_in_list String.eqb wwpt_etid_list xsln_etid_list in
  (if (0 <? Z.of_nat (List.length listprint))%Z
   then printit "Warning: there are {0} et_id's in well point file that do not match any et_id's in cross section line file. Well point et_id's are: {1}"
                [ArgInt (Z.of_nat (List.length listprint)); ArgStrs listprint]
   else ret tt) ;;;
  let listprint := not_in_list String.eqb xsln_etid_list wwpt_etid_list in
  if (0 <? Z.of_nat (List.length listprint))%Z
  then printit "Warning: there are {0} cross section lines that do not have any associated well points. Cross section et_id's are: {1}"
               [ArgInt (Z.of_nat (List.length listprint)); ArgStrs listprint]
  else ret tt.

(* ================================================================== *)
(** * The line extension and the near analysis (both scripts)          *)
(* ================================================================== *)

(** The fields added to the temporary copy of the well point file. *)
Definition wwpt_fields : list string :=
  ["NEAR_FID"; "NEAR_DIST"; "NEAR_X"; "NEAR_Y"; "OnLine_DIST"; "VE"].

Definition add_wwpt_fields (inp : Inputs) : M unit :=
  for_each wwpt_fields tt (fun _ newfield =>
    if existsb (String.eqb newfield) (wwpt_file_fields inp)
    then printit "{0} field already exists in well point file. Tool will overwrite data in this field."
                 [ArgStr newfield]
    else printit "Adding {0} field to well point file." [ArgStr newfield]).

(** Creation of the feature dataset [wwpt_by_xs] and of the temporary copy
    of the well point file in it. *)
Definition create_wwpt_by_xs (inp : Inputs) : M unit :=
  printit "Creating feature dataset for temporary file storage and copying well point file." [] ;;;
  modify (fun g => set_wwpt_by_xs g (Some [])) ;;;
  modify (fun g => set_wwpt_temp g (Some (wwpt_file_orig inp))).

(** The body of the loop that fills [xsln_temp]: the vertices of one line
    with its first and last vertex moved outward by [buffer_dist]. *)
Definition extend_line (buffer_dist : Z) (geompointlist : list Point) : outcome (list Point) :=
  beg_pt <-? py_getitem geompointlist 0 ;;
  beg_pt2 <-? py_getitem geompointlist 1 ;;
  let beg_angle := fst (angleAndDistanceTo beg_pt2 beg_pt) in
  end_pt <-? py_getitem geompointlist (-1) ;;
  end_pt2 <-? py_getitem geompointlist (-2) ;;
  let end_angle := fst (angleAndDistanceTo end_pt2 end_pt) in
  let new_beg := pointFromAngleAndDistance beg_pt beg_angle (IZR buffer_dist) in
  let new_end := pointFromAngleAndDistance end_pt end_angle (IZR buffer_dist) in
  geompointlist <-? py_setitem geompointlist 0 new_beg ;;
  geompointlist <-? py_setitem geompointlist (-1) new_end ;;
  Done geompointlist.

Definition insert_xsln_temp (row : XsLine) : M unit :=
  rows <- rows_of xsln_temp ;;
  modify (fun g => set_xsln_temp g (Some (rows ++ [row])%list)).

(** Creation of [xsln_temp] and the loop over the original lines. *)
Definition create_xsln_temp (p : Params) (inp : Inputs) : M unit :=
  modify (fun g => set_xsln_temp g (Some [])) ;;;
  printit "Creating temporary xsln file to ensure wells beyond xsln endpoints plot correctly." [] ;;;
  for_each (xsln_file_orig inp) tt (fun _ line =>
    let et_id := xs_etid line in
    new_xsln_geometry <- lift (extend_line (buffer_dist p) (xs_part0 line)) ;;
    insert_xsln_temp (mkXsLine new_xsln_geometry et_id false)).

(** [analysis.Select]: the wells whose et_id field equals [et_id]. *)
Definition Select (wells : list WellPoint) (et_id : string) : list WellPoint :=
  filter (fun w => String.eqb (wp_etid w) et_id) wells.

(** [analysis.Near] on a well file against one line geometry. *)
Fixpoint Near_file (wells : list WellPoint) (xsln_geometry : list Point)
  : outcome (list (WellPoint * NearResult)) :=
  match wells with
  | [] => Done []
  | w :: t =>
      r <-? Near (wp_shape w) xsln_geometry ;;
      rs <-? Near_file t xsln_geometry ;;
      Done ((w, r) :: rs)
  end.

(** The body of the update cursor loop: the measure of the near point on
    the extended line, less [buffer_dist]. *)
Definition update_OnLine_DIST (buffer_dist : Z) (xsln_geometry : list Point)
  (well : WellPoint * NearResult) : NearWell :=
  let x := NEAR_X (snd well) in
  let y := NEAR_Y (snd well) in
  let point := mkPoint x y in
  let n := measureOnLine xsln_geometry point in
  mkNearWell (fst well) (NEAR_DIST (snd well)) x y (n - IZR buffer_dist).

(** Writing the well file [wwpt_{et_id}] of one line into [wwpt_by_xs]; a
    file of the same name is overwritten ([overwriteOutput]).  The files
    are kept by et_id, in the order of their creation, apart from the
    temporary copy [wwpt_temp]. *)
Fixpoint fd_put (fd : list (string * list NearWell)) (et_id : string) (rows : list NearWell)
  : list (string * list NearWell) :=
  match fd with
  | [] => [(et_id, rows)]
  | (k, v) :: t =>
      if String.eqb k et_id then (k, rows) :: t else (k, v) :: fd_put t et_id rows
  end.

(** The loop over the lines of [xsln_temp]. *)
Definition near_analysis (p : Params) (inp : Inputs) : M unit :=
  lines <- rows_of xsln_temp ;;
  for_each lines tt (fun _ line =>
    let et_id := xs_etid line in
    let xsln_geometry := xs_part0 line in
    printit "Calculating well locations in cross section view for xsln {0} out of {1}."
            [ArgStr et_id; ArgInt (Z.of_nat (List.length (xsln_file_orig inp)))] ;;;
    wwpt_file_temp <- rows_of wwpt_temp ;;
    let wwpt_by_xs_file := Select wwpt_file_temp et_id in
    near <- lift (Near_file wwpt_by_xs_file xsln_geometry) ;;
    let wellpts := map (update_OnLine_DIST (buffer_dist p) xsln_geometry) near in
    fd <- rows_of wwpt_by_xs ;;
    modify (fun g => set_wwpt_by_xs g (Some (fd_put fd et_id wellpts)))).

(** Deletion of the temporary copy and merge of the per-line well files. *)
Definition merge_wwpt : M unit :=
  modify (fun g => set_wwpt_temp g None) ;;;
  fd <- rows_of wwpt_by_xs ;;
  printit "Creating mapview well point file with cross section locations calculated." [] ;;;
  modify (fun g => set_wwpt_merge g (Some (List.concat (map snd fd)))).

(** A cursor that also yields the object id of each row. *)
Definition with_oid {A : Type} (rows : list A) : list (Z * A) :=
  combine (map Z.of_nat (seq 1 (List.length rows))) rows.

(* ================================================================== *)
(** * Create2Dpoints_SWL.py                                            *)
(* ================================================================== *)

Module SWL.

(** Sections 4 to 7: data QC.  The result is [wellid_is_numeric]. *)
Definition validate (p : Params) (inp : Inputs) : M bool :=
  set_spatialref inp ;;;
  check_multipart inp ;;;
  printit "Checking that data tables have correct fields." [] ;;;
  FieldExists (wwpt_file_fields inp) (wwpt_file_name inp) "elevation" ;;;
  FieldExists (wwpt_file_fields inp) (wwpt_file_name inp) "measuremt" ;;;
  FieldExists (wwpt_file_fields inp) (wwpt_file_name inp) "meas_elev" ;;;
  FieldExists (wwpt_file_fields inp) (wwpt_file_name inp) "Data_Source" ;;;
  check_buffer_dist p ;;;
  check_vertical_exaggeration p ;;;
  check_count (wwpt_file_orig inp) "Error: well location point file is empty." ;;;
  check_count (xsln_file_orig inp) "Error: cross section line file is empty." ;;;
  printit "Checking that well point file, and cross section line file all match." [] ;;;
  let wwpt_wellid_list := unique_values wellid_eqb (map wp_wellid (wwpt_file_orig inp)) in
  let wwpt_etid_list := unique_values String.eqb (map wp_etid (wwpt_file_orig inp)) in
  let xsln_etid_list := unique_values String.eqb (map xs_etid (xsln_file_orig inp)) in
  check_etids wwpt_etid_list xsln_etid_list ;;;
  first <- lift (py_getitem wwpt_wellid_list 0) ;;
  ret (negb (wellid_is_str first)).

(** Section 9: the empty 2D point file. *)
Definition create_pointfile : M unit :=
  printit "Creating empty 2d point file to show well locations." [] ;;;
  modify (fun g => set_swl_2d_xsecview g (Some [])).

Definition insert_pointfile (row : SwlPoint) : M unit :=
  rows <- rows_of swl_2d_xsecview ;;
  modify (fun g => set_swl_2d_xsecview g (Some (rows ++ [row])%list)).

(** [pct_dist = dist / buffer_dist * 200] *)
Definition pct_dist (p : Params) (dist : R) : outcome R :=
  q <-? py_div_int dist (buffer_dist p) ;;
  Done (q * 200)%R.

(** [x_coord_feet = (int(x_coord_meters))/0.3048] and
    [x_coord_2d = x_coord_feet/vertical_exaggeration] *)
Definition x_coord_2d (p : Params) (x_coord_meters : R) : outcome R :=
  let x_coord_feet := (IZR (py_int x_coord_meters) / 0.3048)%R in
  py_div_int x_coord_feet (vertical_exaggeration p).

(** Section 16: the body of the loop over [wwpt_merge]. *)
Definition point_body (p : Params) (wwpt_count : Z) (row : Z * NearWell) : M unit :=
  let index := fst row in
  let well := snd row in
  let wellid := wp_wellid (nw_well well) in
  let et_id := wp_etid (nw_well well) in
  let dist := nw_NEAR_DIST well in
  pct_dist <- lift (pct_dist p dist) ;;
  let real_x := X (wp_shape (nw_well well)) in
  let real_y := Y (wp_shape (nw_well well)) in
  match wp_elevation (nw_well well) with
  | None =>
      printit "Error: Well number {0} is null in dem (surface elevation) field. Skipping."
              [ArgId wellid]
  | Some well_z =>
      match wp_meas_elev (nw_well well) with
      | None =>
          printit "Error: Well number {0} is null in meas_elev field. Skipping." [ArgId wellid]
      | Some swl_z =>
          let x_coord_meters := nw_OnLine_DIST well in
          x_coord_2d <- lift (x_coord_2d p x_coord_meters) ;;
          let y_coord_2d := swl_z in
          let dtw := wp_measuremt (nw_well well) in
          let buff_dist := buffer_dist p in
          let vert_ex := vertical_exaggeration p in
          let data_source := wp_Data_Source (nw_well well) in
          (if (index mod 5000 =? 0)%Z
           then printit "Working on well number {0} out of {1}" [ArgInt index; ArgInt wwpt_count]
           else ret tt) ;;;
          let point_geometry := mkPoint x_coord_2d y_coord_2d in
          insert_pointfile
            (mkSwlPoint point_geometry wellid et_id real_x real_y x_coord_2d y_coord_2d
                        dist well_z swl_z pct_dist dtw buff_dist vert_ex data_source)
      end
  end.

Definition create_points (p : Params) (inp : Inputs) : M unit :=
  wwpt <- rows_of wwpt_merge ;;
  for_each (with_oid wwpt) tt
    (fun _ row => point_body p (Z.of_nat (List.length (wwpt_file_orig inp))) row).

(** The script, to the end of the creation of the 2D geometry.  What
    follows in the file deletes fields and temporary data, copies the
    point file and defines its projection. *)
Definition run (p : Params) (inp : Inputs) : M unit :=
  _ <- validate p inp ;;
  create_pointfile ;;;
  create_wwpt_by_xs inp ;;;
  add_wwpt_fields inp ;;;
  create_xsln_temp p inp ;;;
  near_analysis p inp ;;;
  merge_wwpt ;;;
  create_points p inp.

End SWL.

(* ================================================================== *)
(** * CreateConspys.py                                                 *)
(* ================================================================== *)

Module Conspys.

(** Sections 4 to 7: data QC.  The result is [wellid_is_numeric]. *)
Definition validate (p : Params) (inp : Inputs) : M bool :=
  set_spatialref inp ;;;
  check_buffer_dist p ;;;
  check_vertical_exaggeration p ;;;
  check_multipart inp ;;;
  printit "Checking that data tables have correct fields." [] ;;;
  FieldExists (conspy_table_fields inp) (conspy_table_name inp) "elev_top" ;;;
  FieldExists (conspy_table_fields inp) (conspy_table_name inp) "elev_bot" ;;;
  FieldExists (conspy_table_fields inp) (conspy_table_name inp) "OBJECTID" ;;;
  check_count (conspy_table inp) "Error: construction table is empty." ;;;
  check_count (wwpt_file_orig inp) "Error: well location point file is empty." ;;;
  check_count (xsln_file_orig inp) "Error: cross section line file is empty." ;;;
  printit "Checking that construction table, well point file, and cross section line file all match." [] ;;;
  let conspy_wellid_list := unique_values wellid_eqb (map cr_wellid (conspy_table inp)) in
  let wwpt_wellid_list := unique_values wellid_eqb (map wp_wellid (wwpt_file_orig inp)) in
  let wwpt_etid_list := unique_values String.eqb (map wp_etid (wwpt_file_orig inp)) in
  let xsln_etid_list := unique_values String.eqb (map xs_etid (xsln_file_orig inp)) in
  let listprint := not_in_list wellid_eqb conspy_wellid_list wwpt_wellid_list in
  (if (0 <? Z.of_nat (List.length listprint))%Z
   then printit "Warning: {0} construction records have no matching well points. Well stick diagrams will not draw for these records."
                [ArgInt (Z.of_nat (List.length listprint))]
   else ret tt) ;;;
  let listprint := not_in_list wellid_eqb wwpt_wellid_list conspy_wellid_list in
  (if (0 <? Z.of_nat (List.length listprint))%Z
   then printit "Warning: {0} well points have no matching construction records. Well stick diagrams will not draw for these wells."
                [ArgInt (Z.of_nat (List.length listprint))]
   else ret tt) ;;;
  check_etids wwpt_etid_list xsln_etid_list ;;;
  conspy_first <- lift (py_getitem conspy_wellid_list 0) ;;
  wwpt_first <- lift (py_getitem wwpt_wellid_list 0) ;;
  (if negb (Bool.eqb (wellid_is_str conspy_first) (wellid_is_str wwpt_first))
   then printerror "Warning: conspy table and well point file have mismatched data types in the well id field. Wells and construction records will not be matched correctly." []
   else ret tt) ;;;
  ret (negb (wellid_is_str conspy_first)).

(** Sections 9 and 10: the empty 3D and 2D polyline files. *)
Definition create_polylinefiles : M unit :=
  printit "Creating empty 3d polyline file for well stick diagrams." [] ;;;
  modify (fun g => set_conspys_3d g (Some [])) ;;;
  printit "Creating empty 2d polyline file for well stick diagrams." [] ;;;
  modify (fun g => set_conspys_2d_line g (Some [])).

Definition insert_polylinefile_3d (row : Conspy3d) : M unit :=
  rows <- rows_of conspys_3d ;;
  modify (fun g => set_conspys_3d g (Some (rows ++ [row])%list)).

Definition insert_polylinefile_2d (row : Conspy2d) : M unit :=
  rows <- rows_of conspys_2d_line ;;
  modify (fun g => set_conspys_2d_line g (Some (rows ++ [row])%list)).

(** The variables assigned in the loop over the well points that match a
    construction record. *)
Record WellVars : Type := mkWellVars {
  v_real_x : R;
  v_real_y : R;
  v_x_coord : R;
  v_dist : R;
  v_pct_dist : R;
  v_et_id : string;
  v_buffer_distance : Z;
  v_vert_ex : Z }.

(** [x_coord_feet = x_coord_meters/0.3048] and
    [x_coord = x_coord_feet/vertical_exaggeration] *)
Definition x_coord (p : Params) (x_coord_meters : R) : outcome R :=
  let x_coord_feet := (x_coord_meters / 0.3048)%R in
  py_div_int x_coord_feet (vertical_exaggeration p).

(** [pct_dist = dist / buffer_dist * 200] *)
Definition pct_dist (p : Params) (dist : R) : outcome R :=
  q <-? py_div_int dist (buffer_dist p) ;;
  Done (q * 200)%R.

(** The body of the loop over the matching well points; [i] counts them. *)
Definition well_body (p : Params) (st : Z * option WellVars) (well : NearWell)
  : outcome (Z * option WellVars) :=
  let i := (fst st + 1)%Z in
  let real_x := X (wp_shape (nw_well well)) in
  let real_y := Y (wp_shape (nw_well well)) in
  let x_coord_meters := nw_OnLine_DIST well in
  x_coord <-? x_coord p x_coord_meters ;;
  let dist := nw_NEAR_DIST well in
  pct_dist <-? pct_dist p dist ;;
  let et_id := wp_etid (nw_well well) in
  Done (i, Some (mkWellVars real_x real_y x_coord dist pct_dist et_id
                            (buffer_dist p) (vertical_exaggeration p))).

(** The rows of [wwpt_merge] selected by the where clause on the well id.
    The clause is written for a numeric or for a text id after
    [wellid_is_numeric]; the ids of a field all have its data type. *)
Definition where_wellid (wwpt : list NearWell) (wellid : WellId) : list NearWell :=
  filter (fun w => wellid_eqb (wp_wellid (nw_well w)) wellid) wwpt.

(** Section 17: the body of the loop over the construction table.  The
    variables that live across the iterations are [nomatch_list] and the
    variables of the inner loop, unbound before their first assignment. *)
Definition conspy_body (p : Params) (conspy_count : Z)
  (vars : list WellId * option WellVars) (row : ConspyRec)
  : M (list WellId * option WellVars) :=
  let nomatch_list := fst vars in
  let conspy_oid := cr_oid row in
  let wellid := cr_wellid row in
  match cr_elev_top row with
  | None =>
      printit "Error: Conspy record number {0} has no value in elev_top field. Skipping."
              [ArgInt conspy_oid] ;;;
      ret vars
  | Some real_z_top =>
      match cr_elev_bot row with
      | None =>
          printit "Error: Conspy record number {0} has no value in elev_bot field. Skipping."
                  [ArgInt conspy_oid] ;;;
          ret vars
      | Some real_z_bot =>
          (if (conspy_oid mod 1000 =? 0)%Z
           then printit "Working on creating polylines for conspy record number {0} out of {1}"
                        [ArgInt conspy_oid; ArgInt conspy_count]
           else ret tt) ;;;
          merged <- rows_of wwpt_merge ;;
          let wwpt := where_wellid merged wellid in
          st <- for_each wwpt (0%Z, snd vars) (fun st well => lift (well_body p st well)) ;;
          if (fst st =? 0)%Z
          then ret ((nomatch_list ++ [wellid])%list, snd st)
          else
            match snd st with
            | None => raise NameError
            | Some v =>
                let real_pointA := mkPointZ (v_real_x v) (v_real_y v) real_z_top in
                let real_pointB := mkPointZ (v_real_x v) (v_real_y v) real_z_bot in
                let real_polyline_geometry := [real_pointA; real_pointB] in
                insert_polylinefile_3d
                  (mkConspy3d real_polyline_geometry wellid (v_et_id v) (v_real_x v) (v_real_y v)
                              real_z_top real_z_bot conspy_oid) ;;;
                let pointA := mkPoint (v_x_coord v) real_z_top in
                let pointB := mkPoint (v_x_coord v) real_z_bot in
                let polyline_geometry := [pointA; pointB] in
                insert_polylinefile_2d
                  (mkConspy2d polyline_geometry wellid (v_et_id v) (v_real_x v) (v_real_y v)
                              real_z_top real_z_bot conspy_oid (v_dist v) (v_pct_dist v)
                              (v_buffer_distance v) (v_vert_ex v)) ;;;
                ret (nomatch_list, snd st)
            end
      end
  end.

(** Section 17; the result is [nomatch_list]. *)
Definition create_polylines (p : Params) (inp : Inputs) : M (list WellId) :=
  vars <- for_each (conspy_table inp) ([], None)
            (conspy_body p (Z.of_nat (List.length (conspy_table inp)))) ;;
  let nomatch_list := fst vars in
  (if (0 <? Z.of_nat (List.length nomatch_list))%Z
   then printit "Could not find matching well point for {0} construction table records. These construction records were skipped."
                [ArgInt (Z.of_nat (List.length nomatch_list))]
   else ret tt) ;;;
  ret nomatch_list.

(** The script, to the end of the creation of the polyline geometry.
    What follows in the file joins fields, buffers the 2D lines into
    polygons, sorts and copies them and deletes temporary data. *)
Definition run (p : Params) (inp : Inputs) : M (list WellId) :=
  _ <- validate p inp ;;
  create_polylinefiles ;;;
  create_wwpt_by_xs inp ;;;
  add_wwpt_fields inp ;;;
  create_xsln_temp p inp ;;;
  near_analysis p inp ;;;
  merge_wwpt ;;;
  create_polylines p inp.

End Conspys.

(* ================================================================== *)
(** * Vocabulary of the statements                                     *)
(* ================================================================== *)

Close Scope string_scope.

(** Statement [c], started in [g], ends normally with value [a] in [g']. *)
Definition runs {A : Type} (c : M A) (g : Gdb) (a : A) (g' : Gdb) : Prop :=
  res (c g) = Done a /\ db (c g) = g'.

(** Statement [c], started in [g], raises [e] and leaves [g']. *)
Definition fails {A : Type} (c : M A) (g : Gdb) (e : exn) (g' : Gdb) : Prop :=
  res (c g) = Raised e /\ db (c g) = g'.

(** A statement that only prints. *)
Definition quiet (c : M unit) : Prop := forall g, runs c g tt g.

(** A statement that never raises [e]. *)
Definition never_raises {A : Type} (e : exn) (c : M A) : Prop :=
  forall g, res (c g) <> Raised e.

(** A line of at least two vertices. *)
Definition two_vertices (line : XsLine) : Prop := (2 <= List.length (xs_part0 line))%nat.

(** The point of a non-empty polyline closest to [q]. *)
Definition nearest (polyline : list Point) (q : Point) : Point :=
  match polyline with
  | [] => q
  | a :: rest => closest_from a rest q
  end.

(** The point at distance [d] from [p] in the direction from [a] to [p]. *)
Definition beyond (a p : Point) (d : R) : Point :=
  mkPoint (X p + d * ((X p - X a) / dist a p)) (Y p + d * ((Y p - Y a) / dist a p)).

(** The unit direction from [a] to [p]. *)
Definition dir_x (a p : Point) : R := (X p - X a) / dist a p.

Definition dir_y (a p : Point) : R := (Y p - Y a) / dist a p.

(** The point at parameter [t] of the line through [p] with direction
    [(ux, uy)]. *)
Definition along (p : Point) (ux uy t : R) : Point :=
  mkPoint (X p + t * ux) (Y p + t * uy).

(** [n] lies on one of the segments of the polyline. *)
Fixpoint on_polyline_from (a : Point) (rest : list Point) (n : Point) : Prop :=
  match rest with
  | [] => False
  | b :: rest' => on_segment a b n \/ on_polyline_from b rest' n
  end.

Definition on_polyline (polyline : list Point) (n : Point) : Prop :=
  match polyline with
  | [] => False
  | a :: rest => on_polyline_from a rest n
  end.

(** The extended vertices of a line of two or more vertices. *)
Definition extended (b : Z) (pts : list Point) : list Point :=
  match extend_line b pts with
  | Done e => e
  | Raised _ => []
  end.

(** The row of [xsln_temp] written for a line. *)
Definition extended_line (b : Z) (line : XsLine) : XsLine :=
  mkXsLine (extended b (xs_part0 line)) (xs_etid line) false.

(** The row that the near analysis on the line geometry [E] writes for
    the well [w]. *)
Definition near_well (b : Z) (E : list Point) (w : WellPoint) : NearWell :=
  let n := nearest E (wp_shape w) in
  mkNearWell w (dist (wp_shape w) n) (X n) (Y n)
             (measureOnLine E (mkPoint (X n) (Y n)) - IZR b).

(** The per-line well files after the near analysis on [lines]. *)
Definition by_xs_step (b : Z) (wells : list WellPoint)
  (fd : list (string * list NearWell)) (line : XsLine) : list (string * list NearWell) :=
  fd_put fd (xs_etid line)
         (map (near_well b (xs_part0 line)) (Select wells (xs_etid line))).

Definition by_xs (b : Z) (wells : list WellPoint) (lines : list XsLine)
  : list (string * list NearWell) :=
  fold_left (by_xs_step b wells) lines [].

(** The rows of [wwpt_merge] for the inputs. *)
Definition merged (p : Params) (inp : Inputs) : list NearWell :=
  List.concat (map snd (by_xs (buffer_dist p) (wwpt_file_orig inp)
                              (map (extended_line (buffer_dist p)) (xsln_file_orig inp)))).

(** The geodatabase after the near analysis and the merge. *)
Definition after_merge (p : Params) (inp : Inputs) (g : Gdb) : Gdb :=
  mkGdb (swl_2d_xsecview g) (conspys_3d g) (conspys_2d_line g) None
        (Some (by_xs (buffer_dist p) (wwpt_file_orig inp)
                     (map (extended_line (buffer_dist p)) (xsln_file_orig inp))))
        (Some (map (extended_line (buffer_dist p)) (xsln_file_orig inp)))
        (Some (merged p inp)).

(** The row of [swl_2d_xsecview] for a row of [wwpt_merge]; none for a
    well with a null elevation or a null measured elevation. *)
Definition swl_row (p : Params) (w : NearWell) : option SwlPoint :=
  match wp_elevation (nw_well w), wp_meas_elev (nw_well w) with
  | Some well_z, Some swl_z =>
      let x := IZR (py_int (nw_OnLine_DIST w)) / 0.3048 / IZR (vertical_exaggeration p) in
      Some (mkSwlPoint (mkPoint x swl_z) (wp_wellid (nw_well w)) (wp_etid (nw_well w))
              (X (wp_shape (nw_well w))) (Y (wp_shape (nw_well w))) x swl_z
              (nw_NEAR_DIST w) well_z swl_z
              (nw_NEAR_DIST w / IZR (buffer_dist p) * 200)
              (wp_measuremt (nw_well w)) (buffer_dist p) (vertical_exaggeration p)
              (wp_Data_Source (nw_well w)))
  | _, _ => None
  end.

Definition option_list {A : Type} (o : option A) : list A :=
  match o with
  | Some a => [a]
  | None => []
  end.

Definition swl_rows (p : Params) (wells : list NearWell) : list SwlPoint :=
  flat_map (fun w => option_list (swl_row p w)) wells.

(** Inputs on which the static-water-level script ends normally. *)
Definition swl_inputs_ok (p : Params) (inp : Inputs) : Prop :=
  (0 < buffer_dist p)%Z /\ (0 < vertical_exaggeration p)%Z /\
  wwpt_file_orig inp <> [] /\ xsln_file_orig inp <> [] /\
  Forall two_vertices (xsln_file_orig inp).

(** The values that the inner loop of the construction script assigns
    for a matching well. *)
Definition conspy_vars (p : Params) (w : NearWell) : Conspys.WellVars :=
  Conspys.mkWellVars
    (X (wp_shape (nw_well w))) (Y (wp_shape (nw_well w)))
    (nw_OnLine_DIST w / 0.3048 / IZR (vertical_exaggeration p))
    (nw_NEAR_DIST w)
    (nw_NEAR_DIST w / IZR (buffer_dist p) * 200)
    (wp_etid (nw_well w)) (buffer_dist p) (vertical_exaggeration p).

(** The last row of [wwpt_merge] with the given well id. *)
Definition last_match (wells : list NearWell) (wellid : WellId) : option NearWell :=
  last (map Some (Conspys.where_wellid wells wellid)) None.

(** The rows of [conspys_3d] and [conspys_2d_line] for a construction
    record; none for a record with a null elevation or without a matching
    well. *)
Definition conspy_rows (p : Params) (wells : list NearWell) (row : ConspyRec)
  : option (Conspy3d * Conspy2d) :=
  match cr_elev_top row, cr_elev_bot row, last_match wells (cr_wellid row) with
  | Some top, Some bot, Some w =>
      let v := conspy_vars p w in
      Some (mkConspy3d [mkPointZ (Conspys.v_real_x v) (Conspys.v_real_y v) top;
                        mkPointZ (Conspys.v_real_x v) (Conspys.v_real_y v) bot]
                       (cr_wellid row) (Conspys.v_et_id v)
                       (Conspys.v_real_x v) (Conspys.v_real_y v) top bot (cr_oid row),
            mkConspy2d [mkPoint (Conspys.v_x_coord v) top; mkPoint (Conspys.v_x_coord v) bot]
                       (cr_wellid row) (Conspys.v_et_id v)
                       (Conspys.v_real_x v) (Conspys.v_real_y v) top bot (cr_oid row)
                       (Conspys.v_dist v) (Conspys.v_pct_dist v)
                       (Conspys.v_buffer_distance v) (Conspys.v_vert_ex v))
  | _, _, _ => None
  end.

Definition conspy_rows_3d (p : Params) (wells : list NearWell) (records : list ConspyRec)
  : list Conspy3d :=
  flat_map (fun r => option_list (option_map fst (conspy_rows p wells r))) records.

Definition conspy_rows_2d (p : Params) (wells : list NearWell) (records : list ConspyRec)
  : list Conspy2d :=
  flat_map (fun r => option_list (option_map snd (conspy_rows p wells r))) records.

(** A construction record that reaches the lookup of its well and finds
    none. *)
Definition conspy_nomatch (wells : list NearWell) (row : ConspyRec) : bool :=
  match cr_elev_top row, cr_elev_bot row, last_match wells (cr_wellid row) with
  | Some _, Some _, None => true
  | _, _, _ => false
  end.

Definition nomatch_ids (wells : list NearWell) (records : list ConspyRec) : list WellId :=
  map cr_wellid (filter (conspy_nomatch wells) records).

(** Inputs on which the construction script ends normally. *)
Definition conspys_inputs_ok (p : Params) (inp : Inputs) : Prop :=
  swl_inputs_ok p inp /\ conspy_table inp <> [].

(** The message that reports the construction records without a well. *)
Definition nomatch_report (n : Z) : message :=
  mkMessage false
    "Could not find matching well point for {0} construction table records. These construction records were skipped."
    [ArgInt n].

(** The messages of a statement all satisfy [Q]. *)
Definition prints_only {A : Type} (Q : message -> Prop) (c : M A) : Prop :=
  forall g, Forall Q (log (c g)).

(** A message other than the report of the records without a well. *)
Definition not_report (m : message) : Prop :=
  msg_template m <> msg_template (nomatch_report 0).

(** A row of [wwpt_merge] that the point loop does not pass over. *)
Definition swl_written (w : NearWell) : bool :=
  match wp_elevation (nw_well w), wp_meas_elev (nw_well w) with
  | Some _, Some _ => true
  | _, _ => false
  end.

(** A construction record for which the polyline loop writes rows. *)
Definition conspy_written (wells : list NearWell) (row : ConspyRec) : bool :=
  match cr_elev_top row, cr_elev_bot row, last_match wells (cr_wellid row) with
  | Some _, Some _, Some _ => true
  | _, _, _ => false
  end.

(** Sample data: a line from (0,0) to (10,0) with id A, a second line
    from (0,3) to (10,3) with id B, wells and construction records. *)
Definition lineA : XsLine :=
  mkXsLine [mkPoint 0 0; mkPoint 10 0] "A" false.

Definition lineB : XsLine :=
  mkXsLine [mkPoint 0 3; mkPoint 10 3] "B" false.

Definition well1 : WellPoint :=
  mkWellPoint (WellNum 1) "A" (mkPoint 1.5 2) (Some 300) (Some 290) (Some 10)
              None None None.

Definition conspy1 : ConspyRec := mkConspyRec 1 (WellNum 1) (Some 280) (Some 270).

Definition params1 : Params := mkParams 2 50.

Definition inputs1 : Inputs :=
  mkInputs [well1] [] "wwpt" [lineA; lineB] "xsln" "NAD83" [conspy1] [] "constr".

(** Sample data: a construction record with a null top elevation and the
    id of no well. *)
Definition conspy_null : ConspyRec := mkConspyRec 1 (WellNum 7) None (Some 270).

Definition inputs2 : Inputs :=
  mkInputs [well1] [] "wwpt" [lineA; lineB] "xsln" "NAD83" [conspy_null] [] "constr".

(** Sample data: a second line with id A, from (1,0) to (11,0), that
    follows line A in the file. *)
Definition lineA2 : XsLine :=
  mkXsLine [mkPoint 1 0; mkPoint 11 0] "A" false.

Definition inputs3 : Inputs :=
  mkInputs [well1] ["elevation"; "measuremt"; "meas_elev"; "Data_Source"]%string "wwpt"
           [lineA; lineA2] "xsln" "NAD83"
           [conspy1] ["elev_top"; "elev_bot"; "OBJECTID"]%string "constr".

(** Sample data: a well at abscissa -1, before the first vertex of line
    A, and a well at abscissa 11, beyond its last vertex. *)
Definition well_before : WellPoint :=
  mkWellPoint (WellNum 2) "A" (mkPoint (-1) 2) (Some 300) (Some 290) (Some 10)
              None None None.

Definition well_beyond : WellPoint :=
  mkWellPoint (WellNum 3) "A" (mkPoint 11 2) (Some 300) (Some 290) (Some 10)
              None None None.

Definition inputs4 : Inputs :=
  mkInputs [well_before; well1; well_beyond]
           ["elevation"; "measuremt"; "meas_elev"; "Data_Source"]%string "wwpt"
           [lineA; lineB] "xsln" "NAD83"
           [conspy1] ["elev_top"; "elev_bot"; "OBJECTID"]%string "constr".

(** ** Vocabulary of the further properties *)

(** The warning of the data QC on well points whose et_id no line carries. *)
Definition wells_unmatched_warning (listprint : list string) : message :=
  mkMessage false
    "Warning: there are {0} et_id's in well point file that do not match any et_id's in cross section line file. Well point et_id's are: {1}"
    [ArgInt (Z.of_nat (List.length listprint)); ArgStrs listprint].

(** The warning of the data QC on lines without a well point. *)
Definition lines_unused_warning (listprint : list string) : message :=
  mkMessage false
    "Warning: there are {0} cross section lines that do not have any associated well points. Cross section et_id's are: {1}"
    [ArgInt (Z.of_nat (List.length listprint)); ArgStrs listprint].

(** The message of [FieldExists] on a missing field. *)
Definition missing_field_error (dataset field_name : string) : message :=
  mkMessage true "Error: {0} field does not exist in {1}." [ArgStr field_name; ArgStr dataset].

(** The error messages that precede an exit of the data QC. *)
Definition buffer_error : string := "Error: Buffer distance must be greater than zero.".

Definition ve_error : string := "Error: Vertical Exaggeration must be greater than 0.".

Definition conspy_empty_error : string := "Error: construction table is empty.".

Definition wwpt_empty_error : string := "Error: well location point file is empty.".

Definition xsln_empty_error : string := "Error: cross section line file is empty.".

Definition exit_errors : list string :=
  [buffer_error; ve_error; conspy_empty_error; wwpt_empty_error; xsln_empty_error].

(** A message other than the error message of an exit. *)
Definition not_exit_error (m : message) : Prop :=
  ~ (msg_is_error m = true /\ In (msg_template m) exit_errors).

(** The first check of the QC of the static-water-level script that
    fails, in the order of the script. *)
Definition swl_first_error (p : Params) (inp : Inputs) : option string :=
  if (buffer_dist p <=? 0)%Z then Some buffer_error
  else if (vertical_exaggeration p <=? 0)%Z then Some ve_error
  else match wwpt_file_orig inp with
       | [] => Some wwpt_empty_error
       | _ :: _ =>
           match xsln_file_orig inp with
           | [] => Some xsln_empty_error
           | _ :: _ => None
           end
       end.

(** The first check of the QC of the construction script that fails. *)
Definition conspys_first_error (p : Params) (inp : Inputs) : option string :=
  if (buffer_dist p <=? 0)%Z then Some buffer_error
  else if (vertical_exaggeration p <=? 0)%Z then Some ve_error
  else match conspy_table inp with
       | [] => Some conspy_empty_error
       | _ :: _ =>
           match wwpt_file_orig inp with
           | [] => Some wwpt_empty_error
           | _ :: _ =>
               match xsln_file_orig inp with
               | [] => Some xsln_empty_error
               | _ :: _ => None
               end
           end
       end.

(** A well point whose et_id is the et_id of one of the lines. *)
Definition has_line (lines : list XsLine) (w : WellPoint) : bool :=
  existsb (fun line => String.eqb (xs_etid line) (wp_etid w)) lines.

(** The row of [wwpt_merge] of a well was computed on [line], the last
    line of the file with the et_id of the well. *)
Definition projected_on_last (b : Z) (lines : list XsLine) (w : NearWell) : Prop :=
  exists l1 line l2,
    lines = l1 ++ line :: l2 /\
    xs_etid line = wp_etid (nw_well w) /\
    (forall l, In l l2 -> xs_etid l <> wp_etid (nw_well w)) /\
    w = near_well b (extended b (xs_part0 line)) (nw_well w).

(** The row of [conspys_3d] and the row of [conspys_2d_line] of one
    construction record carry the same attributes. *)
Definition same_record (r3 : Conspy3d) (r2 : Conspy2d) : Prop :=
  c3_wellid r3 = c2_wellid r2 /\ c3_etid r3 = c2_etid r2 /\
  c3_x_coord r3 = c2_x_coord r2 /\ c3_y_coord r3 = c2_y_coord r2 /\
  c3_z_top r3 = c2_z_top r2 /\ c3_z_bot r3 = c2_z_bot r2 /\
  c3_conspy_oid r3 = c2_conspy_oid r2.

(** The templates of the messages on a row that is passed over for a null
    value. *)
Definition skipping_templates : list string :=
  ["Error: Well number {0} is null in dem (surface elevation) field. Skipping.";
   "Error: Well number {0} is null in meas_elev field. Skipping.";
   "Error: Conspy record number {0} has no value in elev_top field. Skipping.";
   "Error: Conspy record number {0} has no value in elev_bot field. Skipping."]%string.

Definition is_skipping (m : message) : bool :=
  existsb (String.eqb (msg_template m)) skipping_templates.

(** The messages of the point loop on one row of [wwpt_merge]. *)
Definition point_messages (wwpt_count : Z) (row : Z * NearWell) : list message :=
  let wellid := wp_wellid (nw_well (snd row)) in
  match wp_elevation (nw_well (snd row)), wp_meas_elev (nw_well (snd row)) with
  | None, _ =>
      [mkMessage false "Error: Well number {0} is null in dem (surface elevation) field. Skipping."
                 [ArgId wellid]]
  | Some _, None =>
      [mkMessage false "Error: Well number {0} is null in meas_elev field. Skipping."
                 [ArgId wellid]]
  | Some _, Some _ =>
      if (fst row mod 5000 =? 0)%Z
      then [mkMessage false "Working on well number {0} out of {1}"
                      [ArgInt (fst row); ArgInt wwpt_count]]
      else []
  end.

(** The messages of the polyline loop on one construction record. *)
Definition conspy_messages (conspy_count : Z) (row : ConspyRec) : list message :=
  match cr_elev_top row, cr_elev_bot row with
  | None, _ =>
      [mkMessage false "Error: Conspy record number {0} has no value in elev_top field. Skipping."
                 [ArgInt (cr_oid row)]]
  | Some _, None =>
      [mkMessage false "Error: Conspy record number {0} has no value in elev_bot field. Skipping."
                 [ArgInt (cr_oid row)]]
  | Some _, Some _ =>
      if (cr_oid row mod 1000 =? 0)%Z
      then [mkMessage false "Working on creating polylines for conspy record number {0} out of {1}"
                      [ArgInt (cr_oid row); ArgInt conspy_count]]
      else []
  end.

(* ================================================================== *)
(** * Lemmas on the monad                                              *)
(* ================================================================== *)

Lemma bind_done {A B : Type} (c : M A) (k : A -> M B) (g : Gdb) (a : A) :
  res (c g) = Done a ->
  res (bind c k g) = res (k a (db (c g))) /\
  db (bind c k g) = db (k a (db (c g))) /\
  log (bind c k g) = (log (c g) ++ log (k a (db (c g))))%list.
Proof.
  intros H. unfold bind. rewrite H. cbn. auto.
Qed.

Lemma bind_raised {A B : Type} (c : M A) (k : A -> M B) (g : Gdb) (e : exn) :
  res (c g) = Raised e ->
  res (bind c k g) = Raised e /\ db (bind c k g) = db (c g) /\ log (bind c k g) = log (c g).
Proof.
  intros H. unfold bind. rewrite H. cbn. auto.
Qed.

Lemma runs_bind {A B : Type} (c : M A) (k : A -> M B) g a g1 b g2 :
  runs c g a g1 -> runs (k a) g1 b g2 -> runs (bind c k) g b g2.
Proof.
  intros [H1 H2] [H3 H4]. subst g1.
  destruct (bind_done c k g a H1) as [Hr [Hd _]].
  split; congruence.
Qed.

Lemma fails_bind_l {A B : Type} (c : M A) (k : A -> M B) g e g1 :
  fails c g e g1 -> fails (bind c k) g e g1.
Proof.
  intros [H1 H2]. destruct (bind_raised c k g e H1) as [Hr [Hd _]].
  split; congruence.
Qed.

Lemma fails_bind_r {A B : Type} (c : M A) (k : A -> M B) g a g1 e g2 :
  runs c g a g1 -> fails (k a) g1 e g2 -> fails (bind c k) g e g2.
Proof.
  intros [H1 H2] [H3 H4]. subst g1.
  destruct (bind_done c k g a H1) as [Hr [Hd _]].
  split; congruence.
Qed.

Lemma runs_ret {A : Type} (a : A) g : runs (ret a) g a g.
Proof. split; reflexivity. Qed.

Lemma runs_lift {A : Type} (a : A) g : runs (lift (Done a)) g a g.
Proof. split; reflexivity. Qed.

Lemma runs_modify (f : Gdb -> Gdb) g : runs (modify f) g tt (f g).
Proof. split; reflexivity. Qed.

Lemma runs_rows_of {A : Type} (fc : Gdb -> option (list A)) g rows :
  fc g = Some rows -> runs (rows_of fc) g rows g.
Proof.
  intros H. unfold rows_of, runs, bind, get. cbn. rewrite H. cbn. auto.
Qed.

Lemma quiet_printit t a : quiet (printit t a).
Proof. intros g. split; reflexivity. Qed.

Lemma quiet_printerror t a : quiet (printerror t a).
Proof. intros g. split; reflexivity. Qed.

Lemma quiet_ret : quiet (ret tt).
Proof. intros g. split; reflexivity. Qed.

Lemma quiet_bind (c : M unit) (k : M unit) : quiet c -> quiet k -> quiet (c ;;; k).
Proof.
  intros Hc Hk g. eapply runs_bind; [apply Hc | apply Hk].
Qed.

Lemma quiet_if (b : bool) (c1 c2 : M unit) : quiet c1 -> quiet c2 -> quiet (if b then c1 else c2).
Proof. destruct b; auto. Qed.

Lemma quiet_for_each {A : Type} (l : list A) (body : unit -> A -> M unit) :
  (forall x, quiet (body tt x)) -> quiet (for_each l tt body).
Proof.
  intros H. induction l as [| x t IH]; intros g.
  - apply runs_ret.
  - cbn. eapply runs_bind; [apply H | apply IH].
Qed.

(** A statement after one that only prints starts in the same geodatabase. *)
Lemma quiet_then {A : Type} (c : M unit) (k : M A) g :
  quiet c -> res ((c ;;; k) g) = res (k g) /\ db ((c ;;; k) g) = db (k g).
Proof.
  intros Hc. destruct (Hc g) as [H1 H2].
  destruct (bind_done c (fun _ => k) g tt H1) as [Hr [Hd _]].
  rewrite H2 in Hr, Hd. auto.
Qed.

Lemma runs_after_quiet {A : Type} (c : M unit) (k : M A) g a g' :
  quiet c -> runs k g a g' -> runs (c ;;; k) g a g'.
Proof. intros Hc Hk. eapply runs_bind; [apply Hc | exact Hk]. Qed.

Lemma fails_after_quiet {A : Type} (c : M unit) (k : M A) g e g' :
  quiet c -> fails k g e g' -> fails (c ;;; k) g e g'.
Proof. intros Hc Hk. eapply fails_bind_r; [apply Hc | exact Hk]. Qed.

Lemma runs_fails_excl {A : Type} (c : M A) g a g1 e g2 :
  runs c g a g1 -> fails c g e g2 -> False.
Proof. intros [H1 _] [H2 _]. congruence. Qed.

(* ================================================================== *)
(** * Data QC                                                          *)
(* ================================================================== *)

Lemma quiet_set_spatialref inp : quiet (set_spatialref inp).
Proof.
  unfold set_spatialref. apply quiet_if; [apply quiet_printerror | apply quiet_printit].
Qed.

Lemma quiet_check_multipart inp : quiet (check_multipart inp).
Proof.
  unfold check_multipart. apply quiet_if; [apply quiet_printerror | apply quiet_ret].
Qed.

Lemma quiet_FieldExists fields dataset field_name : quiet (FieldExists fields dataset field_name).
Proof.
  unfold FieldExists. apply quiet_if; [apply quiet_ret | apply quiet_printerror].
Qed.

Lemma quiet_check_etids l l' : quiet (check_etids l l').
Proof.
  unfold check_etids.
  apply quiet_bind; apply quiet_if; try apply quiet_printit; apply quiet_ret.
Qed.

Lemma quiet_add_wwpt_fields inp : quiet (add_wwpt_fields inp).
Proof.
  unfold add_wwpt_fields. apply quiet_for_each. intros x.
  apply quiet_if; apply quiet_printit.
Qed.

Create HintDb quiet.

#[local] Hint Resolve quiet_printit quiet_printerror quiet_ret quiet_set_spatialref
  quiet_check_multipart quiet_FieldExists quiet_check_etids quiet_add_wwpt_fields : quiet.

Lemma exit_with_error t a g : fails (printerror t a ;;; @raise unit SystemExit) g SystemExit g.
Proof. split; reflexivity. Qed.

Lemma check_buffer_dist_ok p g :
  (0 < buffer_dist p)%Z -> runs (check_buffer_dist p) g tt g.
Proof.
  intros H. unfold check_buffer_dist.
  destruct (Z.leb_spec (buffer_dist p) 0); [lia | apply runs_ret].
Qed.

Lemma check_buffer_dist_exit p g :
  (buffer_dist p <= 0)%Z -> fails (check_buffer_dist p) g SystemExit g.
Proof.
  intros H. unfold check_buffer_dist.
  destruct (Z.leb_spec (buffer_dist p) 0); [apply exit_with_error | lia].
Qed.

Lemma check_vertical_exaggeration_ok p g :
  (0 < vertical_exaggeration p)%Z -> runs (check_vertical_exaggeration p) g tt g.
Proof.
  intros H. unfold check_vertical_exaggeration.
  destruct (Z.leb_spec (vertical_exaggeration p) 0); [lia | apply runs_ret].
Qed.

Lemma check_vertical_exaggeration_exit p g :
  (vertical_exaggeration p <= 0)%Z -> fails (check_vertical_exaggeration p) g SystemExit g.
Proof.
  intros H. unfold check_vertical_exaggeration.
  destruct (Z.leb_spec (vertical_exaggeration p) 0); [apply exit_with_error | lia].
Qed.

Lemma check_count_ok {A : Type} (rows : list A) error g :
  rows <> [] -> runs (check_count rows error) g tt g.
Proof.
  intros H. unfold check_count. destruct rows as [| x t]; [congruence |].
  cbn [List.length]. destruct (Z.eqb_spec (Z.of_nat (S (List.length t))) 0); [lia | apply runs_ret].
Qed.

Lemma check_count_exit {A : Type} (rows : list A) error g :
  rows = [] -> fails (check_count rows error) g SystemExit g.
Proof.
  intros H. subst rows. unfold check_count. cbn. split; reflexivity.
Qed.

Lemma append_unique_nonempty {A : Type} (eqb : A -> A -> bool) (l : list A) (x : A) :
  append_unique eqb l x <> [].
Proof.
  unfold append_unique. destruct (existsb (eqb x) l) eqn:E.
  - destruct l; [discriminate | discriminate].
  - destruct l; discriminate.
Qed.

Lemma fold_append_unique_nonempty {A : Type} (eqb : A -> A -> bool) (l acc : list A) :
  acc <> [] -> fold_left (append_unique eqb) l acc <> [].
Proof.
  revert acc. induction l as [| x t IH]; intros acc H; cbn; [exact H |].
  apply IH. apply append_unique_nonempty.
Qed.

Lemma unique_values_nonempty {A : Type} (eqb : A -> A -> bool) (l : list A) :
  l <> [] -> unique_values eqb l <> [].
Proof.
  intros H. destruct l as [| x t]; [congruence |].
  unfold unique_values. cbn [fold_left].
  apply fold_append_unique_nonempty, append_unique_nonempty.
Qed.

Lemma py_getitem_first {A : Type} (l : list A) :
  l <> [] -> exists a, py_getitem l 0 = Done a.
Proof.
  intros H. destruct l as [| x t]; [congruence |].
  exists x. unfold py_getitem, py_index. cbn [List.length].
  replace ((0 <=? 0)%Z && (0 <? Z.of_nat (S (List.length t)))%Z) with true.
  - reflexivity.
  - symmetry. apply andb_true_intro. split; [reflexivity | apply Z.ltb_lt; lia].
Qed.

Ltac skip_quiet :=
  repeat first
    [ apply runs_after_quiet; [solve [auto with quiet] |]
    | apply fails_after_quiet; [solve [auto with quiet] |] ].

(** The QC of the static-water-level script passes exactly on positive
    parameters and non-empty inputs; otherwise it exits.  In both cases the
    geodatabase is untouched. *)
Lemma swl_validate_cases p inp g :
  (exists flag, runs (SWL.validate p inp) g flag g /\
     (0 < buffer_dist p)%Z /\ (0 < vertical_exaggeration p)%Z /\
     wwpt_file_orig inp <> [] /\ xsln_file_orig inp <> []) \/
  (fails (SWL.validate p inp) g SystemExit g /\
     ((buffer_dist p <= 0)%Z \/ (vertical_exaggeration p <= 0)%Z \/
      wwpt_file_orig inp = [] \/ xsln_file_orig inp = [])).
Proof.
  unfold SWL.validate.
  destruct (Z_lt_le_dec 0 (buffer_dist p)) as [Hb | Hb].
  2:{ right. split; [| auto]. skip_quiet. apply fails_bind_l.
      now apply check_buffer_dist_exit. }
  destruct (Z_lt_le_dec 0 (vertical_exaggeration p)) as [Hv | Hv].
  2:{ right. split; [| auto]. skip_quiet.
      eapply fails_bind_r; [now apply check_buffer_dist_ok |].
      apply fails_bind_l. now apply check_vertical_exaggeration_exit. }
  destruct (wwpt_file_orig inp) as [| w ws] eqn:Ew.
  { right. split; [| auto]. skip_quiet.
    eapply fails_bind_r; [now apply check_buffer_dist_ok |].
    eapply fails_bind_r; [now apply check_vertical_exaggeration_ok |].
    apply fails_bind_l. now apply check_count_exit. }
  destruct (xsln_file_orig inp) as [| l ls] eqn:El.
  { right. split; [| auto]. skip_quiet.
    eapply fails_bind_r; [now apply check_buffer_dist_ok |].
    eapply fails_bind_r; [now apply check_vertical_exaggeration_ok |].
    eapply fails_bind_r; [now apply check_count_ok |].
    apply fails_bind_l. now apply check_count_exit. }
  left.
  destruct (py_getitem_first (unique_values wellid_eqb (map wp_wellid (w :: ws)))) as [a Ha].
  { apply unique_values_nonempty. discriminate. }
  exists (negb (wellid_is_str a)).
  split; [| repeat split; (assumption || discriminate)].
  skip_quiet.
  eapply runs_bind; [now apply check_buffer_dist_ok |].
  eapply runs_bind; [now apply check_vertical_exaggeration_ok |].
  eapply runs_bind; [now apply check_count_ok |].
  eapply runs_bind; [now apply check_count_ok |].
  skip_quiet.
  rewrite Ha. eapply runs_bind; [apply runs_lift | apply runs_ret].
Qed.

(** The same for the construction script, whose QC also counts the rows
    of the construction table. *)
Lemma conspys_validate_cases p inp g :
  (exists flag, runs (Conspys.validate p inp) g flag g /\
     (0 < buffer_dist p)%Z /\ (0 < vertical_exaggeration p)%Z /\
     conspy_table inp <> [] /\ wwpt_file_orig inp <> [] /\ xsln_file_orig inp <> []) \/
  (fails (Conspys.validate p inp) g SystemExit g /\
     ((buffer_dist p <= 0)%Z \/ (vertical_exaggeration p <= 0)%Z \/
      conspy_table inp = [] \/ wwpt_file_orig inp = [] \/ xsln_file_orig inp = [])).
Proof.
  unfold Conspys.validate.
  destruct (Z_lt_le_dec 0 (buffer_dist p)) as [Hb | Hb].
  2:{ right. split; [| auto]. skip_quiet. apply fails_bind_l.
      now apply check_buffer_dist_exit. }
  destruct (Z_lt_le_dec 0 (vertical_exaggeration p)) as [Hv | Hv].
  2:{ right. split; [| auto]. skip_quiet.
      eapply fails_bind_r; [now apply check_buffer_dist_ok |].
      apply fails_bind_l. now apply check_vertical_exaggeration_exit. }
  destruct (conspy_table inp) as [| c cs] eqn:Ec.
  { right. split; [| auto]. skip_quiet.
    eapply fails_bind_r; [now apply check_buffer_dist_ok |].
    eapply fails_bind_r; [now apply check_vertical_exaggeration_ok |].
    skip_quiet. apply fails_bind_l. now apply check_count_exit. }
  destruct (wwpt_file_orig inp) as [| w ws] eqn:Ew.
  { right. split; [| auto 6]. skip_quiet.
    eapply fails_bind_r; [now apply check_buffer_dist_ok |].
    eapply fails_bind_r; [now apply check_vertical_exaggeration_ok |].
    skip_quiet.
    apply fails_bind_l. now apply check_count_exit. }
  destruct (xsln_file_orig inp) as [| l ls] eqn:El.
  { right. split; [| auto 6]. skip_quiet.
    eapply fails_bind_r; [now apply check_buffer_dist_ok |].
    eapply fails_bind_r; [now apply check_vertical_exaggeration_ok |].
    skip_quiet.
    apply fails_bind_l. now apply check_count_exit. }
  left.
  destruct (py_getitem_first (unique_values wellid_eqb (map cr_wellid (c :: cs)))) as [a Ha].
  { apply unique_values_nonempty. discriminate. }
  destruct (py_getitem_first (unique_values wellid_eqb (map wp_wellid (w :: ws)))) as [b Hb'].
  { apply unique_values_nonempty. discriminate. }
  exists (negb (wellid_is_str a)).
  split; [| repeat split; (assumption || discriminate)].
  skip_quiet.
  eapply runs_bind; [now apply check_buffer_dist_ok |].
  eapply runs_bind; [now apply check_vertical_exaggeration_ok |].
  skip_quiet.
  apply runs_after_quiet; [apply quiet_if; auto with quiet |].
  apply runs_after_quiet; [apply quiet_if; auto with quiet |].
  skip_quiet.
  rewrite Ha. eapply runs_bind; [apply runs_lift |].
  rewrite Hb'. eapply runs_bind; [apply runs_lift |].
  eapply runs_bind; [| apply runs_ret].
  assert (Q : quiet (if negb (Bool.eqb (wellid_is_str a) (wellid_is_str b))
                     then printerror "Warning: conspy table and well point file have mismatched data types in the well id field. Wells and construction records will not be matched correctly." []
                     else ret tt)).
  { apply quiet_if; auto with quiet. }
  apply Q.
Qed.

(* ================================================================== *)
(** * Planar geometry                                                  *)
(* ================================================================== *)

Lemma sq_nonneg x : 0 <= sq x.
Proof. unfold sq. nra. Qed.

Lemma dist2_nonneg a b : 0 <= dist2 a b.
Proof. unfold dist2. pose proof (sq_nonneg (X b - X a)). pose proof (sq_nonneg (Y b - Y a)). lra. Qed.

Lemma dist_nonneg a b : 0 <= dist a b.
Proof. apply sqrt_pos. Qed.

Lemma dist_sqr a b : dist a b * dist a b = dist2 a b.
Proof. apply sqrt_sqrt, dist2_nonneg. Qed.

Lemma dist2_sym a b : dist2 a b = dist2 b a.
Proof. unfold dist2, sq. ring. Qed.

Lemma dist_sym a b : dist a b = dist b a.
Proof. unfold dist. now rewrite dist2_sym. Qed.

Lemma point_eq a b : X a = X b -> Y a = Y b -> a = b.
Proof. destruct a, b; cbn; intros; subst; reflexivity. Qed.

Lemma dist_zero a b : dist a b = 0 -> a = b.
Proof.
  intros H. pose proof (dist_sqr a b) as E. rewrite H in E.
  unfold dist2, sq in E.
  pose proof (Rle_0_sqr (X b - X a)) as Sx. pose proof (Rle_0_sqr (Y b - Y a)) as Sy.
  unfold Rsqr in Sx, Sy.
  assert (Ex : (X b - X a) * (X b - X a) = 0) by lra.
  assert (Ey : (Y b - Y a) * (Y b - Y a) = 0) by lra.
  apply Rmult_integral in Ex. apply Rmult_integral in Ey.
  apply point_eq; lra.
Qed.

Lemma dist_pos a b : a <> b -> 0 < dist a b.
Proof.
  intros H. destruct (dist_nonneg a b) as [L | E]; [exact L |].
  exfalso. apply H. apply dist_zero. now symmetry.
Qed.

Section Along.
Variables (p : Point) (ux uy : R).
Hypothesis unit : ux * ux + uy * uy = 1.

Lemma dist2_along s t : dist2 (along p ux uy s) (along p ux uy t) = (t - s) * (t - s).
Proof.
  unfold dist2, sq, along. cbn.
  transitivity ((t - s) * (t - s) * (ux * ux + uy * uy)); [ring | rewrite unit; ring].
Qed.

Lemma dist_along s t : dist (along p ux uy s) (along p ux uy t) = Rabs (t - s).
Proof.
  unfold dist. rewrite dist2_along. 
  replace ((t - s) * (t - s)) with (Rsqr (t - s)) by (unfold Rsqr; ring).
  apply sqrt_Rsqr_abs.
Qed.

Lemma dist_from_origin r : dist p (along p ux uy r) = Rabs r.
Proof.
  replace p with (along p ux uy 0) at 1 by (unfold along; apply point_eq; cbn; ring).
  rewrite dist_along. f_equal. ring.
Qed.

Lemma on_segment_along s t r :
  (r - s) * (r - t) <= 0 -> on_segment (along p ux uy s) (along p ux uy t) (along p ux uy r).
Proof.
  intros H. unfold on_segment, along. cbn. split; [ring |].
  replace ((X p + r * ux - (X p + s * ux)) * (X p + r * ux - (X p + t * ux)) +
           (Y p + r * uy - (Y p + s * uy)) * (Y p + r * uy - (Y p + t * uy)))
    with ((r - s) * (r - t) * (ux * ux + uy * uy)) by ring.
  rewrite unit. lra.
Qed.

Lemma on_segment_along_inv s t n :
  s <> t -> on_segment (along p ux uy s) (along p ux uy t) n ->
  exists r, n = along p ux uy r /\ (r - s) * (r - t) <= 0.
Proof.
  intros Hst [Hc Hb]. unfold along in *. cbn in *.
  set (wx := X n - X p) in *. set (wy := Y n - Y p) in *.
  exists (wx * ux + wy * uy).
  assert (Hcross : ux * wy - uy * wx = 0).
  { assert (E : (t - s) * (ux * (Y n - (Y p + s * uy)) - uy * (X n - (X p + s * ux))) = 0) by (rewrite <- Hc; ring).
    apply Rmult_integral in E. destruct E as [E | E]; [lra |].
    unfold wx, wy. lra. }
  assert (Ex : wx = (wx * ux + wy * uy) * ux).
  { transitivity (wx * (ux * ux + uy * uy)); [rewrite unit; ring |].
    replace (wx * (ux * ux + uy * uy))
      with ((wx * ux + wy * uy) * ux - uy * (ux * wy - uy * wx)) by ring.
    rewrite Hcross. ring. }
  assert (Ey : wy = (wx * ux + wy * uy) * uy).
  { transitivity (wy * (ux * ux + uy * uy)); [rewrite unit; ring |].
    replace (wy * (ux * ux + uy * uy))
      with ((wx * ux + wy * uy) * uy + ux * (ux * wy - uy * wx)) by ring.
    rewrite Hcross. ring. }
  split.
  - apply point_eq; cbn; unfold wx, wy in *; lra.
  - set (r := wx * ux + wy * uy) in *.
    assert (Xn : X n = X p + r * ux) by (unfold wx in Ex; lra).
    assert (Yn : Y n = Y p + r * uy) by (unfold wy in Ey; lra).
    rewrite Xn, Yn in Hb.
    replace ((X p + r * ux - (X p + s * ux)) * (X p + r * ux - (X p + t * ux)) +
             (Y p + r * uy - (Y p + s * uy)) * (Y p + r * uy - (Y p + t * uy)))
      with ((r - s) * (r - t) * (ux * ux + uy * uy)) in Hb by ring.
    rewrite unit in Hb. lra.
Qed.

Lemma between_bounds s t r : t <= s -> (r - s) * (r - t) <= 0 -> t <= r <= s.
Proof. intros H1 H2. split; nra. Qed.

Lemma on_segment_along_split s m t n :
  t <= m <= s -> t < s ->
  on_segment (along p ux uy s) (along p ux uy t) n ->
  on_segment (along p ux uy m) (along p ux uy t) n \/
  on_segment (along p ux uy s) (along p ux uy m) n.
Proof.
  intros Hm Hts Hon.
  destruct (on_segment_along_inv s t n) as [r [Er Hr]]; [lra | exact Hon |].
  subst n. apply between_bounds in Hr; [| lra].
  destruct (Rle_dec r m) as [C | C].
  - left. apply on_segment_along. nra.
  - right. apply on_segment_along. nra.
Qed.

End Along.

(* ================================================================== *)
(** * Python lists and the line extension                              *)
(* ================================================================== *)

Lemma py_index_nonneg len i :
  (0 <= i < Z.of_nat len)%Z -> py_index len i = Some (Z.to_nat i).
Proof.
  intros H. unfold py_index.
  destruct (Z.leb_spec 0 i); [| lia]. destruct (Z.ltb_spec i (Z.of_nat len)); [| lia].
  reflexivity.
Qed.

Lemma py_index_neg len i :
  (- Z.of_nat len <= i < 0)%Z -> py_index len i = Some (Z.to_nat (i + Z.of_nat len)).
Proof.
  intros H. unfold py_index.
  destruct (Z.leb_spec 0 i); [lia |]. cbn [andb].
  destruct (Z.leb_spec (- Z.of_nat len) i); [| lia]. destruct (Z.ltb_spec i 0); [| lia].
  reflexivity.
Qed.

Lemma py_index_none len i :
  (i < - Z.of_nat len \/ Z.of_nat len <= i)%Z -> py_index len i = None.
Proof.
  intros H. unfold py_index.
  destruct (Z.leb_spec 0 i); destruct (Z.ltb_spec i (Z.of_nat len)); cbn [andb]; try lia;
    destruct (Z.leb_spec (- Z.of_nat len) i); destruct (Z.ltb_spec i 0); cbn [andb];
    try lia; reflexivity.
Qed.

Lemma py_getitem_0 {A : Type} (x : A) l : py_getitem (x :: l) 0 = Done x.
Proof.
  unfold py_getitem. rewrite py_index_nonneg by (cbn [List.length]; lia). reflexivity.
Qed.

Lemma py_getitem_1 {A : Type} (x y : A) l : py_getitem (x :: y :: l) 1 = Done y.
Proof.
  unfold py_getitem. rewrite py_index_nonneg by (cbn [List.length]; lia). reflexivity.
Qed.

Lemma py_getitem_last {A : Type} (l : list A) (z : A) : py_getitem (l ++ [z]) (-1) = Done z.
Proof.
  unfold py_getitem. rewrite py_index_neg by (rewrite length_app; cbn [List.length]; lia).
  rewrite length_app. cbn [List.length].
  replace (Z.to_nat (-1 + Z.of_nat (List.length l + 1))) with (List.length l) by lia.
  rewrite nth_error_app2 by lia. rewrite Nat.sub_diag. reflexivity.
Qed.

Lemma py_getitem_last2 {A : Type} (l : list A) (y z : A) :
  py_getitem (l ++ [y; z]) (-2) = Done y.
Proof.
  unfold py_getitem. rewrite py_index_neg by (rewrite length_app; cbn [List.length]; lia).
  rewrite length_app. cbn [List.length].
  replace (Z.to_nat (-2 + Z.of_nat (List.length l + 2))) with (List.length l) by lia.
  rewrite nth_error_app2 by lia. rewrite Nat.sub_diag. reflexivity.
Qed.

Lemma py_setitem_0 {A : Type} (x v : A) l : py_setitem (x :: l) 0 v = Done (v :: l).
Proof.
  unfold py_setitem. rewrite py_index_nonneg by (cbn [List.length]; lia). reflexivity.
Qed.

Lemma list_set_last {A : Type} (l : list A) (z v : A) :
  list_set (l ++ [z]) (List.length l) v = l ++ [v].
Proof. induction l as [| h t IH]; cbn; [reflexivity | now rewrite IH]. Qed.

Lemma py_setitem_last {A : Type} (l : list A) (z v : A) :
  py_setitem (l ++ [z]) (-1) v = Done (l ++ [v]).
Proof.
  unfold py_setitem. rewrite py_index_neg by (rewrite length_app; cbn [List.length]; lia).
  rewrite length_app. cbn [List.length].
  replace (Z.to_nat (-1 + Z.of_nat (List.length l + 1))) with (List.length l) by lia.
  now rewrite list_set_last.
Qed.

Lemma py_getitem_short {A : Type} (l : list A) :
  (List.length l < 2)%nat -> py_getitem l 1 = Raised IndexError.
Proof.
  intros H. unfold py_getitem. rewrite py_index_none by lia. reflexivity.
Qed.

Lemma last_cons {A : Type} (l : list A) (a d : A) : last (a :: l) d = last l a.
Proof.
  revert a d. induction l as [| h t IH]; intros a d; [reflexivity |].
  change (last (a :: h :: t) d) with (last (h :: t) d).
  rewrite IH. symmetry. apply IH.
Qed.

(** A list of at least two elements: its first, its interior, its last. *)
Lemma two_or_more {A : Type} (l : list A) :
  (2 <= List.length l)%nat -> exists p0 body pl, l = p0 :: body ++ [pl].
Proof.
  intros H. destruct l as [| p0 t]; [cbn in H; lia |].
  destruct (exists_last (l := t)) as [body [pl E]].
  { intros E. subst t. cbn in H. lia. }
  exists p0, body, pl. now rewrite E.
Qed.

Lemma py_getitem_second {A : Type} (p0 pl : A) body :
  py_getitem (p0 :: body ++ [pl]) 1 = Done (hd pl body).
Proof. destruct body; apply py_getitem_1. Qed.

Lemma py_getitem_before_last {A : Type} (p0 pl : A) body :
  py_getitem (p0 :: body ++ [pl]) (-2) = Done (last body p0).
Proof.
  destruct (exists_last (l := p0 :: body)) as [front [y E]]; [discriminate |].
  assert (Ey : y = last body p0).
  { rewrite <- (last_cons body p0 p0). rewrite E. now rewrite last_last. }
  change (p0 :: body ++ [pl]) with ((p0 :: body) ++ [pl]).
  rewrite E, <- app_assoc. cbn [app]. rewrite py_getitem_last2. now rewrite Ey.
Qed.

(** The result of the extension loop body on a line of two or more
    vertices: the interior is kept, the two ends are replaced, and both
    replacements are computed from the original vertices. *)
Lemma extend_line_spec b p0 body pl :
  extend_line b (p0 :: body ++ [pl]) =
  Done (pointFromAngleAndDistance p0 (fst (angleAndDistanceTo (hd pl body) p0)) (IZR b)
        :: body ++
        [pointFromAngleAndDistance pl (fst (angleAndDistanceTo (last body p0) pl)) (IZR b)]).
Proof.
  unfold extend_line.
  rewrite py_getitem_0. cbn [obind].
  rewrite py_getitem_second. cbn [obind].
  change (p0 :: body ++ [pl]) with ((p0 :: body) ++ [pl]) at 1.
  rewrite py_getitem_last. cbn [obind].
  rewrite py_getitem_before_last. cbn [obind].
  rewrite py_setitem_0. cbn [obind].
  match goal with |- context [py_setitem (?v :: body ++ [pl])] =>
    change (v :: body ++ [pl]) with ((v :: body) ++ [pl]) end.
  rewrite py_setitem_last. cbn [obind]. reflexivity.
Qed.

Lemma extend_line_short b pts :
  (List.length pts < 2)%nat -> extend_line b pts = Raised IndexError.
Proof.
  intros H. unfold extend_line.
  destruct pts as [| p0 t].
  - reflexivity.
  - rewrite py_getitem_0. cbn [obind]. rewrite py_getitem_short by exact H. reflexivity.
Qed.

(* ================================================================== *)
(** * Measures on the extended line                                    *)
(* ================================================================== *)

Lemma dir_unit a p : a <> p -> dir_x a p * dir_x a p + dir_y a p * dir_y a p = 1.
Proof.
  intros H. pose proof (dist_pos a p H) as L. pose proof (dist_sqr a p) as S.
  unfold dir_x, dir_y. unfold dist2, sq in S.
  field_simplify_eq; [| lra]. lra.
Qed.

Lemma beyond_along a p d : beyond a p d = along p (dir_x a p) (dir_y a p) d.
Proof. reflexivity. Qed.

Lemma pointFromAngleAndDistance_beyond a p d :
  a <> p -> pointFromAngleAndDistance p (fst (angleAndDistanceTo a p)) d = beyond a p d.
Proof.
  intros H. unfold angleAndDistanceTo.
  destruct (Req_dec_T (dist a p) 0) as [E | E].
  - exfalso. apply H. now apply dist_zero.
  - reflexivity.
Qed.

Lemma back_along a p : a <> p -> a = along p (dir_x a p) (dir_y a p) (- dist a p).
Proof.
  intros H. pose proof (dist_pos a p H) as L.
  unfold along, dir_x, dir_y. apply point_eq; cbn; field; lra.
Qed.

Lemma origin_along p ux uy : p = along p ux uy 0.
Proof. unfold along. apply point_eq; cbn; ring. Qed.

(** The point beyond [pl] on a line with origin [p0], for a line of two
    vertices. *)
Lemma beyond_far_along p0 pl d :
  p0 <> pl ->
  beyond p0 pl d = along p0 (dir_x pl p0) (dir_y pl p0) (- dist pl p0 - d).
Proof.
  intros H. assert (H' : pl <> p0) by congruence.
  pose proof (dist_pos pl p0 H') as L.
  unfold beyond, along. rewrite (dist_sym p0 pl).
  unfold dir_x, dir_y. apply point_eq; cbn; field; lra.
Qed.

Lemma dist_beyond a p d : a <> p -> 0 <= d -> dist p (beyond a p d) = d.
Proof.
  intros H Hd. rewrite beyond_along.
  rewrite dist_from_origin by now apply dir_unit.
  now apply Rabs_pos_eq.
Qed.

(** Measures on polylines that differ in their last vertex only. *)
Lemma measure_tail_same mid : forall a pl ne n,
  on_polyline_from a (mid ++ [pl]) n ->
  (on_segment (last mid a) pl n -> on_segment (last mid a) ne n) ->
  measure_from a (mid ++ [ne]) n = measure_from a (mid ++ [pl]) n.
Proof.
  induction mid as [| h t IH]; intros a pl ne n Hon Hsub.
  - cbn in *. destruct Hon as [Hon | []].
    destruct (on_segment_dec a pl n) as [_ | C]; [| contradiction].
    destruct (on_segment_dec a ne n) as [_ | C]; [reflexivity | exfalso; auto].
  - cbn [app measure_from]. cbn [app on_polyline_from] in Hon.
    destruct (on_segment_dec a h n) as [_ | C]; [reflexivity |].
    destruct Hon as [Hon | Hon]; [contradiction |].
    f_equal. apply IH; [exact Hon |].
    rewrite last_cons in Hsub. exact Hsub.
Qed.

Lemma measure_tail_beyond mid : forall a pl ne n,
  ~ on_polyline_from a (mid ++ [pl]) n ->
  on_segment (last mid a) ne n ->
  measure_from a (mid ++ [ne]) n =
  length_from a (mid ++ [pl]) - dist (last mid a) pl + dist (last mid a) n.
Proof.
  induction mid as [| h t IH]; intros a pl ne n Hoff Hon.
  - cbn in *. destruct (on_segment_dec a ne n) as [_ | C]; [lra | contradiction].
  - cbn [app measure_from length_from]. cbn [app on_polyline_from] in Hoff.
    destruct (on_segment_dec a h n) as [C | _]; [exfalso; auto |].
    rewrite last_cons in Hon. rewrite last_cons.
    rewrite (IH h pl ne n); [lra | tauto | exact Hon].
Qed.

Section Extension.

Variables (b : R) (p0 pl : Point) (body : list Point).
Hypothesis b_nonneg : 0 <= b.
Hypothesis first_segment : hd pl body <> p0.
Hypothesis last_segment : last body p0 <> pl.

Let h1 := hd pl body.
Let l2 := last body p0.
Let nb := beyond h1 p0 b.
Let ne := beyond l2 pl b.
Let P := p0 :: body ++ [pl].
Let E := nb :: body ++ [ne].
Let ux := dir_x h1 p0.
Let uy := dir_y h1 p0.
Let vx := dir_x l2 pl.
Let vy := dir_y l2 pl.

Lemma u_unit : ux * ux + uy * uy = 1.
Proof. apply dir_unit, first_segment. Qed.

Lemma v_unit : vx * vx + vy * vy = 1.
Proof. apply dir_unit, last_segment. Qed.

Lemma h1_along : h1 = along p0 ux uy (- dist h1 p0).
Proof. apply back_along, first_segment. Qed.

Lemma l2_along : l2 = along pl vx vy (- dist l2 pl).
Proof. apply back_along, last_segment. Qed.

(** The second vertex of the extended line, on the line of the first
    segment. *)
Lemma second_along :
  exists t, hd ne body = along p0 ux uy t /\ t <= - dist h1 p0.
Proof.
  destruct body as [| h t] eqn:Eb.
  - (* two vertices: the second vertex of the extended line is [ne] *)
    cbn [hd]. subst ne l2 h1 ux uy. cbn [hd last] in *.
    exists (- dist pl p0 - b). split; [| lra].
    apply beyond_far_along. congruence.
  - cbn [hd]. exists (- dist h1 p0). split; [| lra].
    subst h1 ux uy. cbn [hd] in *. apply back_along. exact first_segment.
Qed.

(** A point of the front extension has measure [b - e] on the extended
    line. *)
Lemma measure_front e :
  0 <= e <= b -> measureOnLine E (beyond h1 p0 e) = b - e.
Proof.
  intros He. unfold E. cbn [measureOnLine].
  destruct second_along as [t [Et Ht]].
  pose proof (dist_nonneg h1 p0) as L.
  destruct (body ++ [ne]) as [| x rest] eqn:Ebody.
  { destruct body; discriminate. }
  assert (Ex : x = hd ne body).
  { destruct body as [| y ys]; cbn in Ebody |- *; congruence. }
  cbn [measure_from]. subst x. rewrite Et.
  change nb with (along p0 ux uy b). change (beyond h1 p0 e) with (along p0 ux uy e).
  destruct (on_segment_dec (along p0 ux uy b) (along p0 ux uy t) (along p0 ux uy e)) as [_ | C].
  - rewrite dist_along by apply u_unit. rewrite Rabs_left1 by lra. lra.
  - exfalso. apply C. apply on_segment_along; [apply u_unit | nra].
Qed.


(** The last segment of the line is part of the last segment of the
    extended line. *)
Lemma last_segment_sub n : on_segment l2 pl n -> on_segment l2 ne n.
Proof.
  intros S. pose proof v_unit as V. pose proof (dist_pos _ _ last_segment) as L'.
  pose proof l2_along as El. fold l2 in L'.
  assert (S' : on_segment (along pl vx vy (- dist l2 pl)) (along pl vx vy 0) n).
  { rewrite <- El, <- origin_along. exact S. }
  destruct (on_segment_along_inv pl vx vy V (- dist l2 pl) 0 n) as [r [Er Hr]];
    [lra | exact S' |].
  assert (Hb : - dist l2 pl <= r <= 0).
  { apply between_bounds; [lra | nra]. }
  rewrite El at 1. change ne with (along pl vx vy b).
  rewrite Er. apply on_segment_along; [exact V | nra].
Qed.

(** A point of the original line that is not on the front extension has
    the same measure on the original line as on the extended line, less
    [b]. *)
Lemma measure_on_original n :
  on_polyline P n -> (on_segment nb p0 n -> n = p0) ->
  measureOnLine E n - b = measureOnLine P n.
Proof.
  intros Hon Hfront. unfold E, P in *. cbn [measureOnLine on_polyline] in *.
  pose proof u_unit as U. pose proof (dist_pos _ _ first_segment) as L. fold h1 in L.
  pose proof h1_along as Eh. pose proof last_segment_sub as Hsub.
  destruct body as [| h t] eqn:Eb.
  - (* two vertices *)
    cbn [app measure_from on_polyline_from] in *.
    destruct Hon as [Hon | []].
    assert (Epl : pl = along p0 ux uy (- dist h1 p0)) by exact Eh.
    assert (Ene : ne = along p0 ux uy (- dist h1 p0 - b)).
    { unfold ne, l2, h1, ux, uy. cbn [hd last]. apply beyond_far_along.
      intros C. apply first_segment. cbn [hd]. congruence. }
    rewrite Epl in Hon. rewrite (origin_along p0 ux uy) in Hon at 1.
    destruct (on_segment_along_inv p0 ux uy U 0 (- dist h1 p0) n) as [r [Er Hr]];
      [lra | exact Hon |].
    assert (Hb : - dist h1 p0 <= r <= 0).
    { apply between_bounds; [lra | nra]. }
    destruct (on_segment_dec p0 pl n) as [_ | C].
    2:{ exfalso. apply C. rewrite Epl. rewrite (origin_along p0 ux uy) at 1. exact Hon. }
    change nb with (along p0 ux uy b). rewrite Ene.
    destruct (on_segment_dec (along p0 ux uy b) (along p0 ux uy (- dist h1 p0 - b)) n) as [_ | C].
    2:{ exfalso. apply C. rewrite Er. apply on_segment_along; [exact U | nra]. }
    rewrite Er. rewrite dist_along by exact U.
    rewrite dist_from_origin by exact U.
    rewrite Rabs_left1 by lra. rewrite Rabs_left1 by lra. lra.
  - (* three vertices or more *)
    cbn [app measure_from on_polyline_from hd] in *.
    assert (Eh' : h = along p0 ux uy (- dist h1 p0)) by exact Eh.
    destruct (on_segment_dec p0 h n) as [C | C].
    + rewrite Eh' in C. rewrite (origin_along p0 ux uy) in C at 1.
      destruct (on_segment_along_inv p0 ux uy U 0 (- dist h1 p0) n) as [r [Er Hr]];
        [lra | exact C |].
      assert (Hb : - dist h1 p0 <= r <= 0).
      { apply between_bounds; [lra | nra]. }
      change nb with (along p0 ux uy b). rewrite Eh'.
      destruct (on_segment_dec (along p0 ux uy b) (along p0 ux uy (- dist h1 p0)) n) as [_ | C'].
      2:{ exfalso. apply C'. rewrite Er. apply on_segment_along; [exact U | nra]. }
      rewrite Er. rewrite dist_along by exact U.
      rewrite dist_from_origin by exact U.
      rewrite Rabs_left1 by lra. rewrite Rabs_left1 by lra. lra.
    + destruct Hon as [Hon | Hon]; [contradiction |].
      destruct (on_segment_dec nb h n) as [C' | _].
      { exfalso. change nb with (along p0 ux uy b) in C', Hfront.
        rewrite Eh' in C'.
        destruct (on_segment_along_split p0 ux uy U b 0 (- dist h1 p0) n) as [S | S];
          [lra | lra | exact C' | |].
        - apply C. rewrite Eh'. rewrite (origin_along p0 ux uy) at 1. exact S.
        - rewrite <- (origin_along p0 ux uy) in S. specialize (Hfront S). subst n.
          apply C. split; [ring_simplify; lra | ring_simplify; lra]. }
      assert (Dnb : dist nb h = b + dist p0 h).
      { change nb with (along p0 ux uy b). rewrite Eh' at 1.
        rewrite dist_along by exact U. rewrite (dist_sym p0 h).
        change (dist h p0) with (dist h1 p0). rewrite Rabs_left1 by lra. lra. }
      rewrite Dnb.
      rewrite (measure_tail_same t h pl ne n Hon).
      * lra.
      * intros S. rewrite <- (last_cons t h p0) in S |- *.
        apply Hsub. exact S.
Qed.


Lemma back_on_extension e : 0 <= e <= b -> on_segment l2 ne (beyond l2 pl e).
Proof.
  intros He. pose proof v_unit as V. pose proof (dist_pos _ _ last_segment) as L'.
  pose proof l2_along as El. fold l2 in L'.
  rewrite El at 1. change ne with (along pl vx vy b).
  change (beyond l2 pl e) with (along pl vx vy e).
  apply on_segment_along; [exact V | nra].
Qed.

Lemma dist_back e : 0 <= e -> dist l2 (beyond l2 pl e) = dist l2 pl + e.
Proof.
  intros He. pose proof v_unit as V. pose proof (dist_pos _ _ last_segment) as L'.
  pose proof l2_along as El. fold l2 in L'.
  rewrite El at 1. change (beyond l2 pl e) with (along pl vx vy e).
  rewrite dist_along by exact V. rewrite Rabs_pos_eq by lra. lra.
Qed.

(** A point of the back extension that the line does not pass through
    earlier has measure [b + length P + e] on the extended line. *)
Lemma measure_back e :
  0 <= e <= b ->
  ~ on_polyline P (beyond l2 pl e) -> ~ on_segment nb p0 (beyond l2 pl e) ->
  measureOnLine E (beyond l2 pl e) - b = polyline_length P + e.
Proof.
  intros He Hoff Hfront. unfold E, P in *. cbn [measureOnLine on_polyline polyline_length] in *.
  pose proof u_unit as U. pose proof (dist_pos _ _ first_segment) as L. fold h1 in L.
  pose proof h1_along as Eh. pose proof (back_on_extension e He) as Hon.
  pose proof (dist_back e (proj1 He)) as Dn.
  set (n := beyond l2 pl e) in *.
  destruct body as [| h t] eqn:Eb.
  - (* two vertices *)
    cbn [app measure_from length_from] in *.
    assert (Ene : ne = along p0 ux uy (- dist h1 p0 - b)).
    { unfold ne, l2, h1, ux, uy. cbn [hd last]. apply beyond_far_along.
      intros C. apply first_segment. cbn [hd]. congruence. }
    assert (En : n = along p0 ux uy (- dist h1 p0 - e)).
    { unfold n, l2, h1, ux, uy. cbn [hd last]. apply beyond_far_along.
      intros C. apply first_segment. cbn [hd]. congruence. }
    change nb with (along p0 ux uy b). rewrite Ene, En.
    destruct (on_segment_dec (along p0 ux uy b) (along p0 ux uy (- dist h1 p0 - b))
                (along p0 ux uy (- dist h1 p0 - e))) as [_ | C].
    2:{ exfalso. apply C. apply on_segment_along; [exact U | nra]. }
    rewrite dist_along by exact U. rewrite Rabs_left1 by lra.
    rewrite (dist_sym p0 pl). change (dist pl p0) with (dist h1 p0). lra.
  - (* three vertices or more *)
    cbn [app measure_from length_from on_polyline_from hd] in *.
    assert (Eh' : h = along p0 ux uy (- dist h1 p0)) by exact Eh.
    destruct (on_segment_dec nb h n) as [C' | _].
    { exfalso. change nb with (along p0 ux uy b) in C', Hfront.
      rewrite Eh' in C'.
      destruct (on_segment_along_split p0 ux uy U b 0 (- dist h1 p0) n) as [S | S];
        [lra | lra | exact C' | |].
      - apply Hoff. left. rewrite Eh'. rewrite (origin_along p0 ux uy) at 1. exact S.
      - rewrite <- (origin_along p0 ux uy) in S. exact (Hfront S). }
    assert (Dnb : dist nb h = b + dist p0 h).
    { change nb with (along p0 ux uy b). rewrite Eh' at 1.
      rewrite dist_along by exact U. rewrite (dist_sym p0 h).
      change (dist h p0) with (dist h1 p0). rewrite Rabs_left1 by lra. lra. }
    rewrite Dnb.
    unfold l2 in Hon, Dn. rewrite last_cons in Hon, Dn.
    rewrite (measure_tail_beyond t h pl ne n); [| tauto | exact Hon].
    rewrite Dn. lra.
Qed.

End Extension.

(* ================================================================== *)
(** * The scripts on valid inputs                                      *)
(* ================================================================== *)

Lemma point_eta n : mkPoint (X n) (Y n) = n.
Proof. destruct n; reflexivity. Qed.

Lemma extended_two_vertices b pts :
  (2 <= List.length pts)%nat -> extend_line b pts = Done (extended b pts) /\ extended b pts <> [].
Proof.
  intros H. destruct (two_or_more pts H) as [p0 [body [pl E]]]. subst pts.
  unfold extended. rewrite extend_line_spec. split; [reflexivity | discriminate].
Qed.

(** Section 12/13 of the scripts: the temporary line file holds one
    extended line per input line, in order, with the same et_id. *)
Lemma xsln_loop_runs p lines : forall g rows,
  Forall two_vertices lines ->
  xsln_temp g = Some rows ->
  runs (for_each lines tt (fun _ line =>
          let et_id := xs_etid line in
          new_xsln_geometry <- lift (extend_line (buffer_dist p) (xs_part0 line)) ;;
          insert_xsln_temp (mkXsLine new_xsln_geometry et_id false)))
       g tt
       (set_xsln_temp g (Some (rows ++ map (extended_line (buffer_dist p)) lines))).
Proof.
  induction lines as [| line t IH]; intros g rows Hall Hrows.
  - cbn. rewrite app_nil_r. split; [reflexivity |].
    cbn. destruct g; cbn in *. now rewrite Hrows.
  - inversion Hall as [| ? ? H2 Hall']; subst.
    cbn [for_each map].
    destruct (extended_two_vertices (buffer_dist p) (xs_part0 line) H2) as [He _].
    eapply runs_bind.
    + cbn zeta. rewrite He. eapply runs_bind; [apply runs_lift |].
      unfold insert_xsln_temp. eapply runs_bind; [apply runs_rows_of; eassumption |].
      apply runs_modify.
    + replace (set_xsln_temp g (Some (rows ++ extended_line (buffer_dist p) line
                                          :: map (extended_line (buffer_dist p)) t)))
        with (set_xsln_temp
                (set_xsln_temp g (Some (rows ++ [mkXsLine (extended (buffer_dist p) (xs_part0 line))
                                                          (xs_etid line) false])))
                (Some ((rows ++ [extended_line (buffer_dist p) line])
                         ++ map (extended_line (buffer_dist p)) t))).
      * apply IH; [exact Hall' | reflexivity].
      * unfold set_xsln_temp. cbn. now rewrite <- app_assoc.
Qed.

Lemma create_xsln_temp_runs p inp g :
  Forall two_vertices (xsln_file_orig inp) ->
  runs (create_xsln_temp p inp) g tt
       (set_xsln_temp g (Some (map (extended_line (buffer_dist p)) (xsln_file_orig inp)))).
Proof.
  intros H. unfold create_xsln_temp.
  eapply runs_bind; [apply runs_modify |].
  apply runs_after_quiet; [apply quiet_printit |].
  replace (set_xsln_temp g (Some (map (extended_line (buffer_dist p)) (xsln_file_orig inp))))
    with (set_xsln_temp (set_xsln_temp g (Some []))
            (Some ([] ++ map (extended_line (buffer_dist p)) (xsln_file_orig inp))))
    by reflexivity.
  apply xsln_loop_runs; [exact H | reflexivity].
Qed.

Lemma runs_then {A B : Type} (c : M A) (k : A -> M B) g a g1 :
  runs c g a g1 ->
  res (bind c k g) = res (k a g1) /\ db (bind c k g) = db (k a g1).
Proof.
  intros [H1 H2]. destruct (bind_done c k g a H1) as [Hr [Hd _]].
  rewrite H2 in Hr, Hd. auto.
Qed.

Lemma Near_file_spec E wells :
  E <> [] ->
  Near_file wells E =
  Done (map (fun w => let n := nearest E (wp_shape w) in
                      (w, mkNear (dist (wp_shape w) n) (X n) (Y n))) wells).
Proof.
  intros HE. induction wells as [| w t IH]; [reflexivity |].
  cbn [Near_file map]. rewrite IH.
  destruct E as [| a rest]; [congruence |]. reflexivity.
Qed.

Lemma near_rows_spec b E wells :
  map (update_OnLine_DIST b E)
      (map (fun w => let n := nearest E (wp_shape w) in
                     (w, mkNear (dist (wp_shape w) n) (X n) (Y n))) wells)
  = map (near_well b E) wells.
Proof. rewrite map_map. reflexivity. Qed.

(** Section 13/14 of the scripts: each line of [xsln_temp] writes the
    file of the wells that carry its et_id. *)
Lemma near_loop_runs p inp wells lines : forall g fd,
  Forall (fun l => xs_part0 l <> []) lines ->
  wwpt_temp g = Some wells ->
  wwpt_by_xs g = Some fd ->
  runs (for_each lines tt (fun _ line =>
          let et_id := xs_etid line in
          let xsln_geometry := xs_part0 line in
          printit "Calculating well locations in cross section view for xsln {0} out of {1}."
                  [ArgStr et_id; ArgInt (Z.of_nat (List.length (xsln_file_orig inp)))] ;;;
          wwpt_file_temp <- rows_of wwpt_temp ;;
          let wwpt_by_xs_file := Select wwpt_file_temp et_id in
          near <- lift (Near_file wwpt_by_xs_file xsln_geometry) ;;
          let wellpts := map (update_OnLine_DIST (buffer_dist p) xsln_geometry) near in
          fd <- rows_of wwpt_by_xs ;;
          modify (fun g => set_wwpt_by_xs g (Some (fd_put fd et_id wellpts)))))
       g tt
       (set_wwpt_by_xs g (Some (fold_left (by_xs_step (buffer_dist p) wells) lines fd))).
Proof.
  induction lines as [| line t IH]; intros g fd Hall Hw Hfd.
  - cbn. split; [reflexivity |]. destruct g; cbn in *. now rewrite Hfd.
  - inversion Hall as [| ? ? H2 Hall']; subst.
    cbn [for_each fold_left].
    eapply runs_bind.
    + cbn zeta. apply runs_after_quiet; [apply quiet_printit |].
      eapply runs_bind; [apply runs_rows_of; eassumption |].
      rewrite (Near_file_spec (xs_part0 line) _ H2).
      eapply runs_bind; [apply runs_lift |].
      eapply runs_bind; [apply runs_rows_of; eassumption |].
      rewrite near_rows_spec. apply runs_modify.
    + replace (set_wwpt_by_xs g
                 (Some (fold_left (by_xs_step (buffer_dist p) wells) t
                                  (by_xs_step (buffer_dist p) wells fd line))))
        with (set_wwpt_by_xs
                (set_wwpt_by_xs g (Some (fd_put fd (xs_etid line)
                   (map (near_well (buffer_dist p) (xs_part0 line))
                        (Select wells (xs_etid line))))))
                (Some (fold_left (by_xs_step (buffer_dist p) wells) t
                                  (by_xs_step (buffer_dist p) wells fd line))))
        by reflexivity.
      apply IH; [exact Hall' | exact Hw | reflexivity].
Qed.

Lemma near_analysis_runs p inp g wells lines fd :
  xsln_temp g = Some lines ->
  Forall (fun l => xs_part0 l <> []) lines ->
  wwpt_temp g = Some wells ->
  wwpt_by_xs g = Some fd ->
  runs (near_analysis p inp) g tt
       (set_wwpt_by_xs g (Some (fold_left (by_xs_step (buffer_dist p) wells) lines fd))).
Proof.
  intros Hl Hall Hw Hfd. unfold near_analysis.
  eapply runs_bind; [apply runs_rows_of; eassumption |].
  now apply near_loop_runs.
Qed.

Lemma merge_wwpt_runs g fd :
  wwpt_by_xs g = Some fd ->
  runs merge_wwpt g tt
       (set_wwpt_merge (set_wwpt_temp g None) (Some (List.concat (map snd fd)))).
Proof.
  intros H. unfold merge_wwpt.
  eapply runs_bind; [apply runs_modify |].
  eapply runs_bind; [apply runs_rows_of; exact H |].
  apply runs_after_quiet; [apply quiet_printit |].
  apply runs_modify.
Qed.

Lemma extended_lines_nonempty b lines :
  Forall two_vertices lines ->
  Forall (fun l => xs_part0 l <> []) (map (extended_line b) lines).
Proof.
  intros H. induction H as [| line t H2 _ IH]; cbn [map]; constructor; [| exact IH].
  cbn. now apply extended_two_vertices.
Qed.

(** Sections 10 to 15 (SWL) or 11 to 16 (construction): on lines of two
    or more vertices the near analysis and the merge end normally and
    leave [after_merge]; the statements [k] that follow start there. *)
Lemma near_pipeline {A : Type} (p : Params) (inp : Inputs) (k : M A) (g : Gdb) :
  Forall two_vertices (xsln_file_orig inp) ->
  let c := create_wwpt_by_xs inp ;;; add_wwpt_fields inp ;;; create_xsln_temp p inp ;;;
           near_analysis p inp ;;; merge_wwpt ;;; k in
  res (c g) = res (k (after_merge p inp g)) /\ db (c g) = db (k (after_merge p inp g)).
Proof.
  intros Hall c. subst c.
  set (lines := map (extended_line (buffer_dist p)) (xsln_file_orig inp)).
  set (g1 := set_wwpt_temp (set_wwpt_by_xs g (Some [])) (Some (wwpt_file_orig inp))).
  assert (R1 : runs (create_wwpt_by_xs inp) g tt g1).
  { unfold create_wwpt_by_xs. apply runs_after_quiet; [apply quiet_printit |].
    eapply runs_bind; apply runs_modify. }
  destruct (runs_then _ (fun _ => add_wwpt_fields inp ;;; create_xsln_temp p inp ;;;
                                  near_analysis p inp ;;; merge_wwpt ;;; k) g tt g1 R1) as [E1 E1'].
  rewrite E1, E1'. clear E1 E1'.
  destruct (quiet_then (add_wwpt_fields inp)
              (create_xsln_temp p inp ;;; near_analysis p inp ;;; merge_wwpt ;;; k) g1
              (quiet_add_wwpt_fields inp)) as [E2 E2'].
  rewrite E2, E2'. clear E2 E2'.
  destruct (runs_then _ (fun _ => near_analysis p inp ;;; merge_wwpt ;;; k) g1 tt _
              (create_xsln_temp_runs p inp g1 Hall)) as [E3 E3'].
  rewrite E3, E3'. clear E3 E3'. fold lines.
  set (g2 := set_xsln_temp g1 (Some lines)).
  assert (R4 : runs (near_analysis p inp) g2 tt
                 (set_wwpt_by_xs g2 (Some (by_xs (buffer_dist p) (wwpt_file_orig inp) lines)))).
  { apply (near_analysis_runs p inp g2 (wwpt_file_orig inp) lines []); try reflexivity.
    now apply extended_lines_nonempty. }
  destruct (runs_then _ (fun _ => merge_wwpt ;;; k) g2 tt _ R4) as [E4 E4'].
  rewrite E4, E4'. clear E4 E4'.
  set (g3 := set_wwpt_by_xs g2 (Some (by_xs (buffer_dist p) (wwpt_file_orig inp) lines))).
  destruct (runs_then _ (fun _ => k) g3 tt _
              (merge_wwpt_runs g3 _ eq_refl)) as [E5 E5'].
  rewrite E5, E5'. split; reflexivity.
Qed.

Lemma py_div_int_nonzero x d : d <> 0%Z -> py_div_int x d = Done (x / IZR d).
Proof.
  intros H. unfold py_div_int. destruct (Z.eqb_spec d 0); [contradiction | reflexivity].
Qed.

Lemma set_swl_same g rows :
  swl_2d_xsecview g = Some rows -> set_swl_2d_xsecview g (Some rows) = g.
Proof. intros H. destruct g; cbn in *. now rewrite H. Qed.

(** The body of the point loop, on parameters that are not zero: a well
    with a null elevation or measured elevation is passed over, any other
    well adds its row. *)
Lemma swl_point_body_runs p count i w g rows :
  buffer_dist p <> 0%Z -> vertical_exaggeration p <> 0%Z ->
  swl_2d_xsecview g = Some rows ->
  runs (SWL.point_body p count (i, w)) g tt
       (set_swl_2d_xsecview g (Some (rows ++ option_list (swl_row p w)))).
Proof.
  intros Hb Hv Hrows. unfold SWL.point_body, swl_row. cbn [fst snd].
  unfold SWL.pct_dist, SWL.x_coord_2d. rewrite py_div_int_nonzero by exact Hb. cbn [obind].
  eapply runs_bind; [apply runs_lift |].
  destruct (wp_elevation (nw_well w)) as [well_z |].
  2:{ cbn [option_list]. rewrite app_nil_r. rewrite set_swl_same by exact Hrows.
      apply quiet_printit. }
  destruct (wp_meas_elev (nw_well w)) as [swl_z |].
  2:{ cbn [option_list]. rewrite app_nil_r. rewrite set_swl_same by exact Hrows.
      apply quiet_printit. }
  rewrite py_div_int_nonzero by exact Hv.
  eapply runs_bind; [apply runs_lift |].
  apply runs_after_quiet; [apply quiet_if; [apply quiet_printit | apply quiet_ret] |].
  unfold SWL.insert_pointfile.
  eapply runs_bind; [apply runs_rows_of; eassumption |].
  apply runs_modify.
Qed.

Lemma swl_point_loop_runs p count l : forall g rows,
  buffer_dist p <> 0%Z -> vertical_exaggeration p <> 0%Z ->
  swl_2d_xsecview g = Some rows ->
  runs (for_each l tt (fun _ row => SWL.point_body p count row)) g tt
       (set_swl_2d_xsecview g (Some (rows ++ swl_rows p (map snd l)))).
Proof.
  induction l as [| [i w] t IH]; intros g rows Hb Hv Hrows.
  - cbn. rewrite app_nil_r. rewrite set_swl_same by exact Hrows. split; reflexivity.
  - cbn [for_each map snd]. eapply runs_bind.
    + apply swl_point_body_runs; eassumption.
    + unfold swl_rows. cbn [flat_map]. fold (swl_rows p (map snd t)).
      rewrite app_assoc.
      replace (set_swl_2d_xsecview g
                 (Some ((rows ++ option_list (swl_row p w)) ++ swl_rows p (map snd t))))
        with (set_swl_2d_xsecview
                (set_swl_2d_xsecview g (Some (rows ++ option_list (swl_row p w))))
                (Some ((rows ++ option_list (swl_row p w)) ++ swl_rows p (map snd t))))
        by reflexivity.
      apply IH; [exact Hb | exact Hv | reflexivity].
Qed.

Lemma map_snd_with_oid {A : Type} (l : list A) : map snd (with_oid l) = l.
Proof.
  unfold with_oid.
  assert (G : forall (l : list A) (k : list Z), List.length k = List.length l ->
                map snd (combine k l) = l).
  { clear. induction l as [| x t IH]; intros k Hk.
    - destruct k; reflexivity.
    - destruct k as [| z k']; [discriminate |]. cbn. f_equal. apply IH.
      cbn in Hk. lia. }
  apply G. rewrite length_map, length_seq. reflexivity.
Qed.

Lemma swl_create_points_runs p inp g wells rows :
  buffer_dist p <> 0%Z -> vertical_exaggeration p <> 0%Z ->
  wwpt_merge g = Some wells ->
  swl_2d_xsecview g = Some rows ->
  runs (SWL.create_points p inp) g tt
       (set_swl_2d_xsecview g (Some (rows ++ swl_rows p wells))).
Proof.
  intros Hb Hv Hw Hrows. unfold SWL.create_points.
  eapply runs_bind; [apply runs_rows_of; eassumption |].
  rewrite <- (map_snd_with_oid wells) at 2.
  now apply swl_point_loop_runs.
Qed.

(** The static-water-level script ends normally on valid inputs and
    leaves the rows of the wells of [wwpt_merge] that are not passed
    over. *)
Lemma swl_run_runs p inp g :
  swl_inputs_ok p inp ->
  runs (SWL.run p inp) g tt
       (set_swl_2d_xsecview (after_merge p inp g) (Some (swl_rows p (merged p inp)))).
Proof.
  intros (Hb & Hv & Hw & Hx & Hall). unfold SWL.run.
  destruct (swl_validate_cases p inp g) as [[flag [Hr _]] | [_ Hf]].
  2:{ exfalso. destruct Hf as [Hf | [Hf | [Hf | Hf]]]; (lia || contradiction). }
  eapply runs_bind; [exact Hr |].
  eapply runs_bind.
  { unfold SWL.create_pointfile. apply runs_after_quiet; [apply quiet_printit |].
    apply runs_modify. }
  set (g1 := set_swl_2d_xsecview g (Some [])).
  destruct (near_pipeline p inp (SWL.create_points p inp) g1 Hall) as [Er Ed].
  split.
  - rewrite Er. apply (swl_create_points_runs p inp (after_merge p inp g1) (merged p inp) []);
      try reflexivity; lia.
  - rewrite Ed.
    destruct (swl_create_points_runs p inp (after_merge p inp g1) (merged p inp) []) as [_ D];
      try reflexivity; try lia.
    rewrite D. reflexivity.
Qed.

Lemma conspys_well_loop_runs p wwpt : forall i0 v0 g,
  buffer_dist p <> 0%Z -> vertical_exaggeration p <> 0%Z ->
  runs (for_each wwpt (i0, v0) (fun st well => lift (Conspys.well_body p st well))) g
       ((i0 + Z.of_nat (List.length wwpt))%Z,
        last (map (fun w => Some (conspy_vars p w)) wwpt) v0) g.
Proof.
  induction wwpt as [| w t IH]; intros i0 v0 g Hb Hv.
  - cbn. rewrite Z.add_0_r. split; reflexivity.
  - cbn [for_each]. eapply runs_bind.
    + unfold Conspys.well_body, Conspys.x_coord, Conspys.pct_dist.
      rewrite py_div_int_nonzero by exact Hv. cbn [obind].
      rewrite py_div_int_nonzero by exact Hb. cbn [obind fst].
      apply runs_lift.
    + replace (i0 + Z.of_nat (List.length (w :: t)))%Z
        with ((i0 + 1) + Z.of_nat (List.length t))%Z by (cbn [List.length]; lia).
      replace (last (map (fun w0 => Some (conspy_vars p w0)) (w :: t)) v0)
        with (last (map (fun w0 => Some (conspy_vars p w0)) t) (Some (conspy_vars p w))).
      * apply IH; assumption.
      * cbn [map]. symmetry. apply last_cons.
Qed.

Lemma last_map_some {A B : Type} (f : A -> B) (l : list A) (v0 : option B) :
  l <> [] ->
  last (map (fun w => Some (f w)) l) v0 = option_map f (last (map Some l) None).
Proof.
  intros H. destruct l as [| x t]; [congruence |]. clear H.
  revert x. induction t as [| y t IH]; intros x; [reflexivity |].
  change (last (map (fun w => Some (f w)) (x :: y :: t)) v0)
    with (last (map (fun w => Some (f w)) (y :: t)) v0).
  change (last (map Some (x :: y :: t)) None) with (last (map (@Some A) (y :: t)) None).
  apply IH.
Qed.

Lemma last_match_none wells wellid :
  last_match wells wellid = None <-> Conspys.where_wellid wells wellid = [].
Proof.
  unfold last_match. split.
  - intros H. destruct (Conspys.where_wellid wells wellid) as [| x t] eqn:E; [reflexivity |].
    exfalso. clear E. revert x H. induction t as [| y t IH]; intros x H; [discriminate |].
    apply (IH y). exact H.
  - intros H. now rewrite H.
Qed.

Lemma set_conspys_same g r3 r2 :
  conspys_3d g = Some r3 -> conspys_2d_line g = Some r2 ->
  set_conspys_2d_line (set_conspys_3d g (Some r3)) (Some r2) = g.
Proof. intros H3 H2. destruct g; cbn in *. now rewrite H3, H2. Qed.

(** The body of the loop over the construction table, on parameters that
    are not zero. *)
Lemma conspys_body_runs p count nm v0 row g wells r3 r2 :
  buffer_dist p <> 0%Z -> vertical_exaggeration p <> 0%Z ->
  wwpt_merge g = Some wells ->
  conspys_3d g = Some r3 -> conspys_2d_line g = Some r2 ->
  exists v',
    runs (Conspys.conspy_body p count (nm, v0) row) g
         (nm ++ (if conspy_nomatch wells row then [cr_wellid row] else []), v')
         (set_conspys_2d_line
            (set_conspys_3d g (Some (r3 ++ option_list (option_map fst (conspy_rows p wells row)))))
            (Some (r2 ++ option_list (option_map snd (conspy_rows p wells row))))).
Proof.
  intros Hb Hv Hw H3 H2.
  unfold Conspys.conspy_body, conspy_rows, conspy_nomatch. cbn [fst snd].
  destruct (cr_elev_top row) as [top |].
  2:{ exists v0. cbn [option_map option_list]. rewrite !app_nil_r.
      rewrite set_conspys_same by assumption.
      apply runs_after_quiet; [apply quiet_printit | apply runs_ret]. }
  destruct (cr_elev_bot row) as [bot |].
  2:{ exists v0. cbn [option_map option_list]. rewrite !app_nil_r.
      rewrite set_conspys_same by assumption.
      apply runs_after_quiet; [apply quiet_printit | apply runs_ret]. }
  pose proof (conspys_well_loop_runs p (Conspys.where_wellid wells (cr_wellid row)) 0%Z v0 g Hb Hv)
    as Hloop.
  destruct (last_match wells (cr_wellid row)) as [w |] eqn:Em.
  - (* a matching well *)
    assert (Hne : Conspys.where_wellid wells (cr_wellid row) <> []).
    { intros C. apply last_match_none in C. congruence. }
    rewrite (last_map_some (conspy_vars p) _ v0 Hne) in Hloop.
    unfold last_match in Em. rewrite Em in Hloop. cbn [option_map] in Hloop.
    exists (Some (conspy_vars p w)).
    apply runs_after_quiet; [apply quiet_if; [apply quiet_printit | apply quiet_ret] |].
    eapply runs_bind; [apply runs_rows_of; eassumption |].
    eapply runs_bind; [exact Hloop |].
    cbn [fst snd].
    destruct (Z.eqb_spec (0 + Z.of_nat (List.length (Conspys.where_wellid wells (cr_wellid row)))) 0)
      as [C | _].
    { exfalso. destruct (Conspys.where_wellid wells (cr_wellid row)); [congruence | cbn in C; lia]. }
    rewrite app_nil_r. cbn [option_map option_list fst snd].
    eapply runs_bind.
    { unfold Conspys.insert_polylinefile_3d.
      eapply runs_bind; [apply runs_rows_of; eassumption | apply runs_modify]. }
    eapply runs_bind.
    { unfold Conspys.insert_polylinefile_2d.
      eapply runs_bind; [apply runs_rows_of; cbn; eassumption | apply runs_modify]. }
    apply runs_ret.
  - (* no matching well *)
    apply last_match_none in Em. rewrite Em in Hloop. cbn [List.length map last] in Hloop.
    exists v0. cbn [option_map option_list]. rewrite !app_nil_r.
    rewrite set_conspys_same by assumption.
    apply runs_after_quiet; [apply quiet_if; [apply quiet_printit | apply quiet_ret] |].
    eapply runs_bind; [apply runs_rows_of; eassumption |].
    rewrite Em.
    eapply runs_bind; [exact Hloop |].
    cbn [fst snd]. apply runs_ret.
Qed.

Lemma conspys_loop_runs p count wells records : forall nm v0 g r3 r2,
  buffer_dist p <> 0%Z -> vertical_exaggeration p <> 0%Z ->
  wwpt_merge g = Some wells ->
  conspys_3d g = Some r3 -> conspys_2d_line g = Some r2 ->
  exists v',
    runs (for_each records (nm, v0) (Conspys.conspy_body p count)) g
         (nm ++ nomatch_ids wells records, v')
         (set_conspys_2d_line
            (set_conspys_3d g (Some (r3 ++ conspy_rows_3d p wells records)))
            (Some (r2 ++ conspy_rows_2d p wells records))).
Proof.
  induction records as [| row t IH]; intros nm v0 g r3 r2 Hb Hv Hw H3 H2.
  - exists v0. cbn. rewrite !app_nil_r. rewrite set_conspys_same by assumption.
    split; reflexivity.
  - destruct (conspys_body_runs p count nm v0 row g wells r3 r2 Hb Hv Hw H3 H2) as [v1 Hbody].
    set (g1 := set_conspys_2d_line
                 (set_conspys_3d g (Some (r3 ++ option_list (option_map fst (conspy_rows p wells row)))))
                 (Some (r2 ++ option_list (option_map snd (conspy_rows p wells row))))) in *.
    destruct (IH (nm ++ (if conspy_nomatch wells row then [cr_wellid row] else [])) v1 g1
                 (r3 ++ option_list (option_map fst (conspy_rows p wells row)))
                 (r2 ++ option_list (option_map snd (conspy_rows p wells row)))
                 Hb Hv Hw eq_refl eq_refl) as [v' Hrest].
    exists v'. cbn [for_each]. eapply runs_bind; [exact Hbody |].
    replace (nm ++ nomatch_ids wells (row :: t))
      with ((nm ++ (if conspy_nomatch wells row then [cr_wellid row] else []))
              ++ nomatch_ids wells t).
    2:{ unfold nomatch_ids. cbn [filter]. rewrite <- app_assoc.
        destruct (conspy_nomatch wells row); reflexivity. }
    unfold conspy_rows_3d, conspy_rows_2d. cbn [flat_map].
    fold (conspy_rows_3d p wells t). fold (conspy_rows_2d p wells t).
    rewrite !app_assoc. exact Hrest.
Qed.

Lemma conspys_create_polylines_runs p inp g wells r3 r2 :
  buffer_dist p <> 0%Z -> vertical_exaggeration p <> 0%Z ->
  wwpt_merge g = Some wells ->
  conspys_3d g = Some r3 -> conspys_2d_line g = Some r2 ->
  runs (Conspys.create_polylines p inp) g (nomatch_ids wells (conspy_table inp))
       (set_conspys_2d_line
          (set_conspys_3d g (Some (r3 ++ conspy_rows_3d p wells (conspy_table inp))))
          (Some (r2 ++ conspy_rows_2d p wells (conspy_table inp)))).
Proof.
  intros Hb Hv Hw H3 H2. unfold Conspys.create_polylines.
  destruct (conspys_loop_runs p (Z.of_nat (List.length (conspy_table inp))) wells
              (conspy_table inp) [] None g r3 r2 Hb Hv Hw H3 H2) as [v' Hloop].
  eapply runs_bind; [exact Hloop |].
  cbn [fst app].
  apply runs_after_quiet; [apply quiet_if; [apply quiet_printit | apply quiet_ret] |].
  apply runs_ret.
Qed.

(** The construction script ends normally on valid inputs; it returns
    the ids of the records without a well and leaves the rows of the
    other records that are not passed over. *)
Lemma conspys_run_runs p inp g :
  conspys_inputs_ok p inp ->
  runs (Conspys.run p inp) g (nomatch_ids (merged p inp) (conspy_table inp))
       (set_conspys_2d_line
          (set_conspys_3d (after_merge p inp g)
             (Some (conspy_rows_3d p (merged p inp) (conspy_table inp))))
          (Some (conspy_rows_2d p (merged p inp) (conspy_table inp)))).
Proof.
  intros [(Hb & Hv & Hw & Hx & Hall) Hc]. unfold Conspys.run.
  destruct (conspys_validate_cases p inp g) as [[flag [Hr _]] | [_ Hf]].
  2:{ exfalso. destruct Hf as [Hf | [Hf | [Hf | [Hf | Hf]]]]; (lia || contradiction). }
  eapply runs_bind; [exact Hr |].
  eapply runs_bind.
  { unfold Conspys.create_polylinefiles. apply runs_after_quiet; [apply quiet_printit |].
    eapply runs_bind; [apply runs_modify |].
    apply runs_after_quiet; [apply quiet_printit |]. apply runs_modify. }
  set (g1 := set_conspys_2d_line (set_conspys_3d g (Some [])) (Some [])).
  destruct (near_pipeline p inp (Conspys.create_polylines p inp) g1 Hall) as [Er Ed].
  destruct (conspys_create_polylines_runs p inp (after_merge p inp g1) (merged p inp) [] [])
    as [R D]; try reflexivity; try lia.
  split.
  - rewrite Er. exact R.
  - rewrite Ed, D. reflexivity.
Qed.

Lemma prints_only_bind {A B : Type} Q (c : M A) (k : A -> M B) :
  prints_only Q c -> (forall a, prints_only Q (k a)) -> prints_only Q (bind c k).
Proof.
  intros Hc Hk g. unfold bind. destruct (res (c g)) eqn:E; cbn [log].
  - apply Forall_app. split; [apply Hc | apply Hk].
  - apply Hc.
Qed.

Lemma prints_only_silent {A : Type} Q (c : M A) :
  (forall g, log (c g) = []) -> prints_only Q c.
Proof. intros H g. rewrite H. constructor. Qed.

Lemma prints_only_printit (Q : message -> Prop) t a :
  Q (mkMessage false t a) -> prints_only Q (printit t a).
Proof. intros H g. cbn. constructor; [exact H | constructor]. Qed.

Lemma prints_only_for_each {A S : Type} Q (l : list A) (body : S -> A -> M S) :
  (forall s x, prints_only Q (body s x)) -> forall acc, prints_only Q (for_each l acc body).
Proof.
  intros H. induction l as [| x t IH]; intros acc.
  - apply prints_only_silent. reflexivity.
  - cbn [for_each]. apply prints_only_bind; [apply H | intros a; apply IH].
Qed.

Lemma prints_only_rows_of {A : Type} Q (fc : Gdb -> option (list A)) :
  prints_only Q (rows_of fc).
Proof.
  apply prints_only_silent. intros g. unfold rows_of, bind, get. cbn.
  destruct (fc g); reflexivity.
Qed.

Lemma conspy_body_not_report p count vars row :
  prints_only not_report (Conspys.conspy_body p count vars row).
Proof.
  unfold Conspys.conspy_body.
  destruct (cr_elev_top row).
  2:{ apply prints_only_bind; [apply prints_only_printit; discriminate |].
      intros _. now apply prints_only_silent. }
  destruct (cr_elev_bot row).
  2:{ apply prints_only_bind; [apply prints_only_printit; discriminate |].
      intros _. now apply prints_only_silent. }
  apply prints_only_bind.
  { destruct (_ =? 0)%Z; [apply prints_only_printit; discriminate | now apply prints_only_silent]. }
  intros _. apply prints_only_bind; [apply prints_only_rows_of |].
  intros merged. apply prints_only_bind.
  { apply prints_only_for_each. intros s x. now apply prints_only_silent. }
  intros st. destruct (fst st =? 0)%Z; [now apply prints_only_silent |].
  destruct (snd st); [| now apply prints_only_silent].
  apply prints_only_bind.
  { unfold Conspys.insert_polylinefile_3d. apply prints_only_bind; [apply prints_only_rows_of |].
    intros rows. now apply prints_only_silent. }
  intros _. apply prints_only_bind.
  { unfold Conspys.insert_polylinefile_2d. apply prints_only_bind; [apply prints_only_rows_of |].
    intros rows. now apply prints_only_silent. }
  intros _. now apply prints_only_silent.
Qed.

(** The messages of the polyline creation: those of the loop, none of
    which is the report, then the report when a record had no well. *)
Lemma conspys_create_polylines_log p inp g wells r3 r2 :
  buffer_dist p <> 0%Z -> vertical_exaggeration p <> 0%Z ->
  wwpt_merge g = Some wells ->
  conspys_3d g = Some r3 -> conspys_2d_line g = Some r2 ->
  exists l,
    Forall not_report l /\
    log (Conspys.create_polylines p inp g) =
    l ++ match nomatch_ids wells (conspy_table inp) with
         | [] => []
         | _ :: _ =>
             [nomatch_report (Z.of_nat (List.length (nomatch_ids wells (conspy_table inp))))]
         end.
Proof.
  intros Hb Hv Hw H3 H2. unfold Conspys.create_polylines.
  destruct (conspys_loop_runs p (Z.of_nat (List.length (conspy_table inp))) wells
              (conspy_table inp) [] None g r3 r2 Hb Hv Hw H3 H2) as [v' [Hres Hdb]].
  set (loop := for_each (conspy_table inp) ([], None)
                 (Conspys.conspy_body p (Z.of_nat (List.length (conspy_table inp))))) in *.
  exists (log (loop g)). split.
  - apply prints_only_for_each. intros s x. apply conspy_body_not_report.
  - match goal with |- log (bind _ ?k g) = _ =>
      destruct (bind_done loop k g _ Hres) as [_ [_ Hlog]] end.
    rewrite Hlog. f_equal. cbn [fst app].
    destruct (nomatch_ids wells (conspy_table inp)) as [| x t]; reflexivity.
Qed.

(* ================================================================== *)
(** * The rows of the merged well file                                 *)
(* ================================================================== *)

Lemma fd_put_rows (Q : NearWell -> Prop) fd et_id rows :
  Forall (fun f => Forall Q (snd f)) fd -> Forall Q rows ->
  Forall (fun f => Forall Q (snd f)) (fd_put fd et_id rows).
Proof.
  intros Hfd Hrows. induction fd as [| [k v] t IH]; cbn [fd_put].
  - constructor; [exact Hrows | constructor].
  - inversion Hfd as [| ? ? Hv Ht]; subst.
    destruct (String.eqb k et_id); constructor; auto.
Qed.

Lemma by_xs_fold_rows (Q : NearWell -> Prop) b wells lines : forall fd,
  Forall (fun f => Forall Q (snd f)) fd ->
  (forall line w0, In line lines -> In w0 (Select wells (xs_etid line)) ->
                   Q (near_well b (xs_part0 line) w0)) ->
  Forall (fun f => Forall Q (snd f)) (fold_left (by_xs_step b wells) lines fd).
Proof.
  induction lines as [| line t IH]; intros fd Hfd HQ; cbn [fold_left]; [exact Hfd |].
  apply IH.
  - unfold by_xs_step. apply fd_put_rows; [exact Hfd |].
    apply Forall_forall. intros w Hw. apply in_map_iff in Hw. destruct Hw as [w0 [E Hin]].
    subst w. apply HQ; [now left | exact Hin].
  - intros line' w0 Hl Hw. apply HQ; [now right | exact Hw].
Qed.

(** Every row of [wwpt_merge] is a well of the input, projected on the
    extension of a line of the input that carries the et_id of the well. *)
Lemma merged_rows_spec p inp w :
  In w (merged p inp) ->
  exists line,
    In line (xsln_file_orig inp) /\
    xs_etid line = wp_etid (nw_well w) /\
    In (nw_well w) (wwpt_file_orig inp) /\
    w = near_well (buffer_dist p) (extended (buffer_dist p) (xs_part0 line)) (nw_well w).
Proof.
  intros Hin. unfold merged in Hin. apply in_concat in Hin. destruct Hin as [rows [Hrows Hw]].
  apply in_map_iff in Hrows. destruct Hrows as [[k rows'] [E Hf]]. cbn in E. subst rows'.
  set (Q := fun w : NearWell =>
              exists line, In line (xsln_file_orig inp) /\
                xs_etid line = wp_etid (nw_well w) /\
                In (nw_well w) (wwpt_file_orig inp) /\
                w = near_well (buffer_dist p) (extended (buffer_dist p) (xs_part0 line)) (nw_well w)).
  assert (H : Forall (fun f => Forall Q (snd f))
                (by_xs (buffer_dist p) (wwpt_file_orig inp)
                       (map (extended_line (buffer_dist p)) (xsln_file_orig inp)))).
  { apply by_xs_fold_rows; [constructor |].
    intros line w0 Hl Hw0. apply in_map_iff in Hl. destruct Hl as [line0 [El Hl0]]. subst line.
    unfold Select in Hw0. apply filter_In in Hw0. destruct Hw0 as [Hw0 He].
    apply String.eqb_eq in He. cbn in He.
    exists line0. cbn. repeat split; auto. }
  rewrite Forall_forall in H. specialize (H _ Hf). cbn in H.
  rewrite Forall_forall in H. exact (H _ Hw).
Qed.

Lemma fd_put_get fd et_id rows :
  In (et_id, rows) (fd_put fd et_id rows).
Proof.
  induction fd as [| [k v] t IH]; cbn [fd_put]; [now left |].
  destruct (String.eqb k et_id) eqn:E.
  - apply String.eqb_eq in E. subst k. now left.
  - right. exact IH.
Qed.

Lemma fd_put_other fd et_id rows k v :
  k <> et_id -> In (k, v) fd -> In (k, v) (fd_put fd et_id rows).
Proof.
  intros Hk Hin. induction fd as [| [k' v'] t IH]; cbn [fd_put]; [contradiction |].
  destruct Hin as [E | Hin].
  - inversion E; subst. destruct (String.eqb k et_id) eqn:E'.
    + apply String.eqb_eq in E'. contradiction.
    + now left.
  - destruct (String.eqb k' et_id); right; auto.
Qed.

(** Every well whose et_id is carried by a line of the input has a row in
    [wwpt_merge]: that of the last such line. *)
Lemma by_xs_fold_complete b wells lines : forall fd et_id,
  (exists line, In line lines /\ xs_etid line = et_id) ->
  exists line,
    In line lines /\ xs_etid line = et_id /\
    In (et_id, map (near_well b (xs_part0 line)) (Select wells et_id))
       (fold_left (by_xs_step b wells) lines fd).
Proof.
  induction lines as [| line t IH]; intros fd et_id [l [Hl El]]; [contradiction |].
  cbn [fold_left].
  destruct (in_dec string_dec et_id (map xs_etid t)) as [Hin | Hnot].
  - apply in_map_iff in Hin. destruct Hin as [l' [El' Hl']].
    destruct (IH (by_xs_step b wells fd line) et_id) as [l2 [H1 [H2 H3]]]; [eauto |].
    exists l2. repeat split; auto. now right.
  - destruct Hl as [E | Hl]; [subst l | exfalso; apply Hnot, in_map_iff; eauto].
    exists line. repeat split; [now left | exact El |].
    subst et_id.
    assert (K : forall fd, In (xs_etid line,
                   map (near_well b (xs_part0 line)) (Select wells (xs_etid line))) fd ->
                In (xs_etid line,
                   map (near_well b (xs_part0 line)) (Select wells (xs_etid line)))
                   (fold_left (by_xs_step b wells) t fd)).
    { clear IH. induction t as [| l' t' IHt]; intros fd' Hfd'; [exact Hfd' |].
      cbn [fold_left]. apply IHt.
      - intros C. apply Hnot. now right.
      - unfold by_xs_step at 1. apply fd_put_other; [| exact Hfd'].
        intros C. apply Hnot. left. now symmetry. }
    apply K. unfold by_xs_step. apply fd_put_get.
Qed.

Lemma merged_complete p inp w0 :
  In w0 (wwpt_file_orig inp) ->
  (exists line, In line (xsln_file_orig inp) /\ xs_etid line = wp_etid w0) ->
  exists line,
    In line (xsln_file_orig inp) /\ xs_etid line = wp_etid w0 /\
    In (near_well (buffer_dist p) (extended (buffer_dist p) (xs_part0 line)) w0) (merged p inp).
Proof.
  intros Hw [l [Hl El]].
  destruct (by_xs_fold_complete (buffer_dist p) (wwpt_file_orig inp)
              (map (extended_line (buffer_dist p)) (xsln_file_orig inp)) [] (wp_etid w0))
    as [line [H1 [H2 H3]]].
  { exists (extended_line (buffer_dist p) l). split; [now apply in_map | exact El]. }
  apply in_map_iff in H1. destruct H1 as [line0 [E0 Hl0]]. subst line.
  exists line0. repeat split; [exact Hl0 | exact H2 |].
  unfold merged. apply in_concat. eexists. split.
  - apply in_map_iff. eexists. split; [| exact H3]. reflexivity.
  - cbn [snd]. apply in_map. unfold Select. apply filter_In. split; [exact Hw |].
    apply String.eqb_refl.
Qed.

Lemma py_int_IZR z : py_int (IZR z) = z.
Proof.
  unfold py_int. destruct (Rle_dec 0 (IZR z)).
  - apply ZfloorZ.
  - unfold Zceil. rewrite <- opp_IZR, ZfloorZ. lia.
Qed.

Lemma py_int_between z x : (0 <= z)%Z -> IZR z <= x < IZR z + 1 -> py_int x = z.
Proof.
  intros Hz Hx. unfold py_int.
  assert (0 <= IZR z) by now apply IZR_le.
  destruct (Rle_dec 0 x); [| lra].
  now apply Zfloor_eq.
Qed.

(** [int] truncates toward zero: the result lies between zero and the
    argument, less than one away from it. *)
Lemma py_int_truncates x :
  Rabs (IZR (py_int x)) <= Rabs x /\ Rabs (x - IZR (py_int x)) < 1 /\
  0 <= IZR (py_int x) * x.
Proof.
  unfold py_int. destruct (Rle_dec 0 x) as [H | H].
  - pose proof (Zfloor_bound x) as B.
    assert (F : 0 <= IZR (Zfloor x)).
    { apply IZR_le. apply (Zfloor_lub 0 x). exact H. }
    rewrite !Rabs_pos_eq by lra. split; [lra |]. split; [lra |].
    now apply Rmult_le_pos.
  - pose proof (Zfloor_bound (- x)) as B. unfold Zceil. rewrite opp_IZR.
    assert (F : 0 <= IZR (Zfloor (- x))).
    { apply IZR_le. apply (Zfloor_lub 0 (- x)). cbn. lra. }
    rewrite (Rabs_left1 (- IZR (Zfloor (- x)))) by lra.
    rewrite (Rabs_left1 x) by lra.
    rewrite Rabs_left1 by lra. split; [lra |]. split; [lra |].
    replace (- IZR (Zfloor (- x)) * x) with (IZR (Zfloor (- x)) * (- x)) by ring.
    apply Rmult_le_pos; lra.
Qed.

(** ** Lines parallel to the x axis *)

Lemma dist_horizontal x1 x2 c : dist (mkPoint x1 c) (mkPoint x2 c) = Rabs (x2 - x1).
Proof.
  unfold dist, dist2, sq. cbn.
  replace ((x2 - x1) * (x2 - x1) + (c - c) * (c - c)) with (Rsqr (x2 - x1)) by (unfold Rsqr; ring).
  apply sqrt_Rsqr_abs.
Qed.

Lemma dist_vertical x y c : dist (mkPoint x y) (mkPoint x c) = Rabs (c - y).
Proof.
  unfold dist, dist2, sq. cbn.
  replace ((x - x) * (x - x) + (c - y) * (c - y)) with (Rsqr (c - y)) by (unfold Rsqr; ring).
  apply sqrt_Rsqr_abs.
Qed.

Lemma extended_horizontal b x0 x1 c :
  x0 < x1 ->
  extended b [mkPoint x0 c; mkPoint x1 c] = [mkPoint (x0 - IZR b) c; mkPoint (x1 + IZR b) c].
Proof.
  intros H. unfold extended.
  change [mkPoint x0 c; mkPoint x1 c] with (mkPoint x0 c :: [] ++ [mkPoint x1 c]).
  rewrite extend_line_spec. cbn [hd last app].
  assert (N1 : mkPoint x1 c <> mkPoint x0 c) by (intros C; inversion C; lra).
  assert (N2 : mkPoint x0 c <> mkPoint x1 c) by (intros C; inversion C; lra).
  rewrite !pointFromAngleAndDistance_beyond by assumption.
  unfold beyond. rewrite !dist_horizontal. cbn [X Y].
  rewrite (Rabs_left (x0 - x1)) by lra. rewrite (Rabs_right (x1 - x0)) by lra.
  f_equal; [| f_equal]; apply point_eq; cbn; field; lra.
Qed.

Lemma clamp01_id t : 0 <= t <= 1 -> clamp01 t = t.
Proof.
  intros H. unfold clamp01. rewrite Rmin_right by lra. rewrite Rmax_right by lra. reflexivity.
Qed.

Lemma nearest_horizontal a d c x y :
  a < d -> a <= x <= d ->
  nearest [mkPoint a c; mkPoint d c] (mkPoint x y) = mkPoint x c.
Proof.
  intros Had Hx. cbn [nearest closest_from]. unfold closest_on_segment, dist2, sq. cbn [X Y].
  destruct (Req_dec_T ((d - a) * (d - a) + (c - c) * (c - c)) 0) as [E | _]; [nra |].
  replace ((x - a) * (d - a) + (y - c) * (c - c)) with ((x - a) * (d - a)) by ring.
  replace ((d - a) * (d - a) + (c - c) * (c - c)) with ((d - a) * (d - a)) by ring.
  replace ((x - a) * (d - a) / ((d - a) * (d - a))) with ((x - a) / (d - a)) by (field; lra).
  rewrite clamp01_id.
  - apply point_eq; cbn; field; lra.
  - split.
    + apply Rmult_le_pos; [lra |]. left. apply Rinv_0_lt_compat. lra.
    + apply Rmult_le_reg_r with (d - a); [lra |]. field_simplify; lra.
Qed.

Lemma measure_horizontal a d c x :
  a <= x <= d -> measureOnLine [mkPoint a c; mkPoint d c] (mkPoint x c) = x - a.
Proof.
  intros Hx. cbn [measureOnLine measure_from].
  destruct (on_segment_dec (mkPoint a c) (mkPoint d c) (mkPoint x c)) as [_ | C].
  - rewrite dist_horizontal. apply Rabs_right. lra.
  - exfalso. apply C. unfold on_segment. cbn. split; [ring | nra].
Qed.

(** The near analysis of a well against the extension of a line from
    [(x0, c)] to [(x1, c)]: the well projects at its own abscissa, and the
    position along the line is measured from [x0].  It is negative before
    [x0] and exceeds the length of the line after [x1]. *)
Lemma near_well_horizontal b x0 x1 c w :
  x0 < x1 -> (0 <= b)%Z ->
  x0 - IZR b <= X (wp_shape w) <= x1 + IZR b ->
  near_well b (extended b [mkPoint x0 c; mkPoint x1 c]) w =
  mkNearWell w (Rabs (c - Y (wp_shape w))) (X (wp_shape w)) c (X (wp_shape w) - x0).
Proof.
  intros H Hb Hx. apply IZR_le in Hb.
  rewrite extended_horizontal by exact H. unfold near_well.
  destruct (wp_shape w) as [x y] eqn:Es. cbn [X Y] in *.
  rewrite nearest_horizontal by lra. cbn [X Y].
  rewrite dist_vertical, measure_horizontal by lra.
  f_equal. lra.
Qed.

Lemma Forall2_filter_flat_map {A B : Type} (R : A -> B -> Prop) (f : A -> bool)
  (g : A -> option B) (l : list A) :
  (forall x, In x l -> f x = true -> exists r, g x = Some r /\ R x r) ->
  (forall x, In x l -> f x = false -> g x = None) ->
  Forall2 R (filter f l) (flat_map (fun x => option_list (g x)) l).
Proof.
  induction l as [| x t IH]; intros Ht Hf; [constructor |].
  cbn [filter flat_map]. destruct (f x) eqn:E.
  - destruct (Ht x (or_introl eq_refl) E) as [r [Er HR]]. rewrite Er. cbn [option_list app].
    constructor; [exact HR |]. apply IH; intros y Hy; [apply Ht | apply Hf]; now right.
  - rewrite (Hf x (or_introl eq_refl) E). cbn [option_list app].
    apply IH; intros y Hy; [apply Ht | apply Hf]; now right.
Qed.

Lemma merged_inputs1 :
  merged params1 inputs1 = [mkNearWell well1 2 1.5 0 1.5].
Proof.
  assert (E : merged params1 inputs1 =
              [near_well 2 (extended 2 [mkPoint 0 0; mkPoint 10 0]) well1]) by reflexivity.
  rewrite E. rewrite near_well_horizontal; cbn [well1 wp_shape X Y]; try lra; try lia.
  f_equal. f_equal; [rewrite Rabs_left by lra; lra | lra].
Qed.

Lemma py_int_1_5 : py_int 1.5 = 1%Z.
Proof. apply py_int_between; [lia | lra]. Qed.

Lemma inputs1_ok : conspys_inputs_ok params1 inputs1.
Proof.
  unfold conspys_inputs_ok, swl_inputs_ok. cbn.
  repeat split; try lia; try discriminate.
  repeat constructor.
Qed.

(** The fields of a row of [wwpt_merge], for the line it was projected
    on. *)
Lemma near_well_fields b E w0 :
  let w := near_well b E w0 in
  mkPoint (nw_NEAR_X w) (nw_NEAR_Y w) = nearest E (wp_shape w0) /\
  nw_NEAR_DIST w = dist (wp_shape w0) (nearest E (wp_shape w0)) /\
  nw_OnLine_DIST w = measureOnLine E (mkPoint (nw_NEAR_X w) (nw_NEAR_Y w)) - IZR b.
Proof.
  cbn. split; [apply point_eta | split; reflexivity].
Qed.

(* ================================================================== *)
(** * The nearest point of a polyline                                  *)
(* ================================================================== *)

Lemma clamp01_bounds t : 0 <= clamp01 t <= 1.
Proof.
  unfold clamp01. split.
  - apply Rmax_l.
  - apply Rmax_lub; [lra | apply Rmin_l].
Qed.

Lemma clamp01_cases t :
  (0 <= t <= 1 /\ clamp01 t = t) \/ (t < 0 /\ clamp01 t = 0) \/ (1 < t /\ clamp01 t = 1).
Proof.
  unfold clamp01.
  destruct (Rle_dec t 1) as [H1 | H1].
  - rewrite Rmin_right by exact H1.
    destruct (Rle_dec 0 t) as [H0 | H0].
    + left. split; [lra |]. now apply Rmax_right.
    + right. left. split; [lra |]. apply Rmax_left. lra.
  - right. right. split; [lra |]. rewrite Rmin_left by lra. apply Rmax_right. lra.
Qed.

(** A point of a segment with distinct ends, by its parameter. *)
Lemma on_segment_param a b n :
  dist2 a b <> 0 -> on_segment a b n ->
  exists t, 0 <= t <= 1 /\
            X n = X a + t * (X b - X a) /\ Y n = Y a + t * (Y b - Y a).
Proof.
  intros HD [Hc Hb].
  set (dx := X b - X a) in *. set (dy := Y b - Y a) in *.
  set (wx := X n - X a) in *. set (wy := Y n - Y a) in *.
  assert (ED : dist2 a b = dx * dx + dy * dy) by reflexivity.
  pose proof (dist2_nonneg a b) as D0.
  set (D := dist2 a b) in *.
  exists ((wx * dx + wy * dy) / D).
  assert (Ex : wx = (wx * dx + wy * dy) / D * dx).
  { apply Rmult_eq_reg_r with D; [| exact HD]. field_simplify; [| exact HD].
    rewrite ED. replace (wx * (dx * dx + dy * dy))
      with ((wx * dx + wy * dy) * dx - dy * (dx * wy - dy * wx)) by ring.
    rewrite Hc. ring. }
  assert (Ey : wy = (wx * dx + wy * dy) / D * dy).
  { apply Rmult_eq_reg_r with D; [| exact HD]. field_simplify; [| exact HD].
    rewrite ED. replace (wy * (dx * dx + dy * dy))
      with ((wx * dx + wy * dy) * dy + dx * (dx * wy - dy * wx)) by ring.
    rewrite Hc. ring. }
  set (t := (wx * dx + wy * dy) / D) in *.
  assert (Hb' : t * (t - 1) * D <= 0).
  { replace (X n - X b) with (wx - dx) in Hb by (unfold wx, dx; ring).
    replace (Y n - Y b) with (wy - dy) in Hb by (unfold wy, dy; ring).
    rewrite Ex, Ey in Hb. rewrite ED.
    replace (t * (t - 1) * (dx * dx + dy * dy))
      with (t * dx * (t * dx - dx) + t * dy * (t * dy - dy)) by ring.
    exact Hb. }
  assert (DP : 0 < D) by lra.
  assert (Ht : t * (t - 1) <= 0).
  { apply Rmult_le_reg_r with D; [exact DP |]. lra. }
  split; [split; nra |].
  unfold wx in Ex. unfold wy in Ey. split; lra.
Qed.

Lemma on_segment_degenerate a b n : dist2 a b = 0 -> on_segment a b n -> n = a.
Proof.
  intros HD [_ Hb]. unfold dist2, sq in HD.
  pose proof (Rle_0_sqr (X b - X a)) as Sx. pose proof (Rle_0_sqr (Y b - Y a)) as Sy.
  unfold Rsqr in Sx, Sy.
  assert (Ex : (X b - X a) * (X b - X a) = 0) by lra.
  assert (Ey : (Y b - Y a) * (Y b - Y a) = 0) by lra.
  apply Rmult_integral in Ex. apply Rmult_integral in Ey.
  assert (Xb : X b = X a) by lra. assert (Yb : Y b = Y a) by lra.
  rewrite Xb, Yb in Hb.
  pose proof (Rle_0_sqr (X n - X a)) as Tx. pose proof (Rle_0_sqr (Y n - Y a)) as Ty.
  unfold Rsqr in Tx, Ty.
  assert (Fx : (X n - X a) * (X n - X a) = 0) by lra.
  assert (Fy : (Y n - Y a) * (Y n - Y a) = 0) by lra.
  apply Rmult_integral in Fx. apply Rmult_integral in Fy.
  apply point_eq; lra.
Qed.

(** The closest point of a segment is on the segment. *)
Lemma closest_on_segment_on a b q : on_segment a b (closest_on_segment a b q).
Proof.
  unfold closest_on_segment.
  destruct (Req_dec_T (dist2 a b) 0) as [E | E].
  - unfold on_segment. split; [ring |].
    unfold dist2, sq in E.
    replace ((X a - X a) * (X a - X b) + (Y a - Y a) * (Y a - Y b)) with 0 by ring. lra.
  - set (t := clamp01 _). pose proof (clamp01_bounds
      (((X q - X a) * (X b - X a) + (Y q - Y a) * (Y b - Y a)) / dist2 a b)) as Ht.
    fold t in Ht. unfold on_segment. cbn [X Y]. split; [ring |].
    pose proof (dist2_nonneg a b) as D0. unfold dist2, sq in D0.
    replace ((X a + t * (X b - X a) - X a) * (X a + t * (X b - X a) - X b) +
             (Y a + t * (Y b - Y a) - Y a) * (Y a + t * (Y b - Y a) - Y b))
      with (t * (t - 1) * ((X b - X a) * (X b - X a) + (Y b - Y a) * (Y b - Y a))) by ring.
    set (D' := (X b - X a) * (X b - X a) + (Y b - Y a) * (Y b - Y a)) in *.
    assert (A : t * (t - 1) <= 0) by nra.
    assert (B : 0 <= - (t * (t - 1)) * D') by (apply Rmult_le_pos; lra).
    lra.
Qed.

(** It is at least as close to [q] as any point of the segment. *)
Lemma closest_on_segment_min a b q n :
  on_segment a b n -> dist q (closest_on_segment a b q) <= dist q n.
Proof.
  intros Hon. unfold closest_on_segment.
  destruct (Req_dec_T (dist2 a b) 0) as [E | E].
  - rewrite (on_segment_degenerate a b n E Hon). lra.
  - destruct (on_segment_param a b n E Hon) as [t' [Ht' [Xn Yn]]].
    set (dx := X b - X a) in *. set (dy := Y b - Y a) in *.
    assert (ED : dist2 a b = dx * dx + dy * dy) by reflexivity.
    pose proof (dist2_nonneg a b) as D0.
    set (D := dist2 a b) in *.
    set (m := (X q - X a) * dx + (Y q - Y a) * dy).
    set (t0 := clamp01 (m / D)).
    assert (DP : 0 < D) by lra.
    assert (Em : m = m / D * D) by (field; lra).
    unfold dist. apply sqrt_le_1; try apply dist2_nonneg.
    unfold dist2, sq. cbn [X Y]. rewrite Xn, Yn.
    assert (G : (t' - t0) * (t' + t0 - 2 * (m / D)) * D >= 0).
    { destruct (clamp01_cases (m / D)) as [[Hc Ec] | [[Hc Ec] | [Hc Ec]]];
        fold t0 in Ec; rewrite Ec.
      - replace ((t' - m / D) * (t' + m / D - 2 * (m / D)))
          with ((t' - m / D) * (t' - m / D)) by ring.
        apply Rle_ge, Rmult_le_pos; [apply Rle_0_sqr | lra].
      - apply Rle_ge, Rmult_le_pos; [apply Rmult_le_pos; lra | lra].
      - replace ((t' - 1) * (t' + 1 - 2 * (m / D)))
          with ((1 - t') * (2 * (m / D) - t' - 1)) by ring.
        apply Rle_ge, Rmult_le_pos; [apply Rmult_le_pos; lra | lra]. }
    replace ((X a + t0 * dx - X q) * (X a + t0 * dx - X q) +
             (Y a + t0 * dy - Y q) * (Y a + t0 * dy - Y q))
      with ((X a - X q) * (X a - X q) + (Y a - Y q) * (Y a - Y q)
            - 2 * t0 * m + t0 * t0 * (dx * dx + dy * dy)) by (unfold m; ring).
    replace ((X a + t' * dx - X q) * (X a + t' * dx - X q) +
             (Y a + t' * dy - Y q) * (Y a + t' * dy - Y q))
      with ((X a - X q) * (X a - X q) + (Y a - Y q) * (Y a - Y q)
            - 2 * t' * m + t' * t' * (dx * dx + dy * dy)) by (unfold m; ring).
    rewrite <- ED.
    replace ((t' - t0) * (t' + t0 - 2 * (m / D)) * D)
      with (t' * t' * D - t0 * t0 * D - 2 * (t' - t0) * (m / D * D)) in G by ring.
    rewrite <- Em in G. lra.
Qed.

Lemma closest_from_on rest : forall a q,
  rest <> [] -> on_polyline_from a rest (closest_from a rest q).
Proof.
  induction rest as [| b rest' IH]; intros a q H; [congruence |].
  cbn [closest_from on_polyline_from].
  destruct rest' as [| c rest''].
  - left. apply closest_on_segment_on.
  - destruct (Rle_dec _ _).
    + left. apply closest_on_segment_on.
    + right. apply IH. discriminate.
Qed.

Lemma closest_from_min rest : forall a q n,
  on_polyline_from a rest n -> dist q (closest_from a rest q) <= dist q n.
Proof.
  induction rest as [| b rest' IH]; intros a q n Hon; [contradiction |].
  cbn [closest_from]. cbn [on_polyline_from] in Hon.
  destruct rest' as [| c rest''].
  - destruct Hon as [Hon | []]. now apply closest_on_segment_min.
  - destruct (Rle_dec (dist q (closest_on_segment a b q))
                      (dist q (closest_from b (c :: rest'') q))) as [Hle | Hgt].
    + destruct Hon as [Hon | Hon].
      * now apply closest_on_segment_min.
      * eapply Rle_trans; [exact Hle | now apply IH].
    + destruct Hon as [Hon | Hon].
      * eapply Rle_trans; [| apply closest_on_segment_min; exact Hon]. lra.
      * now apply IH.
Qed.

(** The kernel contract of the near analysis: the near point is a point
    of the line, and no point of the line is closer to the well. *)
Lemma nearest_on_polyline E q :
  (2 <= List.length E)%nat -> on_polyline E (nearest E q).
Proof.
  intros H. destruct E as [| a rest]; [cbn in H; lia |].
  cbn [nearest on_polyline]. apply closest_from_on.
  intros C. subst rest. cbn in H. lia.
Qed.

Lemma nearest_min E q n : on_polyline E n -> dist q (nearest E q) <= dist q n.
Proof.
  destruct E as [| a rest]; [contradiction |].
  cbn [nearest on_polyline]. apply closest_from_min.
Qed.

(* ================================================================== *)
(** * The parts of the extended line                                   *)
(* ================================================================== *)

Lemma tail_parts mid : forall a pl ne n,
  on_polyline_from a (mid ++ [ne]) n ->
  on_polyline_from a (mid ++ [pl]) n \/ on_segment (last mid a) ne n.
Proof.
  induction mid as [| h t IH]; intros a pl ne n Hon.
  - cbn in *. destruct Hon as [Hon | []]. now right.
  - cbn [app on_polyline_from] in *. destruct Hon as [Hon | Hon]; [now left; left |].
    destruct (IH h pl ne n Hon) as [H | H]; [now left; right |].
    right. now rewrite last_cons.
Qed.

Lemma last_segment_on mid : forall a pl n,
  on_segment (last mid a) pl n -> on_polyline_from a (mid ++ [pl]) n.
Proof.
  induction mid as [| h t IH]; intros a pl n Hon.
  - cbn in *. now left.
  - cbn [app on_polyline_from]. right. apply IH. now rewrite last_cons in Hon.
Qed.

(** A point of the extended last segment is on the last segment or
    beyond the last vertex. *)
Lemma back_parts b l2 pl n :
  0 <= b -> l2 <> pl ->
  on_segment l2 (beyond l2 pl b) n ->
  on_segment l2 pl n \/ exists e, 0 < e <= b /\ n = beyond l2 pl e.
Proof.
  intros Hb Hd Hon.
  pose proof (dir_unit l2 pl Hd) as V. pose proof (dist_pos l2 pl Hd) as L.
  set (vx := dir_x l2 pl) in *. set (vy := dir_y l2 pl) in *.
  assert (El : l2 = along pl vx vy (- dist l2 pl)) by now apply back_along.
  assert (Hon' : on_segment (along pl vx vy (- dist l2 pl)) (along pl vx vy b) n).
  { rewrite <- El. exact Hon. }
  destruct (on_segment_along_inv pl vx vy V (- dist l2 pl) b n) as [r [Er Hr]];
    [lra | exact Hon' |].
  assert (Hb' : - dist l2 pl <= r <= b).
  { apply between_bounds; [lra | nra]. }
  destruct (Rle_dec r 0) as [C | C].
  - left. assert (G : on_segment (along pl vx vy (- dist l2 pl)) (along pl vx vy 0) n).
    { rewrite Er. apply on_segment_along; [exact V | nra]. }
    rewrite <- El, <- origin_along in G. exact G.
  - right. exists r. split; [lra | exact Er].
Qed.

(** A point of the extended first segment is before the first vertex or
    on the part of the segment that follows it. *)
Lemma front_parts b h1 p0 t n :
  0 <= b -> h1 <> p0 -> t <= 0 ->
  on_segment (beyond h1 p0 b) (along p0 (dir_x h1 p0) (dir_y h1 p0) t) n ->
  (exists e, 0 < e <= b /\ n = beyond h1 p0 e) \/
  (exists r, t <= r <= 0 /\ n = along p0 (dir_x h1 p0) (dir_y h1 p0) r).
Proof.
  intros Hb Hd Ht Hon.
  pose proof (dir_unit h1 p0 Hd) as U.
  set (ux := dir_x h1 p0) in *. set (uy := dir_y h1 p0) in *.
  change (beyond h1 p0 b) with (along p0 ux uy b) in Hon.
  destruct (Req_dec_T b t) as [E | E].
  - (* the segment is the point p0 *)
    assert (b = 0) by lra. assert (t = 0) by lra. subst b t.
    right. exists 0. split; [lra |].
    assert (D : dist2 (along p0 ux uy 0) (along p0 ux uy 0) = 0).
    { rewrite dist2_along by exact U. ring. }
    exact (on_segment_degenerate _ _ n D Hon).
  - destruct (on_segment_along_inv p0 ux uy U b t n) as [r [Er Hr]]; [exact E | exact Hon |].
    assert (Hb' : t <= r <= b).
    { apply between_bounds; [lra | nra]. }
    destruct (Rle_dec r 0) as [C | C].
    + right. exists r. split; [lra | exact Er].
    + left. exists r. split; [lra | exact Er].
Qed.

(** Every point of the extended line is before the first vertex of the
    line, on the line, or beyond its last vertex. *)
Lemma extended_parts b p0 pl body n :
  0 <= b -> hd pl body <> p0 -> last body p0 <> pl ->
  on_polyline (beyond (hd pl body) p0 b :: body ++ [beyond (last body p0) pl b]) n ->
  (exists e, 0 < e <= b /\ n = beyond (hd pl body) p0 e) \/
  on_polyline (p0 :: body ++ [pl]) n \/
  (exists e, 0 < e <= b /\ n = beyond (last body p0) pl e).
Proof.
  intros Hb Hd1 Hd2 Hon. cbn [on_polyline] in *.
  pose proof (dir_unit _ _ Hd1) as U. pose proof (dist_pos _ _ Hd1) as L.
  destruct body as [| h t].
  - (* two vertices *)
    cbn [hd last app on_polyline_from] in *. destruct Hon as [Hon | []].
    assert (Hd1' : p0 <> pl) by congruence.
    rewrite (beyond_far_along p0 pl b Hd1') in Hon.
    destruct (front_parts b pl p0 (- dist pl p0 - b) n Hb Hd1) as [F | [r [Hr Er]]];
      [lra | exact Hon | now left |].
    right. destruct (Rle_dec (- dist pl p0) r) as [C | C].
    + left. left.
      assert (G : on_segment (along p0 (dir_x pl p0) (dir_y pl p0) 0)
                             (along p0 (dir_x pl p0) (dir_y pl p0) (- dist pl p0)) n).
      { rewrite Er. apply on_segment_along; [exact U | nra]. }
      rewrite <- (back_along pl p0 Hd1), <- origin_along in G. exact G.
    + right. exists (- dist pl p0 - r). split; [lra |].
      rewrite (beyond_far_along p0 pl _ Hd1'). rewrite Er. f_equal. ring.
  - (* three vertices or more *)
    cbn [hd app on_polyline_from] in *. rewrite last_cons in *.
    destruct Hon as [Hon | Hon].
    + rewrite (back_along h p0 Hd1) in Hon at 2.
      destruct (front_parts b h p0 (- dist h p0) n Hb Hd1) as [F | [r [Hr Er]]];
        [lra | exact Hon | now left |].
      right. left. left.
      assert (G : on_segment (along p0 (dir_x h p0) (dir_y h p0) 0)
                             (along p0 (dir_x h p0) (dir_y h p0) (- dist h p0)) n).
      { rewrite Er. apply on_segment_along; [exact U | nra]. }
      rewrite <- (back_along h p0 Hd1), <- origin_along in G. exact G.
    + right. destruct (tail_parts t h pl _ n Hon) as [H | H]; [now left; right |].
      destruct (back_parts b (last t h) pl n Hb Hd2 H) as [B | B]; [| now right].
      left. right. now apply last_segment_on.
Qed.

(* ================================================================== *)
(** * The outcomes of a run                                            *)
(* ================================================================== *)

Lemma two_vertices_dec line : {two_vertices line} + {~ two_vertices line}.
Proof. unfold two_vertices. apply le_dec. Qed.

(** The extension loop stops with an IndexError at the first line of
    less than two vertices. *)
Lemma xsln_loop_fails p lines : forall g rows,
  Exists (fun line => ~ two_vertices line) lines ->
  xsln_temp g = Some rows ->
  exists g',
    fails (for_each lines tt (fun _ line =>
             let et_id := xs_etid line in
             new_xsln_geometry <- lift (extend_line (buffer_dist p) (xs_part0 line)) ;;
             insert_xsln_temp (mkXsLine new_xsln_geometry et_id false)))
          g IndexError g'.
Proof.
  induction lines as [| line t IH]; intros g rows Hex Hrows.
  - inversion Hex.
  - cbn [for_each]. destruct (two_vertices_dec line) as [H2 | H2].
    + assert (Ht : Exists (fun line => ~ two_vertices line) t).
      { inversion Hex; subst; [contradiction | assumption]. }
      destruct (extended_two_vertices (buffer_dist p) (xs_part0 line) H2) as [He _].
      destruct (IH (set_xsln_temp g (Some (rows ++ [mkXsLine (extended (buffer_dist p) (xs_part0 line))
                                                             (xs_etid line) false])))
                   _ Ht eq_refl) as [g' Hf].
      exists g'. eapply fails_bind_r; [| exact Hf].
      cbn zeta. rewrite He. eapply runs_bind; [apply runs_lift |].
      unfold insert_xsln_temp. eapply runs_bind; [apply runs_rows_of; eassumption |].
      apply runs_modify.
    + exists g. apply fails_bind_l. cbn zeta.
      rewrite extend_line_short by (unfold two_vertices in H2; lia).
      apply fails_bind_l. split; reflexivity.
Qed.

Lemma create_xsln_temp_fails p inp g :
  Exists (fun line => ~ two_vertices line) (xsln_file_orig inp) ->
  exists g', fails (create_xsln_temp p inp) g IndexError g'.
Proof.
  intros H. unfold create_xsln_temp.
  destruct (xsln_loop_fails p (xsln_file_orig inp) (set_xsln_temp g (Some [])) [] H eq_refl)
    as [g' Hf].
  exists g'. eapply fails_bind_r; [apply runs_modify |].
  apply fails_after_quiet; [apply quiet_printit | exact Hf].
Qed.

(** The statements from the feature dataset to the merge, on an input
    with a line of less than two vertices. *)
Lemma near_pipeline_fails {A : Type} (p : Params) (inp : Inputs) (k : M A) (g : Gdb) :
  Exists (fun line => ~ two_vertices line) (xsln_file_orig inp) ->
  exists g',
    fails (create_wwpt_by_xs inp ;;; add_wwpt_fields inp ;;; create_xsln_temp p inp ;;;
           near_analysis p inp ;;; merge_wwpt ;;; k) g IndexError g'.
Proof.
  intros H.
  set (g1 := set_wwpt_temp (set_wwpt_by_xs g (Some [])) (Some (wwpt_file_orig inp))).
  destruct (create_xsln_temp_fails p inp g1 H) as [g' Hf].
  exists g'. eapply fails_bind_r.
  { unfold create_wwpt_by_xs. apply runs_after_quiet; [apply quiet_printit |].
    eapply runs_bind; apply runs_modify. }
  apply fails_after_quiet; [apply quiet_add_wwpt_fields |].
  apply fails_bind_l. exact Hf.
Qed.

Lemma Forall_or_Exists_two_vertices lines :
  Forall two_vertices lines \/ Exists (fun line => ~ two_vertices line) lines.
Proof.
  induction lines as [| line t IH]; [left; constructor |].
  destruct (two_vertices_dec line) as [H | H].
  - destruct IH as [IH | IH]; [left; now constructor | right; now constructor 2].
  - right. now constructor.
Qed.

(** A run of the static-water-level script ends normally, or exits in
    the data QC, or stops with an IndexError on a line of less than two
    vertices. *)
Lemma swl_run_outcomes p inp g :
  (swl_inputs_ok p inp /\ exists g', runs (SWL.run p inp) g tt g') \/
  fails (SWL.run p inp) g SystemExit g \/
  (Exists (fun line => ~ two_vertices line) (xsln_file_orig inp) /\
   exists g', fails (SWL.run p inp) g IndexError g').
Proof.
  destruct (swl_validate_cases p inp g) as [[flag [Hr (Hb & Hv & Hw & Hx)]] | [Hf _]].
  2:{ right. left. unfold SWL.run. now apply fails_bind_l. }
  destruct (Forall_or_Exists_two_vertices (xsln_file_orig inp)) as [Hall | Hex].
  - left. assert (Hok : swl_inputs_ok p inp) by (unfold swl_inputs_ok; auto).
    split; [exact Hok |]. eexists. now apply swl_run_runs.
  - right. right. split; [exact Hex |].
    destruct (near_pipeline_fails p inp (SWL.create_points p inp)
                (set_swl_2d_xsecview g (Some [])) Hex) as [g' Hf].
    exists g'. unfold SWL.run. eapply fails_bind_r; [exact Hr |].
    eapply fails_bind_r; [| exact Hf].
    unfold SWL.create_pointfile. apply runs_after_quiet; [apply quiet_printit |].
    apply runs_modify.
Qed.

Lemma conspys_run_outcomes p inp g :
  (conspys_inputs_ok p inp /\ exists nomatch_list g', runs (Conspys.run p inp) g nomatch_list g') \/
  fails (Conspys.run p inp) g SystemExit g \/
  (Exists (fun line => ~ two_vertices line) (xsln_file_orig inp) /\
   exists g', fails (Conspys.run p inp) g IndexError g').
Proof.
  destruct (conspys_validate_cases p inp g) as [[flag [Hr (Hb & Hv & Hc & Hw & Hx)]] | [Hf _]].
  2:{ right. left. unfold Conspys.run. now apply fails_bind_l. }
  destruct (Forall_or_Exists_two_vertices (xsln_file_orig inp)) as [Hall | Hex].
  - left. assert (Hok : conspys_inputs_ok p inp)
      by (unfold conspys_inputs_ok, swl_inputs_ok; auto 7).
    split; [exact Hok |]. eexists. eexists. now apply conspys_run_runs.
  - right. right. split; [exact Hex |].
    destruct (near_pipeline_fails p inp (Conspys.create_polylines p inp)
                (set_conspys_2d_line (set_conspys_3d g (Some [])) (Some [])) Hex) as [g' Hf].
    exists g'. unfold Conspys.run. eapply fails_bind_r; [exact Hr |].
    eapply fails_bind_r; [| exact Hf].
    unfold Conspys.create_polylinefiles. apply runs_after_quiet; [apply quiet_printit |].
    eapply runs_bind; [apply runs_modify |].
    apply runs_after_quiet; [apply quiet_printit |]. apply runs_modify.
Qed.

(** No run divides by zero: the two divisors are the parameters that the
    data QC has found positive. *)
Lemma runs_never_divide_by_zero p inp :
  never_raises ZeroDivisionError (SWL.run p inp) /\
  never_raises ZeroDivisionError (Conspys.run p inp).
Proof.
  split; intros g C.
  - destruct (swl_run_outcomes p inp g) as [[_ [g' [H _]]] | [[H _] | [_ [g' [H _]]]]];
      congruence.
  - destruct (conspys_run_outcomes p inp g) as [[_ [nm [g' [H _]]]] | [[H _] | [_ [g' [H _]]]]];
      congruence.
Qed.

(* ================================================================== *)
(** * Exits of the data QC                                             *)
(* ================================================================== *)

(** C6.  Both scripts exit with SystemExit, the geodatabase untouched (no
    output feature class created), whenever [buffer_dist <= 0] or
    [vertical_exaggeration <= 0].  With both parameters positive the two
    checks pass, and whatever runs after the QC of either script runs
    with [buffer_dist > 0] and [vertical_exaggeration > 0]: the
    parameters are never assigned again, and no division by either of
    them ever raises ZeroDivisionError. *)
Theorem C6_invalid_parameters_exit (p : Params) (inp : Inputs) (g : Gdb) :
  ((buffer_dist p <= 0)%Z \/ (vertical_exaggeration p <= 0)%Z ->
     fails (SWL.run p inp) g SystemExit g /\
     fails (Conspys.run p inp) g SystemExit g) /\
  ((0 < buffer_dist p)%Z /\ (0 < vertical_exaggeration p)%Z ->
     runs (check_buffer_dist p ;;; check_vertical_exaggeration p) g tt g) /\
  (forall flag g',
     runs (SWL.validate p inp) g flag g' \/ runs (Conspys.validate p inp) g flag g' ->
     (0 < buffer_dist p)%Z /\ (0 < vertical_exaggeration p)%Z) /\
  never_raises ZeroDivisionError (SWL.run p inp) /\
  never_raises ZeroDivisionError (Conspys.run p inp).
Proof.
  split; [| split; [| split]].
  - intros H. split.
    + unfold SWL.run. apply fails_bind_l.
      destruct (swl_validate_cases p inp g) as [[flag [_ [Hb [Hv _]]]] | [Hf _]];
        [lia | exact Hf].
    + unfold Conspys.run. apply fails_bind_l.
      destruct (conspys_validate_cases p inp g) as [[flag [_ [Hb [Hv _]]]] | [Hf _]];
        [lia | exact Hf].
  - intros [Hb Hv]. eapply runs_bind.
    + now apply check_buffer_dist_ok.
    + now apply check_vertical_exaggeration_ok.
  - intros flag g' [H | H].
    + destruct (swl_validate_cases p inp g) as [[flag' [_ [Hb [Hv _]]]] | [Hf _]];
        [auto | exfalso; eapply runs_fails_excl; eauto].
    + destruct (conspys_validate_cases p inp g) as [[flag' [_ [Hb [Hv _]]]] | [Hf _]];
        [auto | exfalso; eapply runs_fails_excl; eauto].
  - apply runs_never_divide_by_zero.
Qed.

Lemma C6_invalid_parameters_exit_witness :
  (fails (SWL.run (mkParams 0 50) inputs1) empty_gdb SystemExit empty_gdb /\
   fails (Conspys.run (mkParams 0 50) inputs1) empty_gdb SystemExit empty_gdb) /\
  runs (check_buffer_dist params1 ;;; check_vertical_exaggeration params1)
       empty_gdb tt empty_gdb.
Proof.
  split.
  - apply (C6_invalid_parameters_exit (mkParams 0 50) inputs1 empty_gdb).
    left. simpl. lia.
  - apply (C6_invalid_parameters_exit params1 inputs1 empty_gdb).
    simpl. lia.
Defined.

(** C8.  A run on an empty well point file or an empty cross-section line
    file (or, for the construction script, an empty construction table)
    raises SystemExit in the data QC, the geodatabase untouched: no output
    feature class is created. *)
Theorem C8_empty_input_exit (p : Params) (inp : Inputs) (g : Gdb) :
  (wwpt_file_orig inp = [] \/ xsln_file_orig inp = [] ->
     fails (SWL.validate p inp) g SystemExit g /\
     fails (SWL.run p inp) g SystemExit g) /\
  (conspy_table inp = [] \/ wwpt_file_orig inp = [] \/ xsln_file_orig inp = [] ->
     fails (Conspys.validate p inp) g SystemExit g /\
     fails (Conspys.run p inp) g SystemExit g).
Proof.
  split; intros H.
  - assert (Hf : fails (SWL.validate p inp) g SystemExit g).
    { destruct (swl_validate_cases p inp g) as [[flag [_ [_ [_ [Hw Hx]]]]] | [Hf _]];
        [exfalso; tauto | exact Hf]. }
    split; [exact Hf | unfold SWL.run; now apply fails_bind_l].
  - assert (Hf : fails (Conspys.validate p inp) g SystemExit g).
    { destruct (conspys_validate_cases p inp g) as [[flag [_ [_ [_ [Hc [Hw Hx]]]]]] | [Hf _]];
        [exfalso; tauto | exact Hf]. }
    split; [exact Hf | unfold Conspys.run; now apply fails_bind_l].
Qed.

Lemma C8_empty_input_exit_witness :
  fails (SWL.run params1 (mkInputs [] [] "wwpt" [lineA] "xsln" "NAD83" [] [] "constr"))
        empty_gdb SystemExit empty_gdb /\
  fails (Conspys.run params1 (mkInputs [well1] [] "wwpt" [lineA] "xsln" "NAD83" [] [] "constr"))
        empty_gdb SystemExit empty_gdb.
Proof.
  split.
  - apply (C8_empty_input_exit params1
             (mkInputs [] [] "wwpt" [lineA] "xsln" "NAD83" [] [] "constr") empty_gdb).
    left. reflexivity.
  - apply (C8_empty_input_exit params1
             (mkInputs [well1] [] "wwpt" [lineA] "xsln" "NAD83" [] [] "constr") empty_gdb).
    left. reflexivity.
Defined.

(* ================================================================== *)
(** * The 2D display coordinates                                       *)
(* ================================================================== *)

Lemma swl_rows_written p wells :
  Forall2 (fun w r =>
             sp_shape r = mkPoint (sp_x_coord_2d r) (sp_y_coord_2d r) /\
             sp_x_coord_2d r =
               IZR (py_int (nw_OnLine_DIST w)) / 0.3048 / IZR (vertical_exaggeration p) /\
             wp_meas_elev (nw_well w) = Some (sp_y_coord_2d r) /\
             sp_distance r = nw_NEAR_DIST w /\
             sp_pct_dist r = sp_distance r / IZR (buffer_dist p) * 200)
          (filter swl_written wells) (swl_rows p wells).
Proof.
  unfold swl_rows. apply Forall2_filter_flat_map.
  - intros w _ Hw. unfold swl_written in Hw. unfold swl_row.
    destruct (wp_elevation (nw_well w)); [| discriminate].
    destruct (wp_meas_elev (nw_well w)); [| discriminate].
    eexists. split; [reflexivity |]. cbn. auto.
  - intros w _ Hw. unfold swl_written in Hw. unfold swl_row.
    destruct (wp_elevation (nw_well w)); [| reflexivity].
    destruct (wp_meas_elev (nw_well w)); [discriminate | reflexivity].
Qed.

Lemma conspy_rows_written p wells records :
  Forall2 (fun rec r =>
             exists w top bot,
               last_match wells (cr_wellid rec) = Some w /\
               cr_elev_top rec = Some top /\ cr_elev_bot rec = Some bot /\
               c2_shape r =
                 [mkPoint (nw_OnLine_DIST w / 0.3048 / IZR (vertical_exaggeration p)) top;
                  mkPoint (nw_OnLine_DIST w / 0.3048 / IZR (vertical_exaggeration p)) bot] /\
               c2_distance r = nw_NEAR_DIST w /\
               c2_pct_dist r = c2_distance r / IZR (buffer_dist p) * 200)
          (filter (conspy_written wells) records) (conspy_rows_2d p wells records).
Proof.
  unfold conspy_rows_2d.
  apply (Forall2_filter_flat_map _ (conspy_written wells)
           (fun r => option_map snd (conspy_rows p wells r))).
  - intros rec _ Hw. unfold conspy_written in Hw. unfold conspy_rows.
    destruct (cr_elev_top rec) as [top |]; [| discriminate].
    destruct (cr_elev_bot rec) as [bot |]; [| discriminate].
    destruct (last_match wells (cr_wellid rec)) as [w |]; [| discriminate].
    eexists. split; [reflexivity |]. exists w, top, bot. cbn. auto 7.
  - intros rec _ Hw. unfold conspy_written in Hw. unfold conspy_rows.
    destruct (cr_elev_top rec) as [top |]; [| reflexivity].
    destruct (cr_elev_bot rec) as [bot |]; [| reflexivity].
    destruct (last_match wells (cr_wellid rec)) as [w |]; [discriminate | reflexivity].
Qed.

(** The 2D geometry of the rows that the scripts write on valid inputs.
    Static water levels: for every well of [wwpt_merge] that is not
    passed over, the point [(x_coord_2d, y_coord_2d)] with [y_coord_2d]
    the measured elevation unchanged and [x_coord_2d] computed from
    [int(OnLine_DIST)].  Construction: for every record that is written,
    the segment from [(x, elev_top)] to [(x, elev_bot)] with
    [x = OnLine_DIST / 0.3048 / vertical_exaggeration] of the last well
    that matches the record, the elevations unchanged. *)
Lemma display_coordinates_written (p : Params) (inp : Inputs) (g : Gdb) :
  (swl_inputs_ok p inp ->
   exists g' rows,
     runs (SWL.run p inp) g tt g' /\
     wwpt_merge g' = Some (merged p inp) /\
     swl_2d_xsecview g' = Some rows /\
     Forall2 (fun w r =>
                sp_shape r = mkPoint (sp_x_coord_2d r) (sp_y_coord_2d r) /\
                sp_x_coord_2d r =
                  IZR (py_int (nw_OnLine_DIST w)) / 0.3048 / IZR (vertical_exaggeration p) /\
                wp_meas_elev (nw_well w) = Some (sp_y_coord_2d r))
             (filter swl_written (merged p inp)) rows) /\
  (conspys_inputs_ok p inp ->
   exists nomatch_list g' rows,
     runs (Conspys.run p inp) g nomatch_list g' /\
     wwpt_merge g' = Some (merged p inp) /\
     conspys_2d_line g' = Some rows /\
     Forall2 (fun rec r =>
                exists w top bot,
                  last_match (merged p inp) (cr_wellid rec) = Some w /\
                  cr_elev_top rec = Some top /\ cr_elev_bot rec = Some bot /\
                  c2_shape r =
                    [mkPoint (nw_OnLine_DIST w / 0.3048 / IZR (vertical_exaggeration p)) top;
                     mkPoint (nw_OnLine_DIST w / 0.3048 / IZR (vertical_exaggeration p)) bot])
             (filter (conspy_written (merged p inp)) (conspy_table inp)) rows).
Proof.
  split; intros Hok.
  - eexists. exists (swl_rows p (merged p inp)).
    split; [apply swl_run_runs; exact Hok |].
    split; [reflexivity |]. split; [reflexivity |].
    eapply Forall2_impl; [| apply swl_rows_written].
    cbn beta. intros w r H. tauto.
  - eexists. eexists. exists (conspy_rows_2d p (merged p inp) (conspy_table inp)).
    split; [apply conspys_run_runs; exact Hok |].
    split; [reflexivity |]. split; [reflexivity |].
    eapply Forall2_impl; [| apply conspy_rows_written].
    cbn beta. intros rec r (w & top & bot & H1 & H2 & H3 & H4 & _).
    exists w, top, bot. auto.
Qed.

(** The static-water-level script on the sample data writes one point,
    for a well at 1.5 m along the line. *)
Lemma swl_run_inputs1 :
  exists g',
    runs (SWL.run params1 inputs1) empty_gdb tt g' /\
    wwpt_merge g' = Some [mkNearWell well1 2 1.5 0 1.5] /\
    swl_2d_xsecview g' =
    Some [mkSwlPoint (mkPoint (IZR 1 / 0.3048 / IZR 50) 290) (WellNum 1) "A" 1.5 2
                     (IZR 1 / 0.3048 / IZR 50) 290 2 300 290 (2 / IZR 2 * 200)
                     (Some 10) 2 50 None].
Proof.
  eexists. split; [apply swl_run_runs, inputs1_ok |].
  cbn [wwpt_merge swl_2d_xsecview set_swl_2d_xsecview after_merge].
  rewrite merged_inputs1. split; [reflexivity |].
  unfold swl_rows, swl_row. cbn [flat_map option_list app nw_well well1 wp_elevation wp_meas_elev
    nw_OnLine_DIST nw_NEAR_DIST wp_wellid wp_etid wp_shape X Y wp_measuremt wp_Data_Source
    params1 vertical_exaggeration buffer_dist].
  rewrite py_int_1_5. reflexivity.
Qed.

(** The construction script on the sample data writes one segment, for
    the same well at 1.5 m along the line. *)
Lemma conspys_run_inputs1 :
  exists g',
    runs (Conspys.run params1 inputs1) empty_gdb [] g' /\
    wwpt_merge g' = Some [mkNearWell well1 2 1.5 0 1.5] /\
    conspys_2d_line g' =
    Some [mkConspy2d [mkPoint (1.5 / 0.3048 / IZR 50) 280; mkPoint (1.5 / 0.3048 / IZR 50) 270]
                     (WellNum 1) "A" 1.5 2 280 270 1 2 (2 / IZR 2 * 200) 2 50].
Proof.
  eexists. split.
  - replace (@nil WellId) with (nomatch_ids (merged params1 inputs1) (conspy_table inputs1)).
    + apply conspys_run_runs, inputs1_ok.
    + rewrite merged_inputs1. reflexivity.
  - cbn [wwpt_merge conspys_2d_line set_conspys_2d_line set_conspys_3d after_merge].
    rewrite merged_inputs1. split; reflexivity.
Qed.

(** C2.  The static-water-level script departs from the claim on a well
    that lies between two whole metres along its line.  The well of the
    sample data lies at s = 1.5 m.  The script writes for it the point
    whose y is the measured elevation, as claimed, and whose x is
    1 / 0.3048 / 50, computed from 1 m: not s in feet over the vertical
    exaggeration, 1.5 / 0.3048 / 50, which is the x that the construction
    script writes for the same well. *)
Theorem C2_x_coord_of_sample_well :
  exists g1 g2 w r1 r2,
    runs (SWL.run params1 inputs1) empty_gdb tt g1 /\
    wwpt_merge g1 = Some [w] /\ swl_2d_xsecview g1 = Some [r1] /\
    runs (Conspys.run params1 inputs1) empty_gdb [] g2 /\
    wwpt_merge g2 = Some [w] /\ conspys_2d_line g2 = Some [r2] /\
    nw_OnLine_DIST w = 1.5 /\
    sp_shape r1 = mkPoint (sp_x_coord_2d r1) (sp_y_coord_2d r1) /\
    wp_meas_elev (nw_well w) = Some (sp_y_coord_2d r1) /\
    sp_x_coord_2d r1 = 1 / 0.3048 / IZR (vertical_exaggeration params1) /\
    sp_x_coord_2d r1 <> nw_OnLine_DIST w / 0.3048 / IZR (vertical_exaggeration params1) /\
    c2_shape r2 =
      [mkPoint (nw_OnLine_DIST w / 0.3048 / IZR (vertical_exaggeration params1)) 280;
       mkPoint (nw_OnLine_DIST w / 0.3048 / IZR (vertical_exaggeration params1)) 270].
Proof.
  destruct swl_run_inputs1 as [g1 [R1 [Hm1 Hs1]]].
  destruct conspys_run_inputs1 as [g2 [R2 [Hm2 Hs2]]].
  exists g1, g2. eexists. eexists. eexists.
  split; [exact R1 |]. split; [exact Hm1 |]. split; [exact Hs1 |].
  split; [exact R2 |]. split; [exact Hm2 |]. split; [exact Hs2 |].
  cbn [sp_shape sp_x_coord_2d sp_y_coord_2d nw_OnLine_DIST nw_well well1 wp_meas_elev
       c2_shape params1 vertical_exaggeration].
  repeat split; try reflexivity. lra.
Qed.

(* ================================================================== *)
(** * The two scripts compared                                         *)
(* ================================================================== *)

(** C7.  The two scripts do not compute the same x coordinate for a well
    that lies between two whole metres along its line.  For the well,
    the line and the parameters of the sample data, with the well at
    s = 1.5 m along the line, the static-water-level script computes the
    x coordinate 1 / 0.3048 / 50 and the construction script
    1.5 / 0.3048 / 50, and each writes its own value to its 2D output. *)
Theorem C7_x_coords_of_sample_well :
  SWL.x_coord_2d params1 1.5 = Done (1 / 0.3048 / 50) /\
  Conspys.x_coord params1 1.5 = Done (1.5 / 0.3048 / 50) /\
  exists g1 g2 w r1 r2,
    runs (SWL.run params1 inputs1) empty_gdb tt g1 /\
    wwpt_merge g1 = Some [w] /\ swl_2d_xsecview g1 = Some [r1] /\
    runs (Conspys.run params1 inputs1) empty_gdb [] g2 /\
    wwpt_merge g2 = Some [w] /\ conspys_2d_line g2 = Some [r2] /\
    nw_OnLine_DIST w = 1.5 /\
    sp_wellid r1 = c2_wellid r2 /\ sp_etid r1 = c2_etid r2 /\
    X (sp_shape r1) = 1 / 0.3048 / 50 /\
    Forall (fun pt => X pt = 1.5 / 0.3048 / 50) (c2_shape r2) /\
    Forall (fun pt => X pt <> X (sp_shape r1)) (c2_shape r2).
Proof.
  split; [| split].
  - unfold SWL.x_coord_2d. rewrite py_int_1_5. apply py_div_int_nonzero. cbn. lia.
  - unfold Conspys.x_coord. apply py_div_int_nonzero. cbn. lia.
  - destruct swl_run_inputs1 as [g1 [R1 [Hm1 Hs1]]].
    destruct conspys_run_inputs1 as [g2 [R2 [Hm2 Hs2]]].
    exists g1, g2. eexists. eexists. eexists.
    split; [exact R1 |]. split; [exact Hm1 |]. split; [exact Hs1 |].
    split; [exact R2 |]. split; [exact Hm2 |]. split; [exact Hs2 |].
    cbn [sp_shape sp_wellid sp_etid c2_wellid c2_etid c2_shape nw_OnLine_DIST X].
    split; [reflexivity |]. split; [reflexivity |]. split; [reflexivity |].
    split; [reflexivity |]. split.
    + repeat constructor.
    + constructor; [cbn [X]; lra |]. constructor; [cbn [X]; lra | constructor].
Qed.

(** The x coordinate of the static-water-level script is that of the
    construction script for [int(s)], the position truncated toward zero
    to whole metres, less than one metre from s; the two agree when s is
    a whole number. *)
Lemma swl_x_coord_truncates (p : Params) (s : R) :
  SWL.x_coord_2d p s = Conspys.x_coord p (IZR (py_int s)) /\
  Rabs (s - IZR (py_int s)) < 1 /\ Rabs (IZR (py_int s)) <= Rabs s /\
  (forall z : Z, SWL.x_coord_2d p (IZR z) = Conspys.x_coord p (IZR z)).
Proof.
  split; [reflexivity |].
  split; [apply py_int_truncates |]. split; [apply py_int_truncates |].
  intros z. unfold SWL.x_coord_2d, Conspys.x_coord. now rewrite py_int_IZR.
Qed.

(* ================================================================== *)
(** * The extension of the lines                                       *)
(* ================================================================== *)

Lemma extended_spec b p0 body pl :
  hd pl body <> p0 -> last body p0 <> pl ->
  extended b (p0 :: body ++ [pl]) =
  beyond (hd pl body) p0 (IZR b) :: body ++ [beyond (last body p0) pl (IZR b)].
Proof.
  intros H1 H2. unfold extended. rewrite extend_line_spec.
  now rewrite !pointFromAngleAndDistance_beyond.
Qed.

Lemma beyond_outward a p d : a <> p -> 0 <= d -> on_segment (beyond a p d) a p.
Proof.
  intros H Hd. pose proof (dist_pos a p H) as L. pose proof (dir_unit a p H) as U.
  assert (G : on_segment (along p (dir_x a p) (dir_y a p) d)
                         (along p (dir_x a p) (dir_y a p) (- dist a p))
                         (along p (dir_x a p) (dir_y a p) 0)).
  { apply on_segment_along; [exact U | nra]. }
  rewrite <- (back_along a p H) in G. rewrite <- origin_along in G. exact G.
Qed.

Lemma xsln_temp_rows b lines :
  Forall two_vertices lines ->
  Forall2 (fun line row =>
             xs_etid row = xs_etid line /\
             extend_line b (xs_part0 line) = Done (xs_part0 row))
          lines (map (extended_line b) lines).
Proof.
  intros H. induction H as [| line t H2 _ IH]; cbn [map]; constructor; [| exact IH].
  split; [reflexivity |]. cbn. now apply extended_two_vertices.
Qed.

(** C9.  The body of the extension loop, on a line with first vertex
    [p0], interior vertices [body] and last vertex [pl]: the result keeps
    [body] and replaces the two ends only; each new end is computed from
    the original vertices (for a line of two vertices, [hd pl body] is
    the original last vertex and [last body p0] the original first one);
    when the terminal segment has two distinct ends, the new end lies at
    distance [buffer_dist] from the original end, on the line of the
    terminal segment and on the far side of it.  The loop writes one row
    of [xsln_temp] per input line, in order, with the et_id of the input
    line. *)
Theorem C9_line_extension (b : Z) (p0 pl : Point) (body : list Point) :
  let new_beg :=
    pointFromAngleAndDistance p0 (fst (angleAndDistanceTo (hd pl body) p0)) (IZR b) in
  let new_end :=
    pointFromAngleAndDistance pl (fst (angleAndDistanceTo (last body p0) pl)) (IZR b) in
  extend_line b (p0 :: body ++ [pl]) = Done (new_beg :: body ++ [new_end]) /\
  (hd pl body <> p0 -> (0 <= b)%Z ->
     new_beg = beyond (hd pl body) p0 (IZR b) /\
     dist p0 new_beg = IZR b /\ on_segment new_beg (hd pl body) p0) /\
  (last body p0 <> pl -> (0 <= b)%Z ->
     new_end = beyond (last body p0) pl (IZR b) /\
     dist pl new_end = IZR b /\ on_segment new_end (last body p0) pl) /\
  (forall (p : Params) (inp : Inputs) (g : Gdb),
     Forall two_vertices (xsln_file_orig inp) ->
     exists g' rows,
       runs (create_xsln_temp p inp) g tt g' /\
       xsln_temp g' = Some rows /\
       Forall2 (fun line row =>
                  xs_etid row = xs_etid line /\
                  extend_line (buffer_dist p) (xs_part0 line) = Done (xs_part0 row))
               (xsln_file_orig inp) rows).
Proof.
  intros new_beg new_end. split; [apply extend_line_spec |]. split; [| split].
  - intros H Hb. apply IZR_le in Hb. unfold new_beg.
    rewrite pointFromAngleAndDistance_beyond by exact H.
    split; [reflexivity |]. split; [now apply dist_beyond | now apply beyond_outward].
  - intros H Hb. apply IZR_le in Hb. unfold new_end.
    rewrite pointFromAngleAndDistance_beyond by exact H.
    split; [reflexivity |]. split; [now apply dist_beyond | now apply beyond_outward].
  - intros p inp g Hall. eexists. eexists.
    split; [now apply create_xsln_temp_runs |]. split; [reflexivity |].
    now apply xsln_temp_rows.
Qed.

Lemma C9_line_extension_witness :
  dist (mkPoint 0 0)
       (pointFromAngleAndDistance (mkPoint 0 0)
          (fst (angleAndDistanceTo (mkPoint 10 0) (mkPoint 0 0))) (IZR 2)) = IZR 2.
Proof.
  apply (C9_line_extension 2 (mkPoint 0 0) (mkPoint 10 0) []).
  - simpl. intros C. inversion C. lra.
  - lia.
Defined.

(* ================================================================== *)
(** * The position along the line                                      *)
(* ================================================================== *)

Lemma extended_length b pts :
  (2 <= List.length pts)%nat -> (2 <= List.length (extended b pts))%nat.
Proof.
  intros H. destruct (two_or_more pts H) as [p0 [body [pl E]]]. subst pts.
  unfold extended. rewrite extend_line_spec. cbn [List.length].
  rewrite length_app. cbn [List.length]. lia.
Qed.

(** Positions before the first vertex and beyond the last one are
    reported as they are: on a line from (0,0) to (10,0) extended by 2, a
    well at abscissa -1 has position -1 and a well at abscissa 11 has
    position 11, beyond the length 10 of the line. *)
Lemma online_dist_not_clamped :
  let before := mkWellPoint (WellNum 2) "A" (mkPoint (-1) 2) None None None None None None in
  let beyond := mkWellPoint (WellNum 3) "A" (mkPoint 11 2) None None None None None None in
  nw_OnLine_DIST (near_well 2 (extended 2 (xs_part0 lineA)) before) = -1 /\
  nw_OnLine_DIST (near_well 2 (extended 2 (xs_part0 lineA)) beyond) = 11 /\
  polyline_length (xs_part0 lineA) = 10.
Proof.
  cbn zeta. cbn [lineA xs_part0].
  rewrite !near_well_horizontal by (cbn [wp_shape X]; first [lra | lia]).
  cbn [nw_OnLine_DIST wp_shape X polyline_length length_from].
  rewrite dist_horizontal. rewrite Rabs_right by lra. repeat split; lra.
Qed.

(* ================================================================== *)
(** * The line a well is projected on                                  *)
(* ================================================================== *)

(** C3, as stated, fails: the well of the sample data carries the et_id
    of line A and is projected on it, at distance 2, although line B of
    the same feature class passes at distance 1 of the well. *)
Lemma C3_counterexample :
  exists g' w,
    runs (SWL.run params1 inputs1) empty_gdb tt g' /\
    wwpt_merge g' = Some [w] /\
    nw_well w = well1 /\ nw_NEAR_Y w = 0 /\ nw_NEAR_DIST w = 2 /\
    In lineB (xsln_file_orig inputs1) /\
    dist (wp_shape well1) (nearest (xs_part0 lineB) (wp_shape well1)) = 1 /\
    dist (wp_shape well1)
         (nearest (extended (buffer_dist params1) (xs_part0 lineB)) (wp_shape well1)) = 1.
Proof.
  destruct swl_run_inputs1 as [g' [R [Hm _]]].
  eexists. eexists. split; [exact R |]. split; [exact Hm |].
  cbn [nw_well nw_NEAR_Y nw_NEAR_DIST]. repeat split.
  - right. now left.
  - cbn [lineB xs_part0 well1 wp_shape]. rewrite nearest_horizontal by lra.
    rewrite dist_vertical. rewrite Rabs_right; lra.
  - cbn [lineB xs_part0 well1 wp_shape params1 buffer_dist].
    rewrite extended_horizontal by lra. rewrite nearest_horizontal by lra.
    rewrite dist_vertical. rewrite Rabs_right; lra.
Qed.

(** C3 (amended).  On valid inputs, every well point that is projected is
    projected on the extension of a line of the input that carries the
    et_id of the well, whether or not another line is nearer; every well
    whose et_id is carried by a line has such a row in [wwpt_merge], and
    a well whose et_id no line carries has none. *)
Theorem C3_projection_line (p : Params) (inp : Inputs) (g : Gdb) :
  (swl_inputs_ok p inp ->
   exists g', runs (SWL.run p inp) g tt g' /\ wwpt_merge g' = Some (merged p inp)) /\
  (conspys_inputs_ok p inp ->
   exists nomatch_list g',
     runs (Conspys.run p inp) g nomatch_list g' /\ wwpt_merge g' = Some (merged p inp)) /\
  (forall w, In w (merged p inp) ->
     exists line,
       In line (xsln_file_orig inp) /\
       xs_etid line = wp_etid (nw_well w) /\
       In (nw_well w) (wwpt_file_orig inp) /\
       let E := extended (buffer_dist p) (xs_part0 line) in
       let N := nearest E (wp_shape (nw_well w)) in
       nw_NEAR_X w = X N /\ nw_NEAR_Y w = Y N /\
       nw_NEAR_DIST w = dist (wp_shape (nw_well w)) N /\
       nw_OnLine_DIST w = measureOnLine E (mkPoint (X N) (Y N)) - IZR (buffer_dist p)) /\
  (forall w0, In w0 (wwpt_file_orig inp) ->
     (exists line, In line (xsln_file_orig inp) /\ xs_etid line = wp_etid w0) ->
     exists w, In w (merged p inp) /\ nw_well w = w0) /\
  (forall w0,
     (forall line, In line (xsln_file_orig inp) -> xs_etid line <> wp_etid w0) ->
     forall w, In w (merged p inp) -> nw_well w <> w0).
Proof.
  split; [| split; [| split; [| split]]].
  - intros Hok. eexists. split; [now apply swl_run_runs | reflexivity].
  - intros Hok. eexists. eexists. split; [now apply conspys_run_runs | reflexivity].
  - intros w Hw. destruct (merged_rows_spec p inp w Hw) as [line [H1 [H2 [H3 H4]]]].
    exists line. split; [exact H1 |]. split; [exact H2 |]. split; [exact H3 |].
    pose proof (f_equal nw_NEAR_X H4) as Fx. pose proof (f_equal nw_NEAR_Y H4) as Fy.
    pose proof (f_equal nw_NEAR_DIST H4) as Fd. pose proof (f_equal nw_OnLine_DIST H4) as Fs.
    cbn [nw_NEAR_X nw_NEAR_Y nw_NEAR_DIST nw_OnLine_DIST near_well] in Fx, Fy, Fd, Fs.
    cbn zeta. auto.
  - intros w0 Hw0 Hl. destruct (merged_complete p inp w0 Hw0 Hl) as [line [_ [_ H]]].
    eexists. split; [exact H | reflexivity].
  - intros w0 Hno w Hw E. destruct (merged_rows_spec p inp w Hw) as [line [H1 [H2 _]]].
    apply (Hno line H1). now rewrite H2, E.
Qed.

Lemma C3_projection_line_witness :
  exists w, In w (merged params1 inputs1) /\ nw_well w = well1.
Proof.
  apply (C3_projection_line params1 inputs1 empty_gdb).
  - simpl. left. reflexivity.
  - exists lineA. simpl. split; [left; reflexivity | reflexivity].
Defined.

(* ================================================================== *)
(** * Records that are passed over                                     *)
(* ================================================================== *)

Lemma swl_rows_app p ws1 ws2 : swl_rows p (ws1 ++ ws2) = swl_rows p ws1 ++ swl_rows p ws2.
Proof. unfold swl_rows. apply flat_map_app. Qed.

Lemma swl_row_null p w :
  wp_elevation (nw_well w) = None \/ wp_meas_elev (nw_well w) = None -> swl_row p w = None.
Proof.
  intros [H | H]; unfold swl_row; rewrite H; [reflexivity |].
  destruct (wp_elevation (nw_well w)); reflexivity.
Qed.

Lemma conspy_rows_null p wells r :
  cr_elev_top r = None \/ cr_elev_bot r = None ->
  conspy_rows p wells r = None /\ conspy_nomatch wells r = false.
Proof.
  intros [H | H]; unfold conspy_rows, conspy_nomatch; rewrite H; [auto |].
  destruct (cr_elev_top r); auto.
Qed.

Lemma conspy_rows_unmatched p wells r :
  Conspys.where_wellid wells (cr_wellid r) = [] -> conspy_rows p wells r = None.
Proof.
  intros H. apply last_match_none in H. unfold conspy_rows. rewrite H.
  destruct (cr_elev_top r); [| reflexivity]. destruct (cr_elev_bot r); reflexivity.
Qed.

Lemma conspy_rows_3d_skip p wells rs1 r rs2 :
  conspy_rows p wells r = None ->
  conspy_rows_3d p wells (rs1 ++ r :: rs2) =
  conspy_rows_3d p wells rs1 ++ conspy_rows_3d p wells rs2.
Proof.
  intros H. unfold conspy_rows_3d. rewrite flat_map_app. cbn [flat_map]. now rewrite H.
Qed.

Lemma conspy_rows_2d_skip p wells rs1 r rs2 :
  conspy_rows p wells r = None ->
  conspy_rows_2d p wells (rs1 ++ r :: rs2) =
  conspy_rows_2d p wells rs1 ++ conspy_rows_2d p wells rs2.
Proof.
  intros H. unfold conspy_rows_2d. rewrite flat_map_app. cbn [flat_map]. now rewrite H.
Qed.

Lemma nomatch_ids_app wells rs1 r rs2 :
  nomatch_ids wells (rs1 ++ r :: rs2) =
  nomatch_ids wells rs1 ++ (if conspy_nomatch wells r then [cr_wellid r] else [])
                        ++ nomatch_ids wells rs2.
Proof.
  unfold nomatch_ids. rewrite filter_app, map_app. cbn [filter].
  destruct (conspy_nomatch wells r); reflexivity.
Qed.

(** C5.  In the point loop of the static-water-level script a well with
    a null elevation or a null measured elevation adds no row, and the
    loop goes on and ends normally: the point file receives the rows of
    the wells before it and of the wells after it, as it does when the
    well is not in [wwpt_merge] at all.  In the polyline loop of the
    construction script a record with a null elev_top or elev_bot adds
    no row to either polyline file and no id to the no-match list, and
    the loop goes on and ends normally. *)
Theorem C5_null_values_skipped (p : Params) (inp : Inputs) (g : Gdb) :
  (0 < buffer_dist p)%Z -> (0 < vertical_exaggeration p)%Z ->
  (forall ws1 w ws2 rows,
     wwpt_merge g = Some (ws1 ++ w :: ws2) ->
     swl_2d_xsecview g = Some rows ->
     wp_elevation (nw_well w) = None \/ wp_meas_elev (nw_well w) = None ->
     exists out,
       out = rows ++ swl_rows p ws1 ++ swl_rows p ws2 /\
       runs (SWL.create_points p inp) g tt (set_swl_2d_xsecview g (Some out)) /\
       runs (SWL.create_points p inp) (set_wwpt_merge g (Some (ws1 ++ ws2))) tt
            (set_swl_2d_xsecview (set_wwpt_merge g (Some (ws1 ++ ws2))) (Some out))) /\
  (forall rs1 r rs2 wells r3 r2,
     conspy_table inp = rs1 ++ r :: rs2 ->
     wwpt_merge g = Some wells ->
     conspys_3d g = Some r3 -> conspys_2d_line g = Some r2 ->
     cr_elev_top r = None \/ cr_elev_bot r = None ->
     runs (Conspys.create_polylines p inp) g
          (nomatch_ids wells rs1 ++ nomatch_ids wells rs2)
          (set_conspys_2d_line
             (set_conspys_3d g
                (Some (r3 ++ conspy_rows_3d p wells rs1 ++ conspy_rows_3d p wells rs2)))
             (Some (r2 ++ conspy_rows_2d p wells rs1 ++ conspy_rows_2d p wells rs2)))).
Proof.
  intros Hb Hv. split.
  - intros ws1 w ws2 rows Hm Hs Hnull.
    exists (rows ++ swl_rows p ws1 ++ swl_rows p ws2). split; [reflexivity |]. split.
    + replace (swl_rows p ws1 ++ swl_rows p ws2) with (swl_rows p (ws1 ++ w :: ws2)).
      * apply swl_create_points_runs; (assumption || lia).
      * rewrite swl_rows_app. unfold swl_rows at 2. cbn [flat_map].
        rewrite (swl_row_null p w Hnull). reflexivity.
    + rewrite <- swl_rows_app. apply swl_create_points_runs; (reflexivity || assumption || lia).
  - intros rs1 r rs2 wells r3 r2 Ht Hm H3 H2 Hnull.
    destruct (conspy_rows_null p wells r Hnull) as [Hrows Hnm].
    rewrite <- (conspy_rows_3d_skip p wells rs1 r rs2 Hrows).
    rewrite <- (conspy_rows_2d_skip p wells rs1 r rs2 Hrows).
    replace (nomatch_ids wells rs1 ++ nomatch_ids wells rs2)
      with (nomatch_ids wells (rs1 ++ r :: rs2))
      by (rewrite nomatch_ids_app, Hnm; reflexivity).
    rewrite <- Ht. apply conspys_create_polylines_runs; (assumption || lia).
Qed.

Lemma C5_null_values_skipped_witness :
  let w := mkNearWell (mkWellPoint (WellNum 4) "A" (mkPoint 3 1) None (Some 290) None None None None)
                      1 3 0 3 in
  let g := mkGdb (Some []) None None None None None (Some [w]) in
  exists out,
    out = [] ++ swl_rows params1 [] ++ swl_rows params1 [] /\
    runs (SWL.create_points params1 inputs1) g tt (set_swl_2d_xsecview g (Some out)) /\
    runs (SWL.create_points params1 inputs1) (set_wwpt_merge g (Some ([] ++ []))) tt
         (set_swl_2d_xsecview (set_wwpt_merge g (Some ([] ++ []))) (Some out)).
Proof.
  intros w g.
  destruct (C5_null_values_skipped params1 inputs1 g) as [H _]; [simpl; lia | simpl; lia |].
  apply (H [] w [] []); [reflexivity | reflexivity |].
  left. reflexivity.
Defined.

(* ================================================================== *)
(** * Construction records without a well                              *)
(* ================================================================== *)

Lemma merged_inputs2 : merged params1 inputs2 = [mkNearWell well1 2 1.5 0 1.5].
Proof. rewrite <- merged_inputs1. reflexivity. Qed.

(** C10, as stated, fails: the record of the sample data has the id of
    no well point, but its top elevation is null; the script passes it
    over before it looks for the well, and the no-match list stays
    empty. *)
Lemma C10_counterexample :
  exists g',
    runs (Conspys.run params1 inputs2) empty_gdb [] g' /\
    wwpt_merge g' = Some (merged params1 inputs2) /\
    In conspy_null (conspy_table inputs2) /\
    Conspys.where_wellid (merged params1 inputs2) (cr_wellid conspy_null) = [] /\
    conspys_3d g' = Some [] /\ conspys_2d_line g' = Some [].
Proof.
  eexists. split.
  - replace (@nil WellId) with (nomatch_ids (merged params1 inputs2) (conspy_table inputs2))
      by reflexivity.
    apply conspys_run_runs. split; [apply inputs1_ok | discriminate].
  - split; [reflexivity |]. split; [now left |].
    split; [rewrite merged_inputs2; reflexivity |]. split; reflexivity.
Qed.

(** C10 (amended).  In the polyline loop of the construction script, a
    record whose well id matches no row of [wwpt_merge] adds no row to
    the 3D or to the 2D polyline file.  When its elev_top and elev_bot
    are not null, its well id is appended to the no-match list, and the
    length of that list is reported once, by the last message of the
    polyline creation. *)
Theorem C10_no_matching_well (p : Params) (inp : Inputs) (g : Gdb)
  (wells : list NearWell) (r3 : list Conspy3d) (r2 : list Conspy2d)
  (rs1 : list ConspyRec) (r : ConspyRec) (rs2 : list ConspyRec) :
  (0 < buffer_dist p)%Z -> (0 < vertical_exaggeration p)%Z ->
  conspy_table inp = rs1 ++ r :: rs2 ->
  wwpt_merge g = Some wells ->
  conspys_3d g = Some r3 -> conspys_2d_line g = Some r2 ->
  Conspys.where_wellid wells (cr_wellid r) = [] ->
  exists nomatch_list,
    runs (Conspys.create_polylines p inp) g nomatch_list
         (set_conspys_2d_line
            (set_conspys_3d g
               (Some (r3 ++ conspy_rows_3d p wells rs1 ++ conspy_rows_3d p wells rs2)))
            (Some (r2 ++ conspy_rows_2d p wells rs1 ++ conspy_rows_2d p wells rs2))) /\
    (cr_elev_top r <> None -> cr_elev_bot r <> None ->
     nomatch_list = nomatch_ids wells rs1 ++ cr_wellid r :: nomatch_ids wells rs2 /\
     exists l,
       Forall not_report l /\
       log (Conspys.create_polylines p inp g) =
       l ++ [nomatch_report (Z.of_nat (List.length nomatch_list))]).
Proof.
  intros Hb Hv Ht Hm H3 H2 Hno.
  exists (nomatch_ids wells (conspy_table inp)). split.
  - pose proof (conspy_rows_unmatched p wells r Hno) as Hrows.
    rewrite <- (conspy_rows_3d_skip p wells rs1 r rs2 Hrows).
    rewrite <- (conspy_rows_2d_skip p wells rs1 r rs2 Hrows).
    rewrite <- Ht. apply conspys_create_polylines_runs; (assumption || lia).
  - intros Htop Hbot.
    assert (Hnm : conspy_nomatch wells r = true).
    { unfold conspy_nomatch. apply last_match_none in Hno. rewrite Hno.
      destruct (cr_elev_top r); [| congruence]. destruct (cr_elev_bot r); [reflexivity | congruence]. }
    assert (E : nomatch_ids wells (conspy_table inp) =
                nomatch_ids wells rs1 ++ cr_wellid r :: nomatch_ids wells rs2).
    { rewrite Ht, nomatch_ids_app, Hnm. reflexivity. }
    split; [exact E |].
    destruct (conspys_create_polylines_log p inp g wells r3 r2) as [l [Hl Hlog]];
      try assumption; try lia.
    exists l. split; [exact Hl |]. rewrite Hlog.
    destruct (nomatch_ids wells (conspy_table inp)) as [| x t] eqn:En; [| reflexivity].
    exfalso. destruct (nomatch_ids wells rs1); discriminate.
Qed.

Lemma C10_no_matching_well_witness :
  let g := mkGdb None (Some []) (Some []) None None None (Some []) in
  exists nomatch_list l,
    runs (Conspys.create_polylines params1 inputs1) g nomatch_list g /\
    nomatch_list = [cr_wellid conspy1] /\
    Forall not_report l /\
    log (Conspys.create_polylines params1 inputs1 g) =
    l ++ [nomatch_report (Z.of_nat (List.length nomatch_list))].
Proof.
  intros g.
  destruct (C10_no_matching_well params1 inputs1 g [] [] [] [] conspy1 [])
    as [nomatch_list [R H]]; try (simpl; lia); try reflexivity.
  destruct H as [E [l [Hl Hlog]]]; try (simpl; discriminate).
  exists nomatch_list, l. split; [exact R |]. split; [exact E |]. split; [exact Hl | exact Hlog].
Defined.

(* ================================================================== *)
(** * The logs of statements                                           *)
(* ================================================================== *)

Lemma log_bind_prefix {A B : Type} (c : M A) (k : A -> M B) g :
  exists l, log (bind c k g) = log (c g) ++ l.
Proof.
  unfold bind. destruct (res (c g)); cbn [log].
  - eexists. reflexivity.
  - exists []. now rewrite app_nil_r.
Qed.

Lemma log_runs_bind {A B : Type} (c : M A) (k : A -> M B) g a g1 :
  runs c g a g1 -> log (bind c k g) = log (c g) ++ log (k a g1).
Proof.
  intros [H1 H2]. destruct (bind_done c k g a H1) as [_ [_ H]]. now rewrite H, H2.
Qed.

Lemma log_fails_bind {A B : Type} (c : M A) (k : A -> M B) g e g1 :
  fails c g e g1 -> log (bind c k g) = log (c g).
Proof.
  intros [H1 H2]. now destruct (bind_raised c k g e H1) as [_ [_ H]].
Qed.

Lemma log_quiet_then {A : Type} (c : M unit) (k : M A) g :
  quiet c -> log ((c ;;; k) g) = log (c g) ++ log (k g).
Proof. intros H. apply (log_runs_bind c (fun _ => k) g tt g), H. Qed.

(* ================================================================== *)
(** * The lists of distinct values of the data QC                      *)
(* ================================================================== *)

Section Unique.

Context {A : Type} (eqb : A -> A -> bool).
Hypothesis eqb_spec : forall a b, eqb a b = true <-> a = b.

Lemma existsb_eqb_In x l : existsb (eqb x) l = true <-> In x l.
Proof.
  rewrite existsb_exists. split.
  - intros [y [Hy E]]. apply eqb_spec in E. now subst.
  - intros H. exists x. split; [exact H | now apply eqb_spec].
Qed.

Lemma existsb_eqb_not_In x l : existsb (eqb x) l = false <-> ~ In x l.
Proof.
  rewrite <- existsb_eqb_In. destruct (existsb (eqb x) l); split; congruence.
Qed.

Lemma append_unique_In l x y : In y (append_unique eqb l x) <-> In y l \/ y = x.
Proof.
  unfold append_unique. destruct (existsb (eqb x) l) eqn:E.
  - apply existsb_eqb_In in E. split; [auto | intros [H | H]; [auto | now subst]].
  - rewrite in_app_iff. cbn. split; intros [H | H]; auto.
    + destruct H as [H | []]. auto.
Qed.

Lemma append_unique_NoDup l x : NoDup l -> NoDup (append_unique eqb l x).
Proof.
  intros H. unfold append_unique. destruct (existsb (eqb x) l) eqn:E; [exact H |].
  apply existsb_eqb_not_In in E.
  apply NoDup_app; [exact H | repeat constructor; auto | ].
  intros y Hy [Hx | []]. subst. auto.
Qed.

Lemma append_unique_prefix l x : exists ext, append_unique eqb l x = l ++ ext.
Proof.
  unfold append_unique. destruct (existsb (eqb x) l).
  - exists []. now rewrite app_nil_r.
  - eexists. reflexivity.
Qed.

Lemma fold_append_unique_spec l : forall acc,
  NoDup acc ->
  NoDup (fold_left (append_unique eqb) l acc) /\
  (forall y, In y (fold_left (append_unique eqb) l acc) <-> In y acc \/ In y l) /\
  exists ext, fold_left (append_unique eqb) l acc = acc ++ ext.
Proof.
  induction l as [| x t IH]; intros acc Hacc; cbn [fold_left].
  - split; [exact Hacc |]. split.
    + intros y. cbn. tauto.
    + exists []. now rewrite app_nil_r.
  - destruct (IH (append_unique eqb acc x) (append_unique_NoDup acc x Hacc))
      as [H1 [H2 [ext H3]]].
    split; [exact H1 |]. split.
    + intros y. rewrite H2, append_unique_In. cbn. intuition auto.
    + destruct (append_unique_prefix acc x) as [ext' E]. rewrite H3, E.
      exists (ext' ++ ext). now rewrite app_assoc.
Qed.

Lemma unique_values_NoDup l : NoDup (unique_values eqb l).
Proof. apply fold_append_unique_spec. constructor. Qed.

Lemma unique_values_In l x : In x (unique_values eqb l) <-> In x l.
Proof.
  unfold unique_values.
  destruct (fold_append_unique_spec l [] (NoDup_nil A)) as [_ [H _]].
  rewrite H. cbn. tauto.
Qed.

Lemma unique_values_first x l : exists u, unique_values eqb (x :: l) = x :: u.
Proof.
  unfold unique_values. cbn [fold_left].
  assert (E : append_unique eqb [] x = [x]) by reflexivity. rewrite E.
  destruct (fold_append_unique_spec l [x]) as [_ [_ [ext H]]].
  - repeat constructor. auto.
  - exists ext. exact H.
Qed.

Lemma not_in_list_In l l' x : In x (not_in_list eqb l l') <-> In x l /\ ~ In x l'.
Proof.
  unfold not_in_list. rewrite filter_In, negb_true_iff, existsb_eqb_not_In. tauto.
Qed.

Lemma not_in_list_NoDup l l' : NoDup l -> NoDup (not_in_list eqb l l').
Proof. apply NoDup_filter. Qed.

(** X1.  The loop [if x not in l: l.append(x)] over a field of a table
    collects every value of the field once: the list has no repeats, it
    holds exactly the values of the field, and the values come in the
    order of their first row (the list of a prefix of the table is a
    prefix of the list of the table). *)
Theorem unique_values_spec (l : list A) :
  NoDup (unique_values eqb l) /\
  (forall x, In x (unique_values eqb l) <-> In x l) /\
  (forall l1 x l2, l = l1 ++ x :: l2 -> ~ In x l1 ->
     exists u2, unique_values eqb l = unique_values eqb l1 ++ x :: u2).
Proof.
  split; [apply unique_values_NoDup |]. split; [apply unique_values_In |].
  intros l1 x l2 E Hx. subst l. unfold unique_values. rewrite fold_left_app.
  cbn [fold_left]. fold (unique_values eqb l1).
  assert (Ea : append_unique eqb (unique_values eqb l1) x = unique_values eqb l1 ++ [x]).
  { unfold append_unique.
    replace (existsb (eqb x) (unique_values eqb l1)) with false; [reflexivity |].
    symmetry. apply existsb_eqb_not_In. now rewrite unique_values_In. }
  rewrite Ea.
  destruct (fold_append_unique_spec l2 (unique_values eqb l1 ++ [x])) as [_ [_ [ext H]]].
  - rewrite <- Ea. apply append_unique_NoDup, unique_values_NoDup.
  - exists ext. rewrite H, <- app_assoc. reflexivity.
Qed.

End Unique.

Lemma unique_values_spec_witness :
  NoDup (unique_values String.eqb ["A"; "B"; "A"]%string) /\
  (forall x, In x (unique_values String.eqb ["A"; "B"; "A"]%string) <->
             In x ["A"; "B"; "A"]%string).
Proof.
  destruct (unique_values_spec String.eqb String.eqb_eq ["A"; "B"; "A"]%string)
    as [H1 [H2 _]].
  split; [exact H1 | exact H2].
Defined.

Lemma wellid_eqb_eq a b : wellid_eqb a b = true <-> a = b.
Proof.
  destruct a as [n | s], b as [m | t]; cbn.
  - rewrite Z.eqb_eq. split; [now intros -> | now intros [= ->]].
  - split; discriminate.
  - split; discriminate.
  - rewrite String.eqb_eq. split; [now intros -> | now intros [= ->]].
Qed.

(* ================================================================== *)
(** * The warnings of the data QC                                      *)
(* ================================================================== *)

Lemma check_etids_log l l' g :
  log (check_etids l l' g) =
  (match not_in_list String.eqb l l' with
   | [] => []
   | _ :: _ => [wells_unmatched_warning (not_in_list String.eqb l l')]
   end) ++
  (match not_in_list String.eqb l' l with
   | [] => []
   | _ :: _ => [lines_unused_warning (not_in_list String.eqb l' l)]
   end).
Proof.
  unfold check_etids.
  destruct (not_in_list String.eqb l l') as [| x t] eqn:E1;
    destruct (not_in_list String.eqb l' l) as [| y u] eqn:E2; reflexivity.
Qed.

(** X2.  The two et_id checks that end the data QC only print.  The first
    warning is printed exactly when some well point carries an et_id that
    no cross-section line carries, and it lists every such et_id once;
    the second is printed exactly when some line has an et_id that no
    well point carries, and it lists every such et_id once. *)
Theorem etid_cross_check (wells : list WellPoint) (lines : list XsLine) (g : Gdb) :
  let wwpt_etid_list := unique_values String.eqb (map wp_etid wells) in
  let xsln_etid_list := unique_values String.eqb (map xs_etid lines) in
  let unmatched := not_in_list String.eqb wwpt_etid_list xsln_etid_list in
  let unused := not_in_list String.eqb xsln_etid_list wwpt_etid_list in
  runs (check_etids wwpt_etid_list xsln_etid_list) g tt g /\
  log (check_etids wwpt_etid_list xsln_etid_list g) =
    (match unmatched with [] => [] | _ :: _ => [wells_unmatched_warning unmatched] end) ++
    (match unused with [] => [] | _ :: _ => [lines_unused_warning unused] end) /\
  NoDup unmatched /\
  (forall e, In e unmatched <->
     (exists w, In w wells /\ wp_etid w = e) /\
     (forall line, In line lines -> xs_etid line <> e)) /\
  NoDup unused /\
  (forall e, In e unused <->
     (exists line, In line lines /\ xs_etid line = e) /\
     (forall w, In w wells -> wp_etid w <> e)).
Proof.
  intros wl xl unmatched unused.
  split; [apply quiet_check_etids |]. split; [apply check_etids_log |].
  assert (Hin : forall (B : Type) (f : B -> string) (rows : list B) e,
             In e (map f rows) <-> exists r, In r rows /\ f r = e).
  { intros B f rows e. rewrite in_map_iff. split; intros [r [H1 H2]]; exists r; auto. }
  assert (Hnot : forall (B : Type) (f : B -> string) (rows : list B) e,
             ~ In e (map f rows) <-> forall r, In r rows -> f r <> e).
  { intros B f rows e. rewrite Hin. split.
    - intros H r Hr E. apply H. exists r. auto.
    - intros H [r [Hr E]]. exact (H r Hr E). }
  split; [apply (not_in_list_NoDup String.eqb), (unique_values_NoDup String.eqb String.eqb_eq) |].
  split.
  { intros e. unfold unmatched, wl, xl.
    rewrite (not_in_list_In String.eqb String.eqb_eq).
    rewrite !(unique_values_In String.eqb String.eqb_eq).
    rewrite Hin, Hnot. tauto. }
  split; [apply (not_in_list_NoDup String.eqb), (unique_values_NoDup String.eqb String.eqb_eq) |].
  intros e. unfold unused, wl, xl.
  rewrite (not_in_list_In String.eqb String.eqb_eq).
  rewrite !(unique_values_In String.eqb String.eqb_eq).
  rewrite Hin, Hnot. tauto.
Qed.

(* ================================================================== *)
(** * Missing fields                                                   *)
(* ================================================================== *)

Lemma In_log_here {A B : Type} (c : M A) (k : A -> M B) g m :
  In m (log (c g)) -> In m (log (bind c k g)).
Proof.
  intros H. destruct (log_bind_prefix c k g) as [l E]. rewrite E.
  apply in_or_app. now left.
Qed.

Lemma In_log_after_quiet {A : Type} (c : M unit) (k : M A) g m :
  quiet c -> In m (log (k g)) -> In m (log ((c ;;; k) g)).
Proof.
  intros Hc H. rewrite (log_quiet_then c k g Hc). apply in_or_app. now right.
Qed.

Lemma FieldExists_missing fields dataset field_name g :
  ~ In field_name fields ->
  In (missing_field_error dataset field_name) (log (FieldExists fields dataset field_name g)).
Proof.
  intros H. unfold FieldExists.
  replace (existsb (String.eqb field_name) fields) with false.
  - left. reflexivity.
  - symmetry. now apply (existsb_eqb_not_In String.eqb String.eqb_eq).
Qed.

Lemma In_log_after_runs {A B : Type} (c : M A) (k : A -> M B) g a g1 m :
  runs c g a g1 -> In m (log (k a g1)) -> In m (log (bind c k g)).
Proof.
  intros R H. rewrite (log_runs_bind c k g a g1 R). apply in_or_app. now right.
Qed.

(** X3.  A field that the data QC looks for and does not find is reported
    with the error message of [FieldExists].  The static-water-level
    script looks for its four fields before it checks the parameters, so
    that it reports each missing one whatever else is wrong with the
    inputs; the construction script looks for its three fields after the
    two parameter checks, and reports each missing one when the
    parameters are valid. *)
Theorem missing_field_is_reported (p : Params) (inp : Inputs) (g : Gdb) (field_name : string) :
  (In field_name ["elevation"; "measuremt"; "meas_elev"; "Data_Source"]%string ->
   ~ In field_name (wwpt_file_fields inp) ->
   In (missing_field_error (wwpt_file_name inp) field_name) (log (SWL.validate p inp g)) /\
   In (missing_field_error (wwpt_file_name inp) field_name) (log (SWL.run p inp g))) /\
  ((0 < buffer_dist p)%Z -> (0 < vertical_exaggeration p)%Z ->
   In field_name ["elev_top"; "elev_bot"; "OBJECTID"]%string ->
   ~ In field_name (conspy_table_fields inp) ->
   In (missing_field_error (conspy_table_name inp) field_name)
      (log (Conspys.validate p inp g)) /\
   In (missing_field_error (conspy_table_name inp) field_name)
      (log (Conspys.run p inp g))).
Proof.
  split.
  - intros Hf Hmiss.
    assert (V : In (missing_field_error (wwpt_file_name inp) field_name)
                   (log (SWL.validate p inp g))).
    { unfold SWL.validate.
      do 3 (apply In_log_after_quiet; [solve [auto with quiet] |]).
      destruct Hf as [E | [E | [E | [E | []]]]]; subst field_name.
      + apply In_log_here. now apply FieldExists_missing.
      + do 1 (apply In_log_after_quiet; [solve [auto with quiet] |]).
        apply In_log_here. now apply FieldExists_missing.
      + do 2 (apply In_log_after_quiet; [solve [auto with quiet] |]).
        apply In_log_here. now apply FieldExists_missing.
      + do 3 (apply In_log_after_quiet; [solve [auto with quiet] |]).
        apply In_log_here. now apply FieldExists_missing. }
    split; [exact V |]. unfold SWL.run. now apply In_log_here.
  - intros Hb Hv Hf Hmiss.
    assert (V : In (missing_field_error (conspy_table_name inp) field_name)
                   (log (Conspys.validate p inp g))).
    { unfold Conspys.validate.
      apply In_log_after_quiet; [solve [auto with quiet] |].
      eapply In_log_after_runs; [now apply check_buffer_dist_ok |].
      eapply In_log_after_runs; [now apply check_vertical_exaggeration_ok |].
      do 2 (apply In_log_after_quiet; [solve [auto with quiet] |]).
      destruct Hf as [E | [E | [E | []]]]; subst field_name.
      + apply In_log_here. now apply FieldExists_missing.
      + do 1 (apply In_log_after_quiet; [solve [auto with quiet] |]).
        apply In_log_here. now apply FieldExists_missing.
      + do 2 (apply In_log_after_quiet; [solve [auto with quiet] |]).
        apply In_log_here. now apply FieldExists_missing. }
    split; [exact V |]. unfold Conspys.run. now apply In_log_here.
Qed.

Lemma missing_field_is_reported_witness :
  In (missing_field_error "wwpt" "elevation") (log (SWL.run (mkParams 0 50) inputs1 empty_gdb)) /\
  In (missing_field_error "constr" "OBJECTID") (log (Conspys.run params1 inputs1 empty_gdb)).
Proof.
  split.
  - apply (missing_field_is_reported (mkParams 0 50) inputs1 empty_gdb "elevation"%string).
    + simpl. auto.
    + simpl. auto.
  - apply (missing_field_is_reported params1 inputs1 empty_gdb "OBJECTID"%string).
    + simpl. lia.
    + simpl. lia.
    + simpl. auto.
    + simpl. auto.
Defined.

(* ================================================================== *)
(** * The message of an exit                                           *)
(* ================================================================== *)

Lemma log_tail_runs {A B : Type} (Q : message -> Prop) (c : M A) (k : A -> M B) g a g1 tail :
  runs c g a g1 -> Forall Q (log (c g)) ->
  (exists l, log (k a g1) = l ++ tail /\ Forall Q l) ->
  exists l, log (bind c k g) = l ++ tail /\ Forall Q l.
Proof.
  intros Hc HQ [l [E Hl]]. exists (log (c g) ++ l). split.
  - rewrite (log_runs_bind c k g a g1 Hc), E. now rewrite app_assoc.
  - apply Forall_app. auto.
Qed.

Lemma log_tail_quiet {A : Type} (Q : message -> Prop) (c : M unit) (k : M A) g tail :
  quiet c -> prints_only Q c ->
  (exists l, log (k g) = l ++ tail /\ Forall Q l) ->
  exists l, log ((c ;;; k) g) = l ++ tail /\ Forall Q l.
Proof.
  intros Hc HQ H. eapply log_tail_runs; [apply Hc | apply HQ | exact H].
Qed.

Lemma log_tail_fails {A B : Type} (Q : message -> Prop) (c : M A) (k : A -> M B) g e g1 tail :
  fails c g e g1 -> log (c g) = tail ->
  exists l, log (bind c k g) = l ++ tail /\ Forall Q l.
Proof.
  intros Hc E. exists []. split; [| constructor].
  rewrite (log_fails_bind c k g e g1 Hc). exact E.
Qed.

Lemma prints_only_if {A : Type} Q (b : bool) (c1 c2 : M A) :
  prints_only Q c1 -> prints_only Q c2 -> prints_only Q (if b then c1 else c2).
Proof. destruct b; auto. Qed.

Lemma prints_only_printerror (Q : message -> Prop) t a :
  Q (mkMessage true t a) -> prints_only Q (printerror t a).
Proof. intros H g. cbn. constructor; [exact H | constructor]. Qed.

Lemma prints_only_ret {A : Type} Q (a : A) : prints_only Q (ret a).
Proof. now apply prints_only_silent. Qed.

Section QcMessages.

(** [Q] holds of every message that the QC prints without leaving. *)
Variable Q : message -> Prop.
Hypothesis Q_spatialref_unknown : forall a,
  Q (mkMessage true "{0} file has an unknown spatial reference. Continuing may result in errors." a).
Hypothesis Q_multipart : forall a,
  Q (mkMessage true "Warning: cross section file contains multipart features. Continuing may result in errors." a).
Hypothesis Q_missing : forall a, Q (mkMessage true "Error: {0} field does not exist in {1}." a).
Hypothesis Q_info : forall t a, Q (mkMessage false t a).

Lemma prints_only_set_spatialref inp : prints_only Q (set_spatialref inp).
Proof.
  unfold set_spatialref.
  apply prints_only_if; [apply prints_only_printerror | apply prints_only_printit]; auto.
Qed.

Lemma prints_only_check_multipart inp : prints_only Q (check_multipart inp).
Proof.
  unfold check_multipart.
  apply prints_only_if; [apply prints_only_printerror; auto | apply prints_only_ret].
Qed.

Lemma prints_only_FieldExists fields dataset field_name :
  prints_only Q (FieldExists fields dataset field_name).
Proof.
  unfold FieldExists.
  apply prints_only_if; [apply prints_only_ret | apply prints_only_printerror; auto].
Qed.

Lemma prints_only_check_etids l l' : prints_only Q (check_etids l l').
Proof.
  unfold check_etids. apply prints_only_bind.
  - apply prints_only_if; [apply prints_only_printit; auto | apply prints_only_ret].
  - intros _. apply prints_only_if; [apply prints_only_printit; auto | apply prints_only_ret].
Qed.

End QcMessages.

Lemma check_buffer_dist_log_ok p g : (0 < buffer_dist p)%Z -> log (check_buffer_dist p g) = [].
Proof.
  intros H. unfold check_buffer_dist.
  destruct (Z.leb_spec (buffer_dist p) 0); [lia | reflexivity].
Qed.

Lemma check_buffer_dist_log_exit p g :
  (buffer_dist p <= 0)%Z -> log (check_buffer_dist p g) = [mkMessage true buffer_error []].
Proof.
  intros H. unfold check_buffer_dist.
  destruct (Z.leb_spec (buffer_dist p) 0); [reflexivity | lia].
Qed.

Lemma check_vertical_exaggeration_log_ok p g :
  (0 < vertical_exaggeration p)%Z -> log (check_vertical_exaggeration p g) = [].
Proof.
  intros H. unfold check_vertical_exaggeration.
  destruct (Z.leb_spec (vertical_exaggeration p) 0); [lia | reflexivity].
Qed.

Lemma check_vertical_exaggeration_log_exit p g :
  (vertical_exaggeration p <= 0)%Z ->
  log (check_vertical_exaggeration p g) = [mkMessage true ve_error []].
Proof.
  intros H. unfold check_vertical_exaggeration.
  destruct (Z.leb_spec (vertical_exaggeration p) 0); [reflexivity | lia].
Qed.

Lemma check_count_log_ok {A : Type} (x : A) t error g : log (check_count (x :: t) error g) = [].
Proof.
  unfold check_count. cbn [List.length].
  destruct (Z.eqb_spec (Z.of_nat (S (List.length t))) 0); [lia | reflexivity].
Qed.

Lemma check_count_log_exit {A : Type} error g :
  log (check_count (@nil A) error g) = [mkMessage true error []].
Proof. reflexivity. Qed.

Ltac not_exit :=
  unfold not_exit_error; cbn [msg_template msg_is_error];
  unfold exit_errors, buffer_error, ve_error, conspy_empty_error,
    wwpt_empty_error, xsln_empty_error;
  let H := fresh in
  intros [_ H]; cbn [In] in H; decompose [or] H; try discriminate; try contradiction.

Lemma not_exit_error_info t a : not_exit_error (mkMessage false t a).
Proof. intros [H _]. discriminate. Qed.

Ltac qc_prints Q :=
  first [ apply (prints_only_set_spatialref Q)
        | apply (prints_only_check_multipart Q)
        | apply (prints_only_FieldExists Q)
        | apply (prints_only_check_etids Q)
        | apply prints_only_printit
        | apply prints_only_if; [apply prints_only_printit | apply prints_only_ret] ].

Ltac quiet_steps Q :=
  repeat (apply log_tail_quiet;
          [ first [ solve [auto with quiet] | apply quiet_if; solve [auto with quiet] ]
          | qc_prints Q; solve [auto]
          | ]).

Ltac pass_step ok log_ok :=
  eapply log_tail_runs; [ apply ok; assumption | rewrite log_ok by assumption; constructor | ].

Ltac pass_count :=
  eapply log_tail_runs; [ apply check_count_ok; discriminate | rewrite check_count_log_ok; constructor | ].

Lemma swl_exit_log p inp g e :
  swl_first_error p inp = Some e ->
  exists l, log (SWL.validate p inp g) = l ++ [mkMessage true e []] /\ Forall not_exit_error l.
Proof.
  assert (Q1 : forall a, not_exit_error (mkMessage true "{0} file has an unknown spatial reference. Continuing may result in errors." a)) by (intros a; not_exit).
  assert (Q2 : forall a, not_exit_error (mkMessage true "Warning: cross section file contains multipart features. Continuing may result in errors." a)) by (intros a; not_exit).
  assert (Q3 : forall a, not_exit_error (mkMessage true "Error: {0} field does not exist in {1}." a)) by (intros a; not_exit).
  pose proof not_exit_error_info as Q4.
  unfold swl_first_error, SWL.validate.
  destruct (Z.leb_spec (buffer_dist p) 0) as [Hb | Hb].
  { intros [= <-]. quiet_steps not_exit_error.
    eapply log_tail_fails; [now apply check_buffer_dist_exit | now apply check_buffer_dist_log_exit]. }
  destruct (Z.leb_spec (vertical_exaggeration p) 0) as [Hv | Hv].
  { intros [= <-]. quiet_steps not_exit_error.
    pass_step check_buffer_dist_ok check_buffer_dist_log_ok.
    eapply log_tail_fails; [now apply check_vertical_exaggeration_exit
                           | now apply check_vertical_exaggeration_log_exit]. }
  destruct (wwpt_file_orig inp) as [| w ws].
  { intros [= <-]. quiet_steps not_exit_error.
    pass_step check_buffer_dist_ok check_buffer_dist_log_ok.
    pass_step check_vertical_exaggeration_ok check_vertical_exaggeration_log_ok.
    eapply log_tail_fails; [now apply check_count_exit | apply check_count_log_exit]. }
  destruct (xsln_file_orig inp) as [| line ls]; [| discriminate].
  intros [= <-]. quiet_steps not_exit_error.
  pass_step check_buffer_dist_ok check_buffer_dist_log_ok.
  pass_step check_vertical_exaggeration_ok check_vertical_exaggeration_log_ok.
  pass_count.
  eapply log_tail_fails; [now apply check_count_exit | apply check_count_log_exit].
Qed.

Lemma conspys_exit_log p inp g e :
  conspys_first_error p inp = Some e ->
  exists l, log (Conspys.validate p inp g) = l ++ [mkMessage true e []] /\
            Forall not_exit_error l /\
            ((buffer_dist p <= 0)%Z \/ (vertical_exaggeration p <= 0)%Z ->
             l = log (set_spatialref inp g)).
Proof.
  assert (Q1 : forall a, not_exit_error (mkMessage true "{0} file has an unknown spatial reference. Continuing may result in errors." a)) by (intros a; not_exit).
  assert (Q2 : forall a, not_exit_error (mkMessage true "Warning: cross section file contains multipart features. Continuing may result in errors." a)) by (intros a; not_exit).
  assert (Q3 : forall a, not_exit_error (mkMessage true "Error: {0} field does not exist in {1}." a)) by (intros a; not_exit).
  pose proof not_exit_error_info as Q4.
  pose proof (prints_only_set_spatialref not_exit_error Q1 Q4 inp g) as HS.
  pose proof (quiet_set_spatialref inp) as QS.
  unfold conspys_first_error, Conspys.validate.
  destruct (Z.leb_spec (buffer_dist p) 0) as [Hb | Hb].
  { intros [= <-]. exists (log (set_spatialref inp g)).
    split; [| split; [exact HS | reflexivity]].
    rewrite (log_quiet_then _ _ g QS). f_equal.
    rewrite (log_fails_bind _ _ g SystemExit g (check_buffer_dist_exit p g Hb)).
    now apply check_buffer_dist_log_exit. }
  destruct (Z.leb_spec (vertical_exaggeration p) 0) as [Hv | Hv].
  { intros [= <-]. exists (log (set_spatialref inp g)).
    split; [| split; [exact HS | reflexivity]].
    rewrite (log_quiet_then _ _ g QS). f_equal.
    rewrite (log_runs_bind _ _ g tt g (check_buffer_dist_ok p g Hb)).
    rewrite (check_buffer_dist_log_ok p g Hb). cbn [app].
    rewrite (log_fails_bind _ _ g SystemExit g (check_vertical_exaggeration_exit p g Hv)).
    now apply check_vertical_exaggeration_log_exit. }
  intros He.
  assert (H : exists l, log ((set_spatialref inp ;;; check_buffer_dist p ;;;
                 check_vertical_exaggeration p ;;; check_multipart inp ;;;
                 printit "Checking that data tables have correct fields." [] ;;;
                 FieldExists (conspy_table_fields inp) (conspy_table_name inp) "elev_top" ;;;
                 FieldExists (conspy_table_fields inp) (conspy_table_name inp) "elev_bot" ;;;
                 FieldExists (conspy_table_fields inp) (conspy_table_name inp) "OBJECTID" ;;;
                 check_count (conspy_table inp) "Error: construction table is empty." ;;;
                 check_count (wwpt_file_orig inp) "Error: well location point file is empty." ;;;
                 check_count (xsln_file_orig inp) "Error: cross section line file is empty." ;;;
                 @ret unit tt) g) = l ++ [mkMessage true e []] /\ Forall not_exit_error l).
  { quiet_steps not_exit_error.
    pass_step check_buffer_dist_ok check_buffer_dist_log_ok.
    pass_step check_vertical_exaggeration_ok check_vertical_exaggeration_log_ok.
    quiet_steps not_exit_error.
    destruct (conspy_table inp) as [| c cs].
    { injection He as <-.
      eapply log_tail_fails; [now apply check_count_exit | apply check_count_log_exit]. }
    pass_count.
    destruct (wwpt_file_orig inp) as [| w ws].
    { injection He as <-.
      eapply log_tail_fails; [now apply check_count_exit | apply check_count_log_exit]. }
    pass_count.
    destruct (xsln_file_orig inp) as [| line ls]; [| discriminate].
    injection He as <-.
    eapply log_tail_fails; [now apply check_count_exit | apply check_count_log_exit]. }
  destruct H as [l [E Hl]]. exists l. split; [| split; [exact Hl | lia]].
  rewrite <- E. clear E.
  rewrite !(log_quiet_then _ _ g QS). f_equal.
  rewrite !(log_runs_bind _ _ g tt g (check_buffer_dist_ok p g Hb)). f_equal.
  rewrite !(log_runs_bind _ _ g tt g (check_vertical_exaggeration_ok p g Hv)). f_equal.
  rewrite !(log_quiet_then _ _ g (quiet_check_multipart inp)). f_equal.
  rewrite !(log_quiet_then _ _ g (quiet_printit _ _)). f_equal.
  rewrite !(log_quiet_then _ _ g (quiet_FieldExists _ _ _)). do 3 f_equal.
  destruct (conspy_table inp) as [| c cs]; [reflexivity |].
  rewrite !(log_runs_bind _ _ g tt g (check_count_ok (c :: cs) _ g ltac:(discriminate))). f_equal.
  destruct (wwpt_file_orig inp) as [| w ws]; [reflexivity |].
  rewrite !(log_runs_bind _ _ g tt g (check_count_ok (w :: ws) _ g ltac:(discriminate))). f_equal.
  destruct (xsln_file_orig inp) as [| line ls]; [reflexivity | discriminate].
Qed.

(** X4.  When the data QC makes a script exit, the last message printed is
    the error of the first check that fails, in the order of the script
    (buffer distance, vertical exaggeration, then the row counts), and no
    other exit error is printed; when no check fails the QC ends
    normally.  The construction script checks its two parameters before
    anything else: with an invalid parameter it prints the message on the
    spatial reference and the error, and nothing on the fields. *)
Theorem qc_first_failure (p : Params) (inp : Inputs) (g : Gdb) :
  match swl_first_error p inp with
  | Some e =>
      fails (SWL.run p inp) g SystemExit g /\
      exists l, log (SWL.run p inp g) = l ++ [mkMessage true e []] /\
                Forall not_exit_error l
  | None => exists flag, runs (SWL.validate p inp) g flag g
  end /\
  match conspys_first_error p inp with
  | Some e =>
      fails (Conspys.run p inp) g SystemExit g /\
      exists l, log (Conspys.run p inp g) = l ++ [mkMessage true e []] /\
                Forall not_exit_error l /\
                ((buffer_dist p <= 0)%Z \/ (vertical_exaggeration p <= 0)%Z ->
                 l = log (set_spatialref inp g))
  | None => exists flag, runs (Conspys.validate p inp) g flag g
  end.
Proof.
  split.
  - destruct (swl_first_error p inp) as [e |] eqn:E.
    + assert (Hf : fails (SWL.validate p inp) g SystemExit g).
      { destruct (swl_validate_cases p inp g) as [[flag [_ [Hb [Hv [Hw Hx]]]]] | [Hf _]];
          [| exact Hf].
        exfalso. unfold swl_first_error in E.
        destruct (Z.leb_spec (buffer_dist p) 0); [lia |].
        destruct (Z.leb_spec (vertical_exaggeration p) 0); [lia |].
        destruct (wwpt_file_orig inp); [congruence |].
        destruct (xsln_file_orig inp); [congruence | discriminate]. }
      split; [unfold SWL.run; now apply fails_bind_l |].
      unfold SWL.run. rewrite (log_fails_bind _ _ g SystemExit g Hf).
      now apply swl_exit_log.
    + destruct (swl_validate_cases p inp g) as [[flag [Hr _]] | [_ H]];
        [exists flag; exact Hr |].
      exfalso. unfold swl_first_error in E.
      destruct (Z.leb_spec (buffer_dist p) 0); [discriminate |].
      destruct (Z.leb_spec (vertical_exaggeration p) 0); [discriminate |].
      destruct (wwpt_file_orig inp); [discriminate |].
      destruct (xsln_file_orig inp); [discriminate |].
      destruct H as [H | [H | [H | H]]]; (lia || discriminate).
  - destruct (conspys_first_error p inp) as [e |] eqn:E.
    + assert (Hf : fails (Conspys.validate p inp) g SystemExit g).
      { destruct (conspys_validate_cases p inp g) as [[flag [_ [Hb [Hv [Hc [Hw Hx]]]]]] | [Hf _]];
          [| exact Hf].
        exfalso. unfold conspys_first_error in E.
        destruct (Z.leb_spec (buffer_dist p) 0); [lia |].
        destruct (Z.leb_spec (vertical_exaggeration p) 0); [lia |].
        destruct (conspy_table inp); [congruence |].
        destruct (wwpt_file_orig inp); [congruence |].
        destruct (xsln_file_orig inp); [congruence | discriminate]. }
      split; [unfold Conspys.run; now apply fails_bind_l |].
      unfold Conspys.run. rewrite (log_fails_bind _ _ g SystemExit g Hf).
      now apply conspys_exit_log.
    + destruct (conspys_validate_cases p inp g) as [[flag [Hr _]] | [_ H]];
        [exists flag; exact Hr |].
      exfalso. unfold conspys_first_error in E.
      destruct (Z.leb_spec (buffer_dist p) 0); [discriminate |].
      destruct (Z.leb_spec (vertical_exaggeration p) 0); [discriminate |].
      destruct (conspy_table inp); [discriminate |].
      destruct (wwpt_file_orig inp); [discriminate |].
      destruct (xsln_file_orig inp); [discriminate |].
      destruct H as [H | [H | [H | [H | H]]]]; (lia || discriminate).
Qed.

Lemma qc_first_failure_witness :
  fails (SWL.run (mkParams 0 50) inputs1) empty_gdb SystemExit empty_gdb /\
  log (Conspys.run (mkParams 2 0) inputs1 empty_gdb) =
    log (set_spatialref inputs1 empty_gdb) ++ [mkMessage true ve_error []].
Proof.
  destruct (qc_first_failure (mkParams 0 50) inputs1 empty_gdb) as [[H1 _] _].
  destruct (qc_first_failure (mkParams 2 0) inputs1 empty_gdb) as [_ [_ [l [H2 [_ H3]]]]].
  split; [exact H1 |]. rewrite <- H3; [exact H2 |]. right. simpl. lia.
Defined.

(* ================================================================== *)
(** * The data type of the well ids                                    *)
(* ================================================================== *)





(* ================================================================== *)
(** * A line of less than two vertices                                 *)
(* ================================================================== *)

Lemma xsln_loop_stops p l1 line l2 : forall g rows,
  Forall two_vertices l1 ->
  (List.length (xs_part0 line) < 2)%nat ->
  xsln_temp g = Some rows ->
  fails (for_each (l1 ++ line :: l2) tt (fun _ line =>
           let et_id := xs_etid line in
           new_xsln_geometry <- lift (extend_line (buffer_dist p) (xs_part0 line)) ;;
           insert_xsln_temp (mkXsLine new_xsln_geometry et_id false)))
        g IndexError
        (set_xsln_temp g (Some (rows ++ map (extended_line (buffer_dist p)) l1))).
Proof.
  induction l1 as [| l t IH]; intros g rows Hall Hshort Hrows.
  - cbn [app map for_each]. rewrite app_nil_r.
    replace (set_xsln_temp g (Some rows)) with g
      by (destruct g; cbn in *; now rewrite Hrows).
    apply fails_bind_l. cbn zeta. rewrite extend_line_short by exact Hshort.
    apply fails_bind_l. split; reflexivity.
  - inversion Hall as [| ? ? H2 Hall']; subst.
    cbn [app map for_each].
    destruct (extended_two_vertices (buffer_dist p) (xs_part0 l) H2) as [He _].
    eapply fails_bind_r.
    + cbn zeta. rewrite He. eapply runs_bind; [apply runs_lift |].
      unfold insert_xsln_temp. eapply runs_bind; [apply runs_rows_of; eassumption |].
      apply runs_modify.
    + replace (set_xsln_temp g (Some (rows ++ extended_line (buffer_dist p) l
                                          :: map (extended_line (buffer_dist p)) t)))
        with (set_xsln_temp
                (set_xsln_temp g (Some (rows ++ [mkXsLine (extended (buffer_dist p) (xs_part0 l))
                                                          (xs_etid l) false])))
                (Some ((rows ++ [extended_line (buffer_dist p) l])
                         ++ map (extended_line (buffer_dist p)) t))).
      * apply IH; [exact Hall' | exact Hshort | reflexivity].
      * unfold set_xsln_temp. cbn. now rewrite <- app_assoc.
Qed.

Lemma near_pipeline_stops {A : Type} (p : Params) (inp : Inputs) (k : M A) (g : Gdb) l1 line l2 :
  xsln_file_orig inp = l1 ++ line :: l2 ->
  Forall two_vertices l1 ->
  (List.length (xs_part0 line) < 2)%nat ->
  fails (create_wwpt_by_xs inp ;;; add_wwpt_fields inp ;;; create_xsln_temp p inp ;;;
         near_analysis p inp ;;; merge_wwpt ;;; k) g IndexError
        (mkGdb (swl_2d_xsecview g) (conspys_3d g) (conspys_2d_line g)
               (Some (wwpt_file_orig inp)) (Some [])
               (Some (map (extended_line (buffer_dist p)) l1)) (wwpt_merge g)).
Proof.
  intros Hx Hall Hshort.
  eapply fails_bind_r.
  { unfold create_wwpt_by_xs. apply runs_after_quiet; [apply quiet_printit |].
    eapply runs_bind; apply runs_modify. }
  apply fails_after_quiet; [apply quiet_add_wwpt_fields |].
  apply fails_bind_l. unfold create_xsln_temp.
  eapply fails_bind_r; [apply runs_modify |].
  apply fails_after_quiet; [apply quiet_printit |].
  rewrite Hx.
  match goal with |- fails _ ?g0 _ _ =>
    pose proof (xsln_loop_stops p l1 line l2 g0 [] Hall Hshort eq_refl) as H end.
  exact H.
Qed.

(** X6.  A cross-section line of less than two vertices stops either
    script with an IndexError in the extension loop, when the data QC has
    passed: the output feature classes have been created and are empty,
    the temporary copy of the well point file exists, [xsln_temp] holds
    the extensions of the lines before the short one, and no well has
    been projected. *)
Theorem short_line_stops_run (p : Params) (inp : Inputs) (g : Gdb)
  (l1 : list XsLine) (line : XsLine) (l2 : list XsLine) :
  (0 < buffer_dist p)%Z -> (0 < vertical_exaggeration p)%Z ->
  wwpt_file_orig inp <> [] ->
  xsln_file_orig inp = l1 ++ line :: l2 ->
  Forall two_vertices l1 ->
  (List.length (xs_part0 line) < 2)%nat ->
  fails (SWL.run p inp) g IndexError
        (mkGdb (Some []) (conspys_3d g) (conspys_2d_line g)
               (Some (wwpt_file_orig inp)) (Some [])
               (Some (map (extended_line (buffer_dist p)) l1)) (wwpt_merge g)) /\
  (conspy_table inp <> [] ->
   fails (Conspys.run p inp) g IndexError
         (mkGdb (swl_2d_xsecview g) (Some []) (Some [])
                (Some (wwpt_file_orig inp)) (Some [])
                (Some (map (extended_line (buffer_dist p)) l1)) (wwpt_merge g))).
Proof.
  intros Hb Hv Hw Hx Hall Hshort.
  assert (Hne : xsln_file_orig inp <> []) by (rewrite Hx; destruct l1; discriminate).
  split.
  - unfold SWL.run.
    destruct (swl_validate_cases p inp g) as [[flag [Hr _]] | [_ H]];
      [| exfalso; destruct H as [H | [H | [H | H]]]; (lia || contradiction)].
    eapply fails_bind_r; [exact Hr |].
    eapply fails_bind_r.
    { unfold SWL.create_pointfile. apply runs_after_quiet; [apply quiet_printit |].
      apply runs_modify. }
    exact (near_pipeline_stops p inp _ _ l1 line l2 Hx Hall Hshort).
  - intros Hc. unfold Conspys.run.
    destruct (conspys_validate_cases p inp g) as [[flag [Hr _]] | [_ H]];
      [| exfalso; destruct H as [H | [H | [H | [H | H]]]]; (lia || contradiction)].
    eapply fails_bind_r; [exact Hr |].
    eapply fails_bind_r.
    { unfold Conspys.create_polylinefiles. apply runs_after_quiet; [apply quiet_printit |].
      eapply runs_bind; [apply runs_modify |].
      apply runs_after_quiet; [apply quiet_printit |]. apply runs_modify. }
    exact (near_pipeline_stops p inp _ _ l1 line l2 Hx Hall Hshort).
Qed.

Lemma short_line_stops_run_witness :
  fails (SWL.run params1
           (mkInputs [well1] [] "wwpt" [lineA; mkXsLine [mkPoint 0 3] "B" false] "xsln"
                     "NAD83" [conspy1] [] "constr"))
        empty_gdb IndexError
        (mkGdb (Some []) None None (Some [well1]) (Some [])
               (Some [extended_line 2 lineA]) None).
Proof.
  apply (short_line_stops_run params1
           (mkInputs [well1] [] "wwpt" [lineA; mkXsLine [mkPoint 0 3] "B" false] "xsln"
                     "NAD83" [conspy1] [] "constr")
           empty_gdb [lineA] (mkXsLine [mkPoint 0 3] "B" false) []).
  - simpl. lia.
  - simpl. lia.
  - simpl. discriminate.
  - reflexivity.
  - repeat constructor.
  - simpl. lia.
Defined.

(* ================================================================== *)
(** * The length of the extended line                                  *)
(* ================================================================== *)

Lemma length_from_nonneg rest : forall a, 0 <= length_from a rest.
Proof.
  induction rest as [| b t IH]; intros a; cbn [length_from]; [lra |].
  pose proof (dist_nonneg a b). pose proof (IH b). lra.
Qed.

Lemma length_from_last mid : forall a pl ne,
  length_from a (mid ++ [ne]) =
  length_from a (mid ++ [pl]) - dist (last mid a) pl + dist (last mid a) ne.
Proof.
  induction mid as [| m t IH]; intros a pl ne.
  - cbn. lra.
  - cbn [app length_from]. rewrite (IH m pl ne). rewrite last_cons. lra.
Qed.

Lemma dist_past a p e : a <> p -> 0 <= e -> dist a (beyond a p e) = dist a p + e.
Proof. intros H He. exact (dist_back a p [a] H e He). Qed.

Lemma dist_two_ends p0 pl b :
  p0 <> pl -> 0 <= b -> dist (beyond pl p0 b) (beyond p0 pl b) = dist p0 pl + 2 * b.
Proof.
  intros H Hb.
  assert (H' : pl <> p0) by congruence.
  rewrite (beyond_far_along p0 pl b H). rewrite beyond_along.
  rewrite dist_along by (now apply dir_unit).
  pose proof (dist_nonneg pl p0). rewrite (dist_sym p0 pl).
  rewrite Rabs_left1 by lra. lra.
Qed.

Lemma extended_polyline_length b p0 body pl :
  0 <= b -> hd pl body <> p0 -> last body p0 <> pl ->
  polyline_length (beyond (hd pl body) p0 b :: body ++ [beyond (last body p0) pl b]) =
  polyline_length (p0 :: body ++ [pl]) + 2 * b.
Proof.
  intros Hb H1 H2. destruct body as [| h t].
  - cbn [hd last app polyline_length length_from] in *.
    rewrite dist_two_ends by (assumption || congruence). lra.
  - cbn [hd app polyline_length length_from] in *.
    rewrite (length_from_last t h pl).
    rewrite last_cons in H2 |- *.
    rewrite (dist_past (last t h) pl b H2 Hb).
    rewrite (dist_sym (beyond h p0 b) h), (dist_past h p0 b H1 Hb).
    rewrite (dist_sym p0 h). lra.
Qed.

(** X7.  The extension loop keeps the number of vertices of a line, and
    when the terminal segments of the line have distinct ends it makes
    the line longer by [buffer_dist] at each end: the length of the
    extended line is the length of the line plus twice [buffer_dist]. *)
Theorem extension_adds_two_buffers (b : Z) (pts : list Point) :
  (2 <= List.length pts)%nat ->
  exists E,
    extend_line b pts = Done E /\
    List.length E = List.length pts /\
    (forall p0 body pl,
       pts = p0 :: body ++ [pl] -> (0 <= b)%Z ->
       hd pl body <> p0 -> last body p0 <> pl ->
       polyline_length E = polyline_length pts + 2 * IZR b).
Proof.
  intros H. destruct (two_or_more pts H) as [p0 [body [pl E]]]. subst pts.
  eexists. split; [apply extend_line_spec |]. split.
  - cbn [List.length]. rewrite !length_app. reflexivity.
  - intros p0' body' pl' E Hb H1 H2.
    assert (E0 : p0' = p0) by (injection E; auto).
    assert (E1 : body' = body /\ pl' = pl).
    { injection E as _ E. apply app_inj_tail in E. destruct E; auto. }
    destruct E1 as [-> ->]. subst p0'.
    rewrite !pointFromAngleAndDistance_beyond by assumption.
    apply extended_polyline_length; [now apply IZR_le | assumption | assumption].
Qed.

Lemma extension_adds_two_buffers_witness :
  exists E,
    extend_line 2 [mkPoint 0 0; mkPoint 10 0] = Done E /\
    List.length E = 2%nat /\
    polyline_length E = polyline_length [mkPoint 0 0; mkPoint 10 0] + 2 * IZR 2.
Proof.
  destruct (extension_adds_two_buffers 2 [mkPoint 0 0; mkPoint 10 0]) as [E [H1 [H2 H3]]].
  - simpl. lia.
  - exists E. split; [exact H1 |]. split; [exact H2 |].
    apply (H3 (mkPoint 0 0) [] (mkPoint 10 0)).
    + reflexivity.
    + lia.
    + simpl. intros H. injection H as H. lra.
    + simpl. intros H. injection H as H. lra.
Defined.

(* ================================================================== *)
(** * The range of the position along the line                         *)
(* ================================================================== *)

Lemma on_segment_dist a b p : on_segment a b p -> dist a p <= dist a b.
Proof.
  intros [_ H]. unfold dist. apply sqrt_le_1; [apply dist2_nonneg | apply dist2_nonneg |].
  unfold dist2, sq.
  assert (E : (X b - X a) * (X b - X a) + (Y b - Y a) * (Y b - Y a) -
              ((X p - X a) * (X p - X a) + (Y p - Y a) * (Y p - Y a)) =
              (X b - X p) * (X b - X p) + (Y b - Y p) * (Y b - Y p) -
              2 * ((X p - X a) * (X p - X b) + (Y p - Y a) * (Y p - Y b))) by ring.
  pose proof (Rle_0_sqr (X b - X p)) as S1. pose proof (Rle_0_sqr (Y b - Y p)) as S2.
  unfold Rsqr in S1, S2. lra.
Qed.

Lemma measure_from_bounds rest : forall a p,
  0 <= measure_from a rest p <= length_from a rest.
Proof.
  induction rest as [| b t IH]; intros a p; cbn [measure_from length_from]; [lra |].
  pose proof (length_from_nonneg t b) as Hl. pose proof (dist_nonneg a b) as Hd.
  destruct (on_segment_dec a b p) as [Hon | Hoff].
  - pose proof (on_segment_dist a b p Hon). pose proof (dist_nonneg a p). lra.
  - pose proof (IH b p). lra.
Qed.

Lemma measureOnLine_bounds E p : 0 <= measureOnLine E p <= polyline_length E.
Proof.
  destruct E as [| a rest]; cbn [measureOnLine polyline_length]; [lra |].
  apply measure_from_bounds.
Qed.

(** X8.  On valid inputs both scripts leave the same rows in
    [wwpt_merge], and the position along the line of every such row is
    never less than [- buffer_dist] and never more than the length of the
    extended line less [buffer_dist]; for a line whose terminal segments
    have distinct ends this upper bound is the length of the line plus
    [buffer_dist]. *)
Theorem online_dist_range (p : Params) (inp : Inputs) (g : Gdb) :
  (swl_inputs_ok p inp ->
   exists g', runs (SWL.run p inp) g tt g' /\ wwpt_merge g' = Some (merged p inp)) /\
  (conspys_inputs_ok p inp ->
   exists nomatch_list g',
     runs (Conspys.run p inp) g nomatch_list g' /\ wwpt_merge g' = Some (merged p inp)) /\
  (forall w, In w (merged p inp) ->
   exists line,
     In line (xsln_file_orig inp) /\ xs_etid line = wp_etid (nw_well w) /\
     - IZR (buffer_dist p) <= nw_OnLine_DIST w <=
       polyline_length (extended (buffer_dist p) (xs_part0 line)) - IZR (buffer_dist p) /\
     (forall p0 body pl,
        xs_part0 line = p0 :: body ++ [pl] -> (0 <= buffer_dist p)%Z ->
        hd pl body <> p0 -> last body p0 <> pl ->
        nw_OnLine_DIST w <= polyline_length (xs_part0 line) + IZR (buffer_dist p))).
Proof.
  split; [| split].
  - intros Hok. eexists. split; [now apply swl_run_runs | reflexivity].
  - intros Hok. eexists. eexists. split; [now apply conspys_run_runs | reflexivity].
  - intros w Hw. destruct (merged_rows_spec p inp w Hw) as [line [H1 [H2 [H3 H4]]]].
    exists line. split; [exact H1 |]. split; [exact H2 |].
    pose proof (f_equal nw_OnLine_DIST H4) as Es. cbn [nw_OnLine_DIST near_well] in Es.
    match type of Es with _ = measureOnLine ?E ?n - _ =>
      pose proof (measureOnLine_bounds E n) as Hm end.
    split; [lra |].
    intros p0 body pl Ep Hb Hd1 Hd2. rewrite Ep in Hm, Es |- *.
    rewrite extended_spec in Hm, Es by assumption.
    rewrite extended_polyline_length in Hm by (try apply IZR_le; assumption).
    lra.
Qed.

Lemma online_dist_range_witness :
  (exists g', runs (SWL.run params1 inputs1) empty_gdb tt g' /\
              wwpt_merge g' = Some (merged params1 inputs1)) /\
  exists line,
    In line (xsln_file_orig inputs1) /\
    - IZR (buffer_dist params1) <= 1.5 <=
      polyline_length (extended (buffer_dist params1) (xs_part0 line)) -
      IZR (buffer_dist params1).
Proof.
  destruct (online_dist_range params1 inputs1 empty_gdb) as [R [_ H]].
  split.
  - apply R. unfold swl_inputs_ok. simpl.
    repeat split; try lia; try discriminate. repeat constructor.
  - destruct (H (mkNearWell well1 2 1.5 0 1.5)) as [line [H1 [_ [H2 _]]]].
    + rewrite merged_inputs1. left. reflexivity.
    + exists line. split; [exact H1 | exact H2].
Defined.

(* ================================================================== *)
(** * The well files of the lines                                      *)
(* ================================================================== *)

Lemma fd_put_keys fd et_id rows :
  map fst (fd_put fd et_id rows) = append_unique String.eqb (map fst fd) et_id.
Proof.
  induction fd as [| [k v] t IH]; [reflexivity |].
  cbn [fd_put map fst]. unfold append_unique. cbn [existsb].
  rewrite (String.eqb_sym et_id k).
  destruct (String.eqb k et_id) eqn:E; cbn [orb].
  - reflexivity.
  - cbn [map fst]. rewrite IH. unfold append_unique.
    destruct (existsb (String.eqb et_id) (map fst t)); reflexivity.
Qed.

Lemma by_xs_fold_keys b wells lines : forall fd,
  map fst (fold_left (by_xs_step b wells) lines fd) =
  fold_left (append_unique String.eqb) (map xs_etid lines) (map fst fd).
Proof.
  induction lines as [| line t IH]; intros fd; [reflexivity |].
  cbn [fold_left map]. rewrite IH. unfold by_xs_step at 1. now rewrite fd_put_keys.
Qed.

Lemma by_xs_keys b wells lines :
  map fst (by_xs b wells lines) = unique_values String.eqb (map xs_etid lines).
Proof. apply (by_xs_fold_keys b wells lines []). Qed.

Lemma fd_put_In fd et_id rows k v :
  NoDup (map fst fd) ->
  In (k, v) (fd_put fd et_id rows) ->
  (k = et_id /\ v = rows) \/ (k <> et_id /\ In (k, v) fd).
Proof.
  induction fd as [| [k0 v0] t IH]; intros Hnd Hin.
  - cbn in Hin. destruct Hin as [[= <- <-] | []]. now left.
  - cbn [fd_put] in Hin. cbn [map fst] in Hnd. inversion Hnd as [| ? ? Hk0 Hnd']; subst.
    destruct (String.eqb k0 et_id) eqn:E.
    + apply String.eqb_eq in E. subst k0.
      destruct Hin as [[= <- <-] | Hin]; [now left |].
      right. split; [| now right].
      intros ->. apply Hk0. apply in_map_iff. exists (et_id, v). auto.
    + apply String.eqb_neq in E.
      destruct Hin as [[= <- <-] | Hin].
      * right. split; [exact E | now left].
      * destruct (IH Hnd' Hin) as [H | [H1 H2]]; [now left | right; split; [exact H1 | now right]].
Qed.

Lemma by_xs_entries b wells lines k v :
  In (k, v) (by_xs b wells lines) ->
  exists l1 line l2,
    lines = l1 ++ line :: l2 /\ xs_etid line = k /\
    (forall l, In l l2 -> xs_etid l <> k) /\
    v = map (near_well b (xs_part0 line)) (Select wells k).
Proof.
  revert k v. induction lines as [| x ls IH] using rev_ind; intros k v Hin.
  - destruct Hin.
  - unfold by_xs in Hin. rewrite fold_left_app in Hin. cbn [fold_left] in Hin.
    fold (by_xs b wells ls) in Hin. unfold by_xs_step in Hin.
    apply fd_put_In in Hin.
    + destruct Hin as [[-> ->] | [Hk Hin]].
      * exists ls, x, []. split; [reflexivity |]. split; [reflexivity |].
        split; [intros l [] | reflexivity].
      * destruct (IH k v Hin) as (l1 & line & l2 & E & H1 & H2 & H3).
        exists l1, line, (l2 ++ [x]). split; [rewrite E, <- app_assoc; reflexivity |].
        split; [exact H1 |]. split; [| exact H3].
        intros l Hl. apply in_app_or in Hl. destruct Hl as [Hl | [<- | []]]; auto.
    + rewrite by_xs_keys. apply (unique_values_NoDup String.eqb String.eqb_eq).
Qed.

Lemma In_merged_entry (fd : list (string * list NearWell)) w :
  In w (List.concat (map snd fd)) -> exists k v, In (k, v) fd /\ In w v.
Proof.
  intros H. apply in_concat in H. destruct H as [v [Hv Hw]].
  apply in_map_iff in Hv. destruct Hv as [[k v'] [E Hkv]]. cbn in E. subst v'.
  exists k, v. auto.
Qed.

Lemma merged_last_line p inp w :
  In w (merged p inp) -> projected_on_last (buffer_dist p) (xsln_file_orig inp) w.
Proof.
  intros Hw. unfold merged in Hw.
  destruct (In_merged_entry _ w Hw) as [k [v [Hkv Hin]]].
  destruct (by_xs_entries _ _ _ k v Hkv) as (l1 & line & l2 & E & H1 & H2 & H3).
  subst v. apply in_map_iff in Hin. destruct Hin as [w0 [Ew Hw0]].
  unfold Select in Hw0. apply filter_In in Hw0. destruct Hw0 as [_ He].
  apply String.eqb_eq in He.
  assert (Enw : nw_well w = w0) by (rewrite <- Ew; reflexivity).
  apply map_eq_app in E. destruct E as (m1 & m2 & E & Em1 & Em2).
  destruct m2 as [| line0 m2]; [discriminate |]. cbn [map] in Em2.
  injection Em2 as Eline Em2. subst line.
  exists m1, line0, m2. split; [exact E |].
  cbn [extended_line xs_etid xs_part0] in *.
  split; [congruence |]. split.
  - intros l Hl. rewrite Enw, He. intros El. apply (H2 (extended_line (buffer_dist p) l)).
    + rewrite <- Em2. now apply in_map.
    + cbn [extended_line xs_etid]. congruence.
  - rewrite Enw, <- Ew. reflexivity.
Qed.

(** X9.  When several cross-section lines carry the same et_id, the well
    file written for the earlier line is overwritten, so that every row
    of [wwpt_merge] has been projected on the last line of the file that
    carries the et_id of its well. *)
Theorem last_line_of_an_etid_wins (p : Params) (inp : Inputs) (g : Gdb) :
  (swl_inputs_ok p inp ->
   exists g' rows,
     runs (SWL.run p inp) g tt g' /\ wwpt_merge g' = Some rows /\
     Forall (projected_on_last (buffer_dist p) (xsln_file_orig inp)) rows) /\
  (conspys_inputs_ok p inp ->
   exists nomatch_list g' rows,
     runs (Conspys.run p inp) g nomatch_list g' /\ wwpt_merge g' = Some rows /\
     Forall (projected_on_last (buffer_dist p) (xsln_file_orig inp)) rows).
Proof.
  assert (H : Forall (projected_on_last (buffer_dist p) (xsln_file_orig inp)) (merged p inp)).
  { apply Forall_forall. intros w. apply merged_last_line. }
  split; intros Hok.
  - eexists. exists (merged p inp). split; [now apply swl_run_runs |].
    split; [reflexivity | exact H].
  - eexists. eexists. exists (merged p inp). split; [now apply conspys_run_runs |].
    split; [reflexivity | exact H].
Qed.

Lemma last_line_of_an_etid_wins_witness :
  exists g' rows,
    runs (SWL.run params1 inputs3) empty_gdb tt g' /\ wwpt_merge g' = Some rows /\
    Forall (projected_on_last (buffer_dist params1) (xsln_file_orig inputs3)) rows /\
    xsln_file_orig inputs3 = [lineA; lineA2] /\ xs_etid lineA = xs_etid lineA2 /\
    rows = [near_well 2 (extended 2 (xs_part0 lineA2)) well1] /\
    nw_OnLine_DIST (near_well 2 (extended 2 (xs_part0 lineA2)) well1) = 0.5 /\
    nw_OnLine_DIST (near_well 2 (extended 2 (xs_part0 lineA)) well1) = 1.5.
Proof.
  destruct (proj1 (last_line_of_an_etid_wins params1 inputs3 empty_gdb))
    as (g' & rows & R & Hm & HF).
  - unfold swl_inputs_ok. simpl.
    repeat split; try lia; try discriminate. repeat constructor.
  - exists g', rows. split; [exact R |]. split; [exact Hm |]. split; [exact HF |].
    split; [reflexivity |]. split; [reflexivity |].
    assert (E : rows = [near_well 2 (extended 2 (xs_part0 lineA2)) well1]).
    { destruct R as [_ <-]. cbn in Hm. now injection Hm as <-. }
    split; [exact E |].
    cbn [lineA lineA2 xs_part0].
    rewrite !near_well_horizontal; cbn [well1 wp_shape X Y nw_OnLine_DIST]; try lra; try lia.
Defined.

(* ================================================================== *)
(** * The position of a well along its line                          *)
(* ================================================================== *)

(** Two splits of a list at the last element with a given key agree. *)
Lemma last_split_unique {A K : Type} (key : A -> K) (k : K) (l1 : list A) :
  forall a l2 m1 a' m2,
    l1 ++ a :: l2 = m1 ++ a' :: m2 ->
    key a = k -> (forall x, In x l2 -> key x <> k) ->
    key a' = k -> (forall x, In x m2 -> key x <> k) ->
    a = a'.
Proof.
  induction l1 as [| x l1 IH]; intros a l2 m1 a' m2 E Ha Hl Ha' Hm.
  - destruct m1 as [| y m1]; cbn in E.
    + now injection E.
    + injection E as -> ->. exfalso. apply (Hl a'); [| exact Ha'].
      apply in_or_app. right. now left.
  - destruct m1 as [| y m1]; cbn in E.
    + injection E as <- <-. exfalso. apply (Hm a); [| exact Ha].
      apply in_or_app. right. now left.
    + injection E as _ E. now apply (IH a l2 m1 a' m2).
Qed.

(** The rows of [wwpt_merge] of the wells of a line that no later line
    of the file shadows: one row per well, computed on that line. *)
Lemma merged_on_last_line p inp l1 line l2 w0 :
  xsln_file_orig inp = l1 ++ line :: l2 ->
  (forall l, In l l2 -> xs_etid l <> xs_etid line) ->
  In w0 (wwpt_file_orig inp) -> wp_etid w0 = xs_etid line ->
  let w := near_well (buffer_dist p) (extended (buffer_dist p) (xs_part0 line)) w0 in
  In w (merged p inp) /\
  (forall w', In w' (merged p inp) -> nw_well w' = w0 -> w' = w).
Proof.
  intros E Hl Hw He w.
  assert (U : forall w', In w' (merged p inp) -> nw_well w' = w0 -> w' = w).
  { intros w' Hin Hw'. destruct (merged_last_line p inp w' Hin) as (m1 & line' & m2 & E' & H1 & H2 & H3).
    rewrite E in E'. rewrite Hw' in H1, H2, H3.
    assert (El : line = line').
    { apply (last_split_unique xs_etid (wp_etid w0) l1 line l2 m1 line' m2 E');
        [now symmetry | | exact H1 | exact H2].
      intros x Hx. rewrite He. now apply Hl. }
    subst line'. exact H3. }
  split; [| exact U].
  destruct (merged_complete p inp w0 Hw) as [line' [_ [_ Hin]]].
  { exists line. split; [| now symmetry]. rewrite E. apply in_or_app. right. now left. }
  rewrite <- (U _ Hin eq_refl). exact Hin.
Qed.

Lemma beyond_horizontal_front x0 x1 c d :
  x0 < x1 -> beyond (mkPoint x1 c) (mkPoint x0 c) d = mkPoint (x0 - d) c.
Proof.
  intros H. unfold beyond. rewrite dist_horizontal. rewrite Rabs_left by lra.
  apply point_eq; cbn [X Y]; field; lra.
Qed.

Lemma beyond_horizontal_back x0 x1 c d :
  x0 < x1 -> beyond (mkPoint x0 c) (mkPoint x1 c) d = mkPoint (x1 + d) c.
Proof.
  intros H. unfold beyond. rewrite dist_horizontal. rewrite Rabs_right by lra.
  apply point_eq; cbn [X Y]; field; lra.
Qed.

Lemma merged_inputs3 :
  merged params1 inputs3 = [mkNearWell well1 2 1.5 0 0.5].
Proof.
  assert (E : merged params1 inputs3 =
              [near_well 2 (extended 2 [mkPoint 1 0; mkPoint 11 0]) well1]) by reflexivity.
  rewrite E. rewrite near_well_horizontal; cbn [well1 wp_shape X Y]; try lra; try lia.
  f_equal. f_equal; [rewrite Rabs_left by lra; lra | lra].
Qed.

Lemma inputs3_ok : conspys_inputs_ok params1 inputs3.
Proof.
  unfold conspys_inputs_ok, swl_inputs_ok. cbn.
  repeat split; try lia; try discriminate.
  repeat constructor.
Qed.

Lemma merged_inputs4 :
  merged params1 inputs4 =
  [mkNearWell well_before 2 (-1) 0 (-1); mkNearWell well1 2 1.5 0 1.5;
   mkNearWell well_beyond 2 11 0 11].
Proof.
  assert (E : merged params1 inputs4 =
              map (near_well 2 (extended 2 [mkPoint 0 0; mkPoint 10 0]))
                  [well_before; well1; well_beyond]) by reflexivity.
  rewrite E. cbn [map].
  rewrite !near_well_horizontal;
    cbn [well_before well1 well_beyond wp_shape X Y]; try lra; try lia.
  replace (Rabs (0 - 2)) with 2 by (rewrite Rabs_left by lra; lra).
  replace (-1 - 0) with (-1) by lra. replace (1.5 - 0) with 1.5 by lra.
  replace (11 - 0) with 11 by lra. reflexivity.
Qed.

Lemma inputs4_ok : conspys_inputs_ok params1 inputs4.
Proof.
  unfold conspys_inputs_ok, swl_inputs_ok. cbn.
  repeat split; try lia; try discriminate.
  repeat constructor.
Qed.

(** C1, as stated, fails for a line that a later line of the file
    shadows.  Lines A and A2 both carry the et_id of the well of the
    sample data, which lies at 1.5 m along the extension of line A; the
    near analysis of line A2 overwrites the well file of line A, and the
    only row of [wwpt_merge] gives the position 0.5 m, measured on
    line A2. *)
Lemma C1_counterexample :
  exists g' w,
    runs (SWL.run params1 inputs3) empty_gdb tt g' /\
    wwpt_merge g' = Some [w] /\ nw_well w = well1 /\
    In well1 (wwpt_file_orig inputs3) /\
    In lineA (xsln_file_orig inputs3) /\ two_vertices lineA /\
    xs_etid lineA = wp_etid well1 /\
    (let E := extended (buffer_dist params1) (xs_part0 lineA) in
     measureOnLine E (nearest E (wp_shape well1)) - IZR (buffer_dist params1) = 1.5) /\
    nw_OnLine_DIST w = 0.5.
Proof.
  eexists. eexists. split; [apply swl_run_runs, inputs3_ok |].
  cbn [wwpt_merge set_swl_2d_xsecview after_merge].
  rewrite merged_inputs3. split; [reflexivity |]. split; [reflexivity |].
  split; [now left |]. split; [now left |]. split; [unfold two_vertices; cbn; lia |].
  split; [reflexivity |]. split; [| reflexivity].
  cbn zeta. cbn [lineA xs_part0 well1 wp_shape params1 buffer_dist].
  rewrite extended_horizontal by lra. rewrite nearest_horizontal by lra.
  rewrite measure_horizontal by lra. lra.
Qed.

(** C1 (amended).  On valid inputs both scripts end normally with the
    same [wwpt_merge], and every row of it is a well of the input,
    projected on the last line of the file that carries the et_id of the
    well.  Let P be a line of at least two vertices that no later line
    of the file shadows (every line, when the et_ids of the lines are
    distinct), and Q a well with the et_id of P.  Then [wwpt_merge] holds
    one row for Q; its near point N is the point nearest to Q on E, the
    line P with both terminal segments extended by [buffer_dist] (when
    these have distinct ends), and its OnLine_DIST is the measure of N
    along E less [buffer_dist].  N lies before the first vertex of P, on
    P, or beyond the last vertex of P.  The position s counts from the
    original first vertex: it is the measure along P when N is on P, it
    is [- e < 0] when N lies [e] before the first vertex, and it is
    [length P + e > length P] when N lies [e] beyond the last vertex (and
    the line does not pass through N earlier).  Nothing clamps s. *)
Theorem C1_position_along_extended_line (p : Params) (inp : Inputs) (g : Gdb) :
  (swl_inputs_ok p inp ->
   exists g', runs (SWL.run p inp) g tt g' /\ wwpt_merge g' = Some (merged p inp)) /\
  (conspys_inputs_ok p inp ->
   exists nomatch_list g',
     runs (Conspys.run p inp) g nomatch_list g' /\ wwpt_merge g' = Some (merged p inp)) /\
  (forall w, In w (merged p inp) ->
     In (nw_well w) (wwpt_file_orig inp) /\
     projected_on_last (buffer_dist p) (xsln_file_orig inp) w) /\
  (forall l1 line l2 p0 body pl w0,
     xsln_file_orig inp = l1 ++ line :: l2 ->
     (forall l, In l l2 -> xs_etid l <> xs_etid line) ->
     xs_part0 line = p0 :: body ++ [pl] ->
     (0 <= buffer_dist p)%Z ->
     In w0 (wwpt_file_orig inp) -> wp_etid w0 = xs_etid line ->
     exists w,
       In w (merged p inp) /\ nw_well w = w0 /\
       (forall w', In w' (merged p inp) -> nw_well w' = w0 -> w' = w) /\
       let b := IZR (buffer_dist p) in
       let P := xs_part0 line in
       let E := extended (buffer_dist p) P in
       let Q := wp_shape w0 in
       let N := mkPoint (nw_NEAR_X w) (nw_NEAR_Y w) in
       let s := nw_OnLine_DIST w in
       N = nearest E Q /\ on_polyline E N /\
       (forall n, on_polyline E n -> dist Q N <= dist Q n) /\
       s = measureOnLine E N - b /\
       (hd pl body <> p0 -> last body p0 <> pl ->
        let new_beg := beyond (hd pl body) p0 b in
        let new_end := beyond (last body p0) pl b in
        E = new_beg :: body ++ [new_end] /\
        dist p0 new_beg = b /\ dist pl new_end = b /\
        ((exists e, 0 < e <= b /\ N = beyond (hd pl body) p0 e) \/
         on_polyline P N \/
         (exists e, 0 < e <= b /\ N = beyond (last body p0) pl e)) /\
        (on_polyline P N -> (on_segment new_beg p0 N -> N = p0) ->
         s = measureOnLine P N) /\
        (forall e, 0 < e <= b -> N = beyond (hd pl body) p0 e -> s = - e /\ s < 0) /\
        (forall e, 0 < e <= b -> N = beyond (last body p0) pl e ->
           ~ on_polyline P N -> ~ on_segment new_beg p0 N ->
           s = polyline_length P + e /\ s > polyline_length P))).
Proof.
  split; [| split; [| split]].
  - intros Hok. eexists. split; [now apply swl_run_runs | reflexivity].
  - intros Hok. eexists. eexists. split; [now apply conspys_run_runs | reflexivity].
  - intros w Hw. split; [| now apply merged_last_line].
    destruct (merged_rows_spec p inp w Hw) as [line [_ [_ [H _]]]]. exact H.
  - intros l1 line l2 p0 body pl w0 El Hlast Ep Hb Hw0 He. apply IZR_le in Hb.
    destruct (merged_on_last_line p inp l1 line l2 w0 El Hlast Hw0 He) as [Hin Huniq].
    exists (near_well (buffer_dist p) (extended (buffer_dist p) (xs_part0 line)) w0).
    split; [exact Hin |]. split; [reflexivity |]. split; [exact Huniq |].
    assert (H2v : (2 <= List.length (xs_part0 line))%nat).
    { rewrite Ep. cbn [List.length]. rewrite length_app. cbn [List.length]. lia. }
    destruct (near_well_fields (buffer_dist p) (extended (buffer_dist p) (xs_part0 line)) w0)
      as [F1 [F2 F3]].
    pose proof (nearest_on_polyline (extended (buffer_dist p) (xs_part0 line))
                  (wp_shape w0) (extended_length _ _ H2v)) as Hon.
    rewrite <- F1 in Hon.
    cbn zeta. split; [exact F1 |]. split; [exact Hon |].
    split; [intros n Hn; rewrite F1; now apply nearest_min |].
    split; [exact F3 |].
    intros Hd1 Hd2. rewrite Ep. rewrite extended_spec by assumption.
    rewrite Ep in F3, Hon. rewrite extended_spec in F3, Hon by assumption.
    split; [reflexivity |].
    split; [now apply dist_beyond |]. split; [now apply dist_beyond |].
    split; [now apply (extended_parts (IZR (buffer_dist p))) |].
    split; [| split].
    + intros Hp Hfront. rewrite F3. now apply measure_on_original.
    + intros e He' HN. rewrite F3, HN.
      rewrite measure_front; [lra | lra | assumption | assumption | lra].
    + intros e He' HN Hoff Hfront. rewrite F3. rewrite HN in *.
      assert (M := measure_back (IZR (buffer_dist p)) p0 pl body Hb Hd1 Hd2 e
                     (conj (Rlt_le _ _ (proj1 He')) (proj2 He')) Hoff Hfront).
      lra.
Qed.

Lemma C1_position_along_extended_line_witness :
  (exists g', runs (SWL.run params1 inputs4) empty_gdb tt g' /\
              wwpt_merge g' = Some (merged params1 inputs4)) /\
  (exists nomatch_list g',
     runs (Conspys.run params1 inputs4) empty_gdb nomatch_list g' /\
     wwpt_merge g' = Some (merged params1 inputs4)) /\
  (exists w, In w (merged params1 inputs4) /\ nw_well w = well_before /\
             nw_OnLine_DIST w = - 1 /\ nw_OnLine_DIST w < 0) /\
  (exists w, In w (merged params1 inputs4) /\ nw_well w = well1 /\
             nw_OnLine_DIST w =
               measureOnLine (xs_part0 lineA) (mkPoint (nw_NEAR_X w) (nw_NEAR_Y w))) /\
  (exists w, In w (merged params1 inputs4) /\ nw_well w = well_beyond /\
             nw_OnLine_DIST w = polyline_length (xs_part0 lineA) + 1 /\
             nw_OnLine_DIST w > polyline_length (xs_part0 lineA)).
Proof.
  assert (D1 : hd (mkPoint 10 0) [] <> mkPoint 0 0) by (cbn; intros C; inversion C; lra).
  assert (D2 : last [] (mkPoint 0 0) <> mkPoint 10 0) by (cbn; intros C; inversion C; lra).
  assert (L : forall l, In l [lineB] -> xs_etid l <> xs_etid lineA).
  { intros l [<- | []]. cbn. discriminate. }
  assert (B : (0 <= buffer_dist params1)%Z) by (cbn; lia).
  destruct (C1_position_along_extended_line params1 inputs4 empty_gdb) as [R1 [R2 [_ H]]].
  split; [apply R1, inputs4_ok |]. split; [apply R2, inputs4_ok |].
  split; [| split].
  - destruct (H [] lineA [lineB] (mkPoint 0 0) [] (mkPoint 10 0) well_before
                eq_refl L eq_refl B (or_introl eq_refl) eq_refl)
      as (w & Hin & Hw & _ & HN & _ & _ & _ & Hrest).
    destruct (Hrest D1 D2) as (_ & _ & _ & _ & _ & Hfront & _).
    exists w. split; [exact Hin |]. split; [exact Hw |].
    destruct (Hfront 1) as [S1 S2]; [cbn [params1 buffer_dist]; lra | | split; lra].
    rewrite HN. cbn [lineA xs_part0 well_before wp_shape params1 buffer_dist hd].
    rewrite extended_horizontal by lra. rewrite nearest_horizontal by lra.
    rewrite beyond_horizontal_front by lra. f_equal. lra.
  - destruct (H [] lineA [lineB] (mkPoint 0 0) [] (mkPoint 10 0) well1
                eq_refl L eq_refl B (or_intror (or_introl eq_refl)) eq_refl)
      as (w & Hin & Hw & _ & HN & _ & _ & _ & Hrest).
    destruct (Hrest D1 D2) as (_ & _ & _ & _ & Hon & _ & _).
    exists w. split; [exact Hin |]. split; [exact Hw |].
    assert (EN : mkPoint (nw_NEAR_X w) (nw_NEAR_Y w) = mkPoint 1.5 0).
    { rewrite HN. cbn [lineA xs_part0 well1 wp_shape params1 buffer_dist].
      rewrite extended_horizontal by lra. now rewrite nearest_horizontal by lra. }
    apply Hon; rewrite EN.
    + cbn [lineA xs_part0 on_polyline on_polyline_from]. left.
      unfold on_segment. cbn [X Y]. split; lra.
    + cbn [hd params1 buffer_dist]. rewrite beyond_horizontal_front by lra.
      intros [_ C]. exfalso. cbn [X Y] in C. lra.
  - destruct (H [] lineA [lineB] (mkPoint 0 0) [] (mkPoint 10 0) well_beyond
                eq_refl L eq_refl B (or_intror (or_intror (or_introl eq_refl))) eq_refl)
      as (w & Hin & Hw & _ & HN & _ & _ & _ & Hrest).
    destruct (Hrest D1 D2) as (_ & _ & _ & _ & _ & _ & Hback).
    exists w. split; [exact Hin |]. split; [exact Hw |].
    assert (EN : mkPoint (nw_NEAR_X w) (nw_NEAR_Y w) = mkPoint 11 0).
    { rewrite HN. cbn [lineA xs_part0 well_beyond wp_shape params1 buffer_dist].
      rewrite extended_horizontal by lra. now rewrite nearest_horizontal by lra. }
    destruct (Hback 1) as [S1 S2];
      [cbn [params1 buffer_dist]; lra | | | | split; [exact S1 | exact S2]]; rewrite EN.
    + cbn [last]. rewrite beyond_horizontal_back by lra. f_equal. lra.
    + cbn [lineA xs_part0 on_polyline on_polyline_from]. intros [[_ C] | []].
      cbn [X Y] in C. lra.
    + cbn [hd params1 buffer_dist]. rewrite beyond_horizontal_front by lra.
      intros [_ C]. cbn [X Y] in C. lra.
Defined.

(* ================================================================== *)
(** * The percent distance                                           *)
(* ================================================================== *)



(* ================================================================== *)
(** * The wells of the merged file                                     *)
(* ================================================================== *)

Lemma fd_put_Forall (Q : string * list NearWell -> Prop) fd et_id rows :
  Forall Q fd -> (forall k, k = et_id -> Q (k, rows)) -> Forall Q (fd_put fd et_id rows).
Proof.
  intros Hfd Hnew. induction Hfd as [| [k v] t Hkv Ht IH]; cbn [fd_put].
  - constructor; [now apply Hnew | constructor].
  - destruct (String.eqb k et_id) eqn:E.
    + apply String.eqb_eq in E. constructor; [now apply Hnew | exact Ht].
    + constructor; [exact Hkv | exact IH].
Qed.

Lemma by_xs_fold_wells b wells lines : forall fd,
  Forall (fun kv => map nw_well (snd kv) = Select wells (fst kv)) fd ->
  Forall (fun kv => map nw_well (snd kv) = Select wells (fst kv))
         (fold_left (by_xs_step b wells) lines fd).
Proof.
  induction lines as [| line t IH]; intros fd Hfd; [exact Hfd |].
  cbn [fold_left]. apply IH. unfold by_xs_step. apply fd_put_Forall; [exact Hfd |].
  intros k ->. cbn [fst snd]. rewrite map_map. cbn [near_well nw_well]. apply map_id.
Qed.

Lemma merged_wells_by_key (wells : list WellPoint) (fd : list (string * list NearWell)) :
  Forall (fun kv => map nw_well (snd kv) = Select wells (fst kv)) fd ->
  map nw_well (List.concat (map snd fd)) = flat_map (Select wells) (map fst fd).
Proof.
  intros H. induction H as [| [k v] t Hkv Ht IH]; [reflexivity |].
  cbn [map snd fst List.concat flat_map]. rewrite map_app, IH. cbn [fst snd] in Hkv.
  now rewrite Hkv.
Qed.

Lemma Select_cons w t k :
  Select (w :: t) k = if String.eqb (wp_etid w) k then w :: Select t k else Select t k.
Proof. reflexivity. Qed.

Lemma flat_map_Select_skip w t ks :
  ~ In (wp_etid w) ks -> flat_map (Select (w :: t)) ks = flat_map (Select t) ks.
Proof.
  induction ks as [| k ks' IH]; intros H; [reflexivity |].
  cbn [flat_map]. rewrite IH by (intros Hin; apply H; now right).
  rewrite Select_cons.
  destruct (String.eqb_spec (wp_etid w) k) as [E | E]; [| reflexivity].
  exfalso. apply H. now left.
Qed.

Lemma Select_groups wells : forall ks,
  NoDup ks ->
  Permutation (flat_map (Select wells) ks)
              (filter (fun w => existsb (String.eqb (wp_etid w)) ks) wells).
Proof.
  induction wells as [| w t IH]; intros ks Hnd.
  - cbn [filter]. replace (flat_map (Select []) ks) with (@nil WellPoint); [constructor |].
    symmetry. induction ks as [| k ks' IHk]; [reflexivity |].
    cbn [flat_map]. inversion Hnd; subst. now rewrite IHk.
  - cbn [filter]. destruct (existsb (String.eqb (wp_etid w)) ks) eqn:E.
    + apply (existsb_eqb_In String.eqb String.eqb_eq) in E.
      apply in_split in E. destruct E as [ks1 [ks2 E]]. subst ks.
      assert (H1 : ~ In (wp_etid w) ks1 /\ ~ In (wp_etid w) ks2).
      { apply NoDup_remove_2 in Hnd. split; intros H; apply Hnd; apply in_or_app; auto. }
      destruct H1 as [H1 H2].
      pose proof (IH (ks1 ++ wp_etid w :: ks2) Hnd) as IH'.
      rewrite flat_map_app in IH' |- *. cbn [flat_map] in IH' |- *.
      rewrite !flat_map_Select_skip by assumption.
      rewrite Select_cons, String.eqb_refl. cbn [app].
      eapply Permutation_trans; [apply Permutation_sym, Permutation_middle |].
      now constructor.
    + apply (existsb_eqb_not_In String.eqb String.eqb_eq) in E.
      rewrite flat_map_Select_skip by assumption. now apply IH.
Qed.

Lemma has_line_unique lines w :
  existsb (String.eqb (wp_etid w)) (unique_values String.eqb (map xs_etid lines)) =
  has_line lines w.
Proof.
  unfold has_line.
  destruct (existsb (fun line => String.eqb (xs_etid line) (wp_etid w)) lines) eqn:E.
  - apply (existsb_eqb_In String.eqb String.eqb_eq).
    apply (unique_values_In String.eqb String.eqb_eq).
    apply existsb_exists in E. destruct E as [line [Hl E]]. apply String.eqb_eq in E.
    apply in_map_iff. exists line. auto.
  - apply (existsb_eqb_not_In String.eqb String.eqb_eq).
    rewrite (unique_values_In String.eqb String.eqb_eq).
    intros H. apply in_map_iff in H. destruct H as [line [El Hl]].
    assert (T : existsb (fun line => String.eqb (xs_etid line) (wp_etid w)) lines = true).
    { apply existsb_exists. exists line. split; [exact Hl | now apply String.eqb_eq]. }
    congruence.
Qed.

Lemma merged_wells p inp :
  Permutation (map nw_well (merged p inp))
              (filter (has_line (xsln_file_orig inp)) (wwpt_file_orig inp)).
Proof.
  unfold merged. rewrite (merged_wells_by_key (wwpt_file_orig inp)).
  - rewrite by_xs_keys. rewrite map_map. cbn [extended_line xs_etid].
    eapply Permutation_trans.
    + apply Select_groups. apply (unique_values_NoDup String.eqb String.eqb_eq).
    + erewrite filter_ext; [apply Permutation_refl |].
      intros w. apply has_line_unique.
  - apply by_xs_fold_wells. constructor.
Qed.

(** X10.  After the merge every well point of the input whose et_id is
    carried by a cross-section line has exactly one row in [wwpt_merge],
    also when several lines carry that et_id, and a well point whose
    et_id no line carries has none: the wells of the rows of
    [wwpt_merge] are a rearrangement of the well points that have a
    line. *)
Theorem each_well_projected_once (p : Params) (inp : Inputs) (g : Gdb) :
  (swl_inputs_ok p inp ->
   exists g' rows,
     runs (SWL.run p inp) g tt g' /\ wwpt_merge g' = Some rows /\
     Permutation (map nw_well rows)
                 (filter (has_line (xsln_file_orig inp)) (wwpt_file_orig inp))) /\
  (conspys_inputs_ok p inp ->
   exists nomatch_list g' rows,
     runs (Conspys.run p inp) g nomatch_list g' /\ wwpt_merge g' = Some rows /\
     Permutation (map nw_well rows)
                 (filter (has_line (xsln_file_orig inp)) (wwpt_file_orig inp))).
Proof.
  split; intros Hok.
  - eexists. exists (merged p inp). split; [now apply swl_run_runs |].
    split; [reflexivity | apply merged_wells].
  - eexists. eexists. exists (merged p inp). split; [now apply conspys_run_runs |].
    split; [reflexivity | apply merged_wells].
Qed.

Lemma each_well_projected_once_witness :
  exists g' rows,
    runs (SWL.run params1 inputs1) empty_gdb tt g' /\ wwpt_merge g' = Some rows /\
    Permutation (map nw_well rows)
                (filter (has_line (xsln_file_orig inputs1)) (wwpt_file_orig inputs1)).
Proof.
  apply (each_well_projected_once params1 inputs1 empty_gdb).
  unfold swl_inputs_ok. simpl.
  repeat split; try lia; try discriminate. repeat constructor.
Defined.

(* ================================================================== *)
(** * The attributes of the static water level points                  *)
(* ================================================================== *)

Lemma swl_rows_fields p wells :
  Forall2 (fun w r =>
             sp_wellid r = wp_wellid (nw_well w) /\
             sp_etid r = wp_etid (nw_well w) /\
             sp_x_coord r = X (wp_shape (nw_well w)) /\
             sp_y_coord r = Y (wp_shape (nw_well w)) /\
             wp_elevation (nw_well w) = Some (sp_elevation r) /\
             wp_meas_elev (nw_well w) = Some (sp_meas_elev r) /\
             sp_measuremt r = wp_measuremt (nw_well w) /\
             sp_Data_Source r = wp_Data_Source (nw_well w) /\
             sp_BUFF_DIST r = buffer_dist p /\
             sp_VE r = vertical_exaggeration p)
          (filter swl_written wells) (swl_rows p wells).
Proof.
  unfold swl_rows. apply Forall2_filter_flat_map.
  - intros w _ Hw. unfold swl_written in Hw. unfold swl_row.
    destruct (wp_elevation (nw_well w)); [| discriminate].
    destruct (wp_meas_elev (nw_well w)); [| discriminate].
    eexists. split; [reflexivity |]. cbn. auto 12.
  - intros w _ Hw. unfold swl_written in Hw. unfold swl_row.
    destruct (wp_elevation (nw_well w)); [| reflexivity].
    destruct (wp_meas_elev (nw_well w)); [discriminate | reflexivity].
Qed.

(** X11.  On valid inputs the point loop of the static-water-level
    script writes one point for each row of [wwpt_merge] whose elevation
    and measured elevation are not null, in the order of [wwpt_merge].
    The point carries the
    well id, the et_id, the true coordinates, the two elevations, the
    depth to water and the data source of its well unchanged; its
    BUFF_DIST and VE are the two tool parameters, whatever the well
    point file holds in its fields of those names. *)
Theorem swl_point_attributes (p : Params) (inp : Inputs) (g : Gdb) :
  swl_inputs_ok p inp ->
  exists g' rows,
    runs (SWL.run p inp) g tt g' /\
    swl_2d_xsecview g' = Some rows /\
    Forall2 (fun w r =>
               sp_wellid r = wp_wellid (nw_well w) /\
               sp_etid r = wp_etid (nw_well w) /\
               sp_x_coord r = X (wp_shape (nw_well w)) /\
               sp_y_coord r = Y (wp_shape (nw_well w)) /\
               wp_elevation (nw_well w) = Some (sp_elevation r) /\
               wp_meas_elev (nw_well w) = Some (sp_meas_elev r) /\
               sp_measuremt r = wp_measuremt (nw_well w) /\
               sp_Data_Source r = wp_Data_Source (nw_well w) /\
               sp_BUFF_DIST r = buffer_dist p /\
               sp_VE r = vertical_exaggeration p)
            (filter swl_written (merged p inp)) rows.
Proof.
  intros Hok. eexists. exists (swl_rows p (merged p inp)).
  split; [now apply swl_run_runs |]. split; [reflexivity |].
  apply swl_rows_fields.
Qed.

Lemma swl_point_attributes_witness :
  exists g' rows,
    runs (SWL.run params1 inputs1) empty_gdb tt g' /\
    swl_2d_xsecview g' = Some rows /\
    Forall2 (fun w r =>
               sp_wellid r = wp_wellid (nw_well w) /\
               sp_etid r = wp_etid (nw_well w) /\
               sp_x_coord r = X (wp_shape (nw_well w)) /\
               sp_y_coord r = Y (wp_shape (nw_well w)) /\
               wp_elevation (nw_well w) = Some (sp_elevation r) /\
               wp_meas_elev (nw_well w) = Some (sp_meas_elev r) /\
               sp_measuremt r = wp_measuremt (nw_well w) /\
               sp_Data_Source r = wp_Data_Source (nw_well w) /\
               sp_BUFF_DIST r = buffer_dist params1 /\
               sp_VE r = vertical_exaggeration params1)
            (filter swl_written (merged params1 inputs1)) rows.
Proof.
  apply (swl_point_attributes params1 inputs1 empty_gdb).
  unfold swl_inputs_ok. simpl.
  repeat split; try lia; try discriminate. repeat constructor.
Defined.

(* ================================================================== *)
(** * The 2D x coordinate as a function of the position                *)
(* ================================================================== *)

Lemma py_int_mono x y : x <= y -> (py_int x <= py_int y)%Z.
Proof.
  intros H. unfold py_int.
  destruct (Rle_dec 0 x) as [Hx | Hx]; destruct (Rle_dec 0 y) as [Hy | Hy].
  - now apply Zfloor_le.
  - lra.
  - pose proof (Zceil_bound x) as Bx.
    assert (Cx : (Zceil x <= 0)%Z).
    { apply le_IZR. assert (IZR (Zceil x) - 1 < 0) by lra.
      assert (L : (Zceil x - 1 < 0)%Z) by (apply lt_IZR; rewrite minus_IZR; exact H0).
      apply IZR_le. lia. }
    assert (Fy : (0 <= Zfloor y)%Z) by (apply (Zfloor_lub 0 y); exact Hy).
    lia.
  - now apply Zceil_le.
Qed.

Lemma py_int_near_zero s : -1 < s < 1 -> py_int s = 0%Z.
Proof.
  intros H. unfold py_int. destruct (Rle_dec 0 s) as [Hs | Hs].
  - apply Zfloor_eq. cbn. lra.
  - apply Zceil_eq. cbn. lra.
Qed.

Lemma swl_x_coord_2d_value p s :
  (0 < vertical_exaggeration p)%Z ->
  SWL.x_coord_2d p s = Done (IZR (py_int s) / 0.3048 / IZR (vertical_exaggeration p)).
Proof. intros H. unfold SWL.x_coord_2d. apply py_div_int_nonzero. lia. Qed.

Lemma scale_pos p :
  (0 < vertical_exaggeration p)%Z -> 0 < / 0.3048 / IZR (vertical_exaggeration p).
Proof.
  intros H. apply (IZR_lt 0) in H.
  apply Rdiv_lt_0_compat; [| exact H]. apply Rinv_0_lt_compat. lra.
Qed.

(** X12.  With a positive vertical exaggeration the 2D x coordinate of
    the static-water-level script is a non-decreasing function of the
    position along the line: two wells are never plotted in the reverse
    of their order along the line.  It is not increasing: positions
    within the same whole metre give the same x, and every position
    less than one metre on either side of the first vertex gives 0. *)
Theorem swl_x_coord_monotone (p : Params) (s1 s2 : R) :
  (0 < vertical_exaggeration p)%Z ->
  exists x1 x2,
    SWL.x_coord_2d p s1 = Done x1 /\ SWL.x_coord_2d p s2 = Done x2 /\
    (s1 <= s2 -> x1 <= x2) /\
    (forall z : Z, (0 <= z)%Z ->
       IZR z <= s1 < IZR z + 1 -> IZR z <= s2 < IZR z + 1 -> x1 = x2) /\
    (-1 < s1 < 1 -> x1 = 0).
Proof.
  intros Hv. pose proof (scale_pos p Hv) as Hk.
  eexists. eexists.
  split; [now apply swl_x_coord_2d_value |]. split; [now apply swl_x_coord_2d_value |].
  assert (E : forall s, IZR (py_int s) / 0.3048 / IZR (vertical_exaggeration p) =
                        IZR (py_int s) * (/ 0.3048 / IZR (vertical_exaggeration p))).
  { intros s. unfold Rdiv. ring. }
  rewrite !E. split; [| split].
  - intros H. apply py_int_mono, IZR_le in H. nra.
  - intros z Hz H1 H2.
    rewrite (py_int_between z s1 Hz H1), (py_int_between z s2 Hz H2). reflexivity.
  - intros H. rewrite (py_int_near_zero s1 H). lra.
Qed.

Lemma swl_x_coord_monotone_witness :
  exists x1 x2,
    SWL.x_coord_2d params1 0.5 = Done x1 /\ SWL.x_coord_2d params1 1.5 = Done x2 /\
    (0.5 <= 1.5 -> x1 <= x2) /\ (-1 < 0.5 < 1 -> x1 = 0).
Proof.
  destruct (swl_x_coord_monotone params1 0.5 1.5) as [x1 [x2 [H1 [H2 [H3 [_ H4]]]]]].
  - simpl. lia.
  - exists x1, x2. auto.
Defined.

(* ================================================================== *)
(** * The two polyline files                                           *)
(* ================================================================== *)

Lemma conspy_rows_aligned p wells records :
  Forall2 same_record (conspy_rows_3d p wells records) (conspy_rows_2d p wells records).
Proof.
  unfold conspy_rows_3d, conspy_rows_2d.
  induction records as [| r t IH]; [constructor |].
  cbn [flat_map]. apply Forall2_app; [| exact IH].
  unfold conspy_rows.
  destruct (cr_elev_top r); [| constructor].
  destruct (cr_elev_bot r); [| constructor].
  destruct (last_match wells (cr_wellid r)); [| constructor].
  cbn. constructor; [| constructor]. unfold same_record. cbn. auto 8.
Qed.


Lemma conspy_rows_2d_params p wells records :
  Forall (fun r => c2_BUFF_DIST r = buffer_dist p /\ c2_VE r = vertical_exaggeration p)
         (conspy_rows_2d p wells records).
Proof.
  unfold conspy_rows_2d. induction records as [| r t IH]; [constructor |].
  cbn [flat_map]. apply Forall_app. split; [| exact IH].
  unfold conspy_rows.
  destruct (cr_elev_top r); [| constructor].
  destruct (cr_elev_bot r); [| constructor].
  destruct (last_match wells (cr_wellid r)); [| constructor].
  cbn. constructor; [auto | constructor].
Qed.

(** X14.  On valid inputs the construction script leaves [conspys_3d] and
    [conspys_2d_line] with the same number of rows, and the rows of the
    same rank come from the same construction record: they carry the
    same well id, et_id, true coordinates, top and bottom elevations and
    construction object id.  The BUFF_DIST and VE of every 2D row are the
    two tool parameters. *)
Theorem polyline_files_aligned (p : Params) (inp : Inputs) (g : Gdb) :
  conspys_inputs_ok p inp ->
  exists nomatch_list g' rows3 rows2,
    runs (Conspys.run p inp) g nomatch_list g' /\
    conspys_3d g' = Some rows3 /\ conspys_2d_line g' = Some rows2 /\
    List.length rows3 = List.length rows2 /\
    Forall2 same_record rows3 rows2 /\
    Forall (fun r => c2_BUFF_DIST r = buffer_dist p /\ c2_VE r = vertical_exaggeration p)
           rows2.
Proof.
  intros Hok. eexists. eexists.
  exists (conspy_rows_3d p (merged p inp) (conspy_table inp)),
         (conspy_rows_2d p (merged p inp) (conspy_table inp)).
  split; [now apply conspys_run_runs |]. split; [reflexivity |]. split; [reflexivity |].
  pose proof (conspy_rows_aligned p (merged p inp) (conspy_table inp)) as H.
  split; [eapply Forall2_length; exact H |]. split; [exact H |].
  apply conspy_rows_2d_params.
Qed.

Lemma polyline_files_aligned_witness :
  exists nomatch_list g' rows3 rows2,
    runs (Conspys.run params1 inputs1) empty_gdb nomatch_list g' /\
    conspys_3d g' = Some rows3 /\ conspys_2d_line g' = Some rows2 /\
    List.length rows3 = List.length rows2 /\
    Forall2 same_record rows3 rows2 /\
    Forall (fun r => c2_BUFF_DIST r = buffer_dist params1 /\
                     c2_VE r = vertical_exaggeration params1) rows2.
Proof.
  apply (polyline_files_aligned params1 inputs1 empty_gdb).
  unfold conspys_inputs_ok, swl_inputs_ok. simpl.
  repeat split; try lia; try discriminate. repeat constructor.
Defined.



(* ================================================================== *)
(** * The variables of the polyline loop                               *)
(* ================================================================== *)

Lemma never_raises_bind_post {A B : Type} e (P : A -> Prop) (c : M A) (k : A -> M B) :
  (forall g a, res (c g) = Done a -> P a) ->
  never_raises e c -> (forall a, P a -> never_raises e (k a)) ->
  never_raises e (bind c k).
Proof.
  intros HP Hc Hk g. unfold bind. destruct (res (c g)) as [a | e'] eqn:E; cbn [res].
  - apply Hk. eapply HP. exact E.
  - intros H. apply (Hc g). congruence.
Qed.

Lemma never_raises_bind {A B : Type} e (c : M A) (k : A -> M B) :
  never_raises e c -> (forall a, never_raises e (k a)) -> never_raises e (bind c k).
Proof.
  intros Hc Hk. apply (never_raises_bind_post e (fun _ => True)); auto.
Qed.

Lemma never_raises_done {A : Type} e (c : M A) :
  (forall g, exists a, res (c g) = Done a) -> never_raises e c.
Proof. intros H g. destruct (H g) as [a E]. congruence. Qed.

Lemma never_raises_quiet e (c : M unit) : quiet c -> never_raises e c.
Proof. intros H. apply never_raises_done. intros g. exists tt. apply H. Qed.

Lemma never_raises_ret {A : Type} e (a : A) : never_raises e (ret a).
Proof. intros g. discriminate. Qed.

Lemma never_raises_modify e f : never_raises e (modify f).
Proof. intros g. discriminate. Qed.

Lemma never_raises_rows_of {A : Type} (fc : Gdb -> option (list A)) :
  never_raises NameError (rows_of fc).
Proof.
  intros g. unfold rows_of, bind, get. cbn. destruct (fc g); discriminate.
Qed.

Lemma never_raises_for_each {A S : Type} e (l : list A) (body : S -> A -> M S) :
  (forall s x, never_raises e (body s x)) -> forall acc, never_raises e (for_each l acc body).
Proof.
  intros H. induction l as [| x t IH]; intros acc; cbn [for_each].
  - apply never_raises_ret.
  - apply never_raises_bind; [apply H | intros a; apply IH].
Qed.

Lemma well_body_outcome p st well :
  Conspys.well_body p st well = Raised ZeroDivisionError \/
  exists v, Conspys.well_body p st well = Done ((fst st + 1)%Z, Some v).
Proof.
  unfold Conspys.well_body, Conspys.x_coord, Conspys.pct_dist, py_div_int.
  destruct (vertical_exaggeration p =? 0)%Z; [now left |].
  destruct (buffer_dist p =? 0)%Z; [now left |].
  right. eexists. reflexivity.
Qed.

(** The inner loop of the polyline creation counts the matching well
    points and leaves the variables of the last one. *)
Lemma well_loop_post p wwpt : forall i0 v0 g st,
  res (for_each wwpt (i0, v0) (fun st well => lift (Conspys.well_body p st well)) g) = Done st ->
  fst st = (i0 + Z.of_nat (List.length wwpt))%Z /\
  (v0 <> None \/ wwpt <> [] -> snd st <> None).
Proof.
  induction wwpt as [| w t IH]; intros i0 v0 g st H.
  - cbn in H. injection H as <-. cbn. split; [lia |]. intros [Hv | Hn]; congruence.
  - cbn [for_each] in H. unfold bind in H.
    destruct (well_body_outcome p (i0, v0) w) as [E | [v E]].
    + cbn [lift res] in H. rewrite E in H. discriminate.
    + cbn [lift res db log] in H. rewrite E in H. cbn [fst] in H.
      apply IH in H. destruct H as [H1 H2]. cbn [List.length]. split; [lia |].
      intros _. apply H2. left. discriminate.
Qed.

Lemma never_raises_well_loop p wwpt st0 :
  never_raises NameError (for_each wwpt st0 (fun st well => lift (Conspys.well_body p st well))).
Proof.
  apply never_raises_for_each. intros s x g. cbn [lift res].
  destruct (well_body_outcome p s x) as [E | [v E]]; rewrite E; discriminate.
Qed.

Lemma never_raises_conspy_body p count vars row :
  never_raises NameError (Conspys.conspy_body p count vars row).
Proof.
  unfold Conspys.conspy_body.
  destruct (cr_elev_top row).
  2:{ apply never_raises_bind; [apply never_raises_quiet, quiet_printit |].
      intros _. apply never_raises_ret. }
  destruct (cr_elev_bot row).
  2:{ apply never_raises_bind; [apply never_raises_quiet, quiet_printit |].
      intros _. apply never_raises_ret. }
  apply never_raises_bind.
  { apply never_raises_quiet. apply quiet_if; [apply quiet_printit | apply quiet_ret]. }
  intros _. apply never_raises_bind; [apply never_raises_rows_of |].
  intros merged.
  apply (never_raises_bind_post NameError
           (fun st => fst st <> 0%Z -> snd st <> None)).
  - intros g st H. apply well_loop_post in H. destruct H as [H1 H2].
    intros Hne. apply H2. right. intros E. rewrite E in H1. cbn in H1. lia.
  - apply never_raises_well_loop.
  - intros st Hst. destruct (Z.eqb_spec (fst st) 0) as [E | E]; [apply never_raises_ret |].
    destruct (snd st) as [v |]; [| exfalso; now apply (Hst E)].
    apply never_raises_bind.
    { unfold Conspys.insert_polylinefile_3d.
      apply never_raises_bind; [apply never_raises_rows_of |].
      intros rows. apply never_raises_modify. }
    intros _. apply never_raises_bind.
    { unfold Conspys.insert_polylinefile_2d.
      apply never_raises_bind; [apply never_raises_rows_of |].
      intros rows. apply never_raises_modify. }
    intros _. apply never_raises_ret.
Qed.

(** X16.  The polyline loop of the construction script never raises
    NameError, from any geodatabase, with any parameters and whatever
    the variables of the inner loop hold when the body starts on a
    record: the body reads these variables only after the inner loop
    over the matching well points has assigned them for that record, and
    passes the record over when the inner loop found no well. *)
Theorem polyline_loop_reads_assigned_variables (p : Params) (inp : Inputs) :
  (forall count vars row, never_raises NameError (Conspys.conspy_body p count vars row)) /\
  never_raises NameError (Conspys.create_polylines p inp).
Proof.
  split; [intros count vars row; apply never_raises_conspy_body |].
  unfold Conspys.create_polylines. apply never_raises_bind.
  - apply never_raises_for_each. intros s x. apply never_raises_conspy_body.
  - intros vars. apply never_raises_bind; [| intros _; apply never_raises_ret].
    apply never_raises_quiet. apply quiet_if; [apply quiet_printit | apply quiet_ret].
Qed.

(* ================================================================== *)
(** * The geodatabase before a run                                     *)
(* ================================================================== *)

Lemma swl_run_decided p inp :
  (swl_inputs_ok p inp /\ forall g, res (SWL.run p inp g) = Done tt) \/
  (forall g, res (SWL.run p inp g) = Raised SystemExit) \/
  (forall g, res (SWL.run p inp g) = Raised IndexError).
Proof.
  destruct (swl_validate_cases p inp empty_gdb) as [[f0 [_ (Hb & Hv & Hw & Hx)]] | [_ C]].
  - assert (V : forall g, exists flag, runs (SWL.validate p inp) g flag g).
    { intros g. destruct (swl_validate_cases p inp g) as [[f [R _]] | [_ C]];
        [now exists f |].
      exfalso. destruct C as [C | [C | [C | C]]]; (lia || contradiction). }
    destruct (Forall_or_Exists_two_vertices (xsln_file_orig inp)) as [Hall | Hex].
    + left. assert (Hok : swl_inputs_ok p inp) by (unfold swl_inputs_ok; auto).
      split; [exact Hok |]. intros g. apply (swl_run_runs p inp g Hok).
    + right. right. intros g. destruct (V g) as [flag R].
      destruct (near_pipeline_fails p inp (SWL.create_points p inp)
                  (set_swl_2d_xsecview g (Some [])) Hex) as [g' Hf].
      assert (F : fails (SWL.run p inp) g IndexError g').
      { unfold SWL.run. eapply fails_bind_r; [exact R |].
        eapply fails_bind_r; [| exact Hf].
        unfold SWL.create_pointfile. apply runs_after_quiet; [apply quiet_printit |].
        apply runs_modify. }
      apply F.
  - right. left. intros g.
    destruct (swl_validate_cases p inp g) as [[f [_ (Hb & Hv & Hw & Hx)]] | [F _]].
    + exfalso. destruct C as [C | [C | [C | C]]]; (lia || contradiction).
    + assert (F' : fails (SWL.run p inp) g SystemExit g)
        by (unfold SWL.run; now apply fails_bind_l).
      apply F'.
Qed.

Lemma conspys_run_decided p inp :
  (conspys_inputs_ok p inp /\
   forall g, res (Conspys.run p inp g) = Done (nomatch_ids (merged p inp) (conspy_table inp))) \/
  (forall g, res (Conspys.run p inp g) = Raised SystemExit) \/
  (forall g, res (Conspys.run p inp g) = Raised IndexError).
Proof.
  destruct (conspys_validate_cases p inp empty_gdb)
    as [[f0 [_ (Hb & Hv & Hc & Hw & Hx)]] | [_ C]].
  - assert (V : forall g, exists flag, runs (Conspys.validate p inp) g flag g).
    { intros g. destruct (conspys_validate_cases p inp g) as [[f [R _]] | [_ C]];
        [now exists f |].
      exfalso. destruct C as [C | [C | [C | [C | C]]]]; (lia || contradiction). }
    destruct (Forall_or_Exists_two_vertices (xsln_file_orig inp)) as [Hall | Hex].
    + left. assert (Hok : conspys_inputs_ok p inp)
        by (unfold conspys_inputs_ok, swl_inputs_ok; auto 7).
      split; [exact Hok |]. intros g. apply (conspys_run_runs p inp g Hok).
    + right. right. intros g. destruct (V g) as [flag R].
      destruct (near_pipeline_fails p inp (Conspys.create_polylines p inp)
                  (set_conspys_2d_line (set_conspys_3d g (Some [])) (Some [])) Hex)
        as [g' Hf].
      assert (F : fails (Conspys.run p inp) g IndexError g').
      { unfold Conspys.run. eapply fails_bind_r; [exact R |].
        eapply fails_bind_r; [| exact Hf].
        unfold Conspys.create_polylinefiles.
        apply runs_after_quiet; [apply quiet_printit |].
        eapply runs_bind; [apply runs_modify |].
        apply runs_after_quiet; [apply quiet_printit |]. apply runs_modify. }
      apply F.
  - right. left. intros g.
    destruct (conspys_validate_cases p inp g) as [[f [_ (Hb & Hv & Hc & Hw & Hx)]] | [F _]].
    + exfalso. destruct C as [C | [C | [C | [C | C]]]]; (lia || contradiction).
    + assert (F' : fails (Conspys.run p inp) g SystemExit g)
        by (unfold Conspys.run; now apply fails_bind_l).
      apply F'.
Qed.

(** X17.  What a run produces does not depend on what the output
    geodatabase held before: the result of a run (normal end, SystemExit
    or IndexError) is the same from any two geodatabases, and on valid
    inputs the feature classes that the script writes are the same,
    earlier contents being overwritten; the feature classes of the other
    script are left as they were. *)
Theorem outputs_do_not_depend_on_gdb (p : Params) (inp : Inputs) (g1 g2 : Gdb) :
  res (SWL.run p inp g1) = res (SWL.run p inp g2) /\
  res (Conspys.run p inp g1) = res (Conspys.run p inp g2) /\
  (swl_inputs_ok p inp ->
   let d1 := db (SWL.run p inp g1) in
   let d2 := db (SWL.run p inp g2) in
   swl_2d_xsecview d1 = swl_2d_xsecview d2 /\ wwpt_merge d1 = wwpt_merge d2 /\
   xsln_temp d1 = xsln_temp d2 /\ wwpt_by_xs d1 = wwpt_by_xs d2 /\
   wwpt_temp d1 = wwpt_temp d2 /\
   conspys_3d d1 = conspys_3d g1 /\ conspys_2d_line d1 = conspys_2d_line g1) /\
  (conspys_inputs_ok p inp ->
   let d1 := db (Conspys.run p inp g1) in
   let d2 := db (Conspys.run p inp g2) in
   conspys_3d d1 = conspys_3d d2 /\ conspys_2d_line d1 = conspys_2d_line d2 /\
   wwpt_merge d1 = wwpt_merge d2 /\
   xsln_temp d1 = xsln_temp d2 /\ wwpt_by_xs d1 = wwpt_by_xs d2 /\
   wwpt_temp d1 = wwpt_temp d2 /\
   swl_2d_xsecview d1 = swl_2d_xsecview g1).
Proof.
  split; [| split; [| split]].
  - destruct (swl_run_decided p inp) as [[_ H] | [H | H]]; now rewrite !H.
  - destruct (conspys_run_decided p inp) as [[_ H] | [H | H]]; now rewrite !H.
  - intros Hok d1 d2. subst d1 d2.
    destruct (swl_run_runs p inp g1 Hok) as [_ D1].
    destruct (swl_run_runs p inp g2 Hok) as [_ D2].
    rewrite D1, D2. cbn. repeat split; reflexivity.
  - intros Hok d1 d2. subst d1 d2.
    destruct (conspys_run_runs p inp g1 Hok) as [_ D1].
    destruct (conspys_run_runs p inp g2 Hok) as [_ D2].
    rewrite D1, D2. cbn. repeat split; reflexivity.
Qed.

Lemma outputs_do_not_depend_on_gdb_witness :
  swl_2d_xsecview (db (SWL.run params1 inputs1 empty_gdb)) =
  swl_2d_xsecview (db (SWL.run params1 inputs1
                         (mkGdb (Some []) None None None None None (Some [])))).
Proof.
  destruct (outputs_do_not_depend_on_gdb params1 inputs1 empty_gdb
              (mkGdb (Some []) None None None None None (Some []))) as [_ [_ [H _]]].
  apply H. unfold swl_inputs_ok. simpl.
  repeat split; try lia; try discriminate. repeat constructor.
Defined.

(* ================================================================== *)
(** * The warnings of the QC and the records without a well            *)
(* ================================================================== *)

Lemma where_wellid_In wells wellid w :
  In w wells -> wp_wellid (nw_well w) = wellid -> Conspys.where_wellid wells wellid <> [].
Proof.
  intros Hin E H. assert (Hw : In w (Conspys.where_wellid wells wellid)).
  { unfold Conspys.where_wellid. apply filter_In. split; [exact Hin |].
    now apply wellid_eqb_eq. }
  rewrite H in Hw. destruct Hw.
Qed.

Lemma not_in_list_nil {A : Type} (eqb : A -> A -> bool) l l' :
  (forall a b, eqb a b = true <-> a = b) ->
  not_in_list eqb l l' = [] -> forall x, In x l -> In x l'.
Proof.
  intros Heq H x Hx.
  destruct (existsb (eqb x) l') eqn:E; [now apply (existsb_eqb_In eqb Heq) in E |].
  exfalso. assert (Hin : In x (not_in_list eqb l l')).
  { apply (not_in_list_In eqb Heq). split; [exact Hx |].
    now apply (existsb_eqb_not_In eqb Heq). }
  rewrite H in Hin. destruct Hin.
Qed.

Lemma filter_none {A : Type} (f : A -> bool) (l : list A) :
  (forall x, In x l -> f x = false) -> filter f l = [].
Proof.
  induction l as [| x t IH]; intros H; [reflexivity |].
  cbn [filter]. rewrite (H x) by now left. apply IH. intros y Hy. apply H. now right.
Qed.

(** X18.  When the data QC of the construction script finds every well id
    of the construction table among the well points and every et_id of
    the well points among the cross-section lines (its two lists of
    unmatched values are empty, so that it prints neither of the two
    warnings), then on valid inputs no construction record is passed
    over for lack of a well point: the run ends with an empty no-match
    list. *)
Theorem no_warning_no_unmatched_record (p : Params) (inp : Inputs) (g : Gdb) :
  conspys_inputs_ok p inp ->
  not_in_list wellid_eqb
    (unique_values wellid_eqb (map cr_wellid (conspy_table inp)))
    (unique_values wellid_eqb (map wp_wellid (wwpt_file_orig inp))) = [] ->
  not_in_list String.eqb
    (unique_values String.eqb (map wp_etid (wwpt_file_orig inp)))
    (unique_values String.eqb (map xs_etid (xsln_file_orig inp))) = [] ->
  exists g', runs (Conspys.run p inp) g [] g'.
Proof.
  intros Hok Hids Hetids.
  assert (Hno : forall r, In r (conspy_table inp) -> conspy_nomatch (merged p inp) r = false).
  { intros r Hr. unfold conspy_nomatch.
    destruct (cr_elev_top r); [| reflexivity]. destruct (cr_elev_bot r); [| reflexivity].
    destruct (last_match (merged p inp) (cr_wellid r)) eqn:El; [reflexivity |].
    exfalso. apply last_match_none in El. revert El.
    assert (H1 : In (cr_wellid r) (map wp_wellid (wwpt_file_orig inp))).
    { apply (unique_values_In wellid_eqb wellid_eqb_eq).
      apply (not_in_list_nil wellid_eqb _ _ wellid_eqb_eq Hids).
      apply (unique_values_In wellid_eqb wellid_eqb_eq). now apply in_map. }
    apply in_map_iff in H1. destruct H1 as [w0 [Eid Hw0]].
    assert (H2 : In (wp_etid w0) (map xs_etid (xsln_file_orig inp))).
    { apply (unique_values_In String.eqb String.eqb_eq).
      apply (not_in_list_nil String.eqb _ _ String.eqb_eq Hetids).
      apply (unique_values_In String.eqb String.eqb_eq). now apply in_map. }
    apply in_map_iff in H2. destruct H2 as [line [Eet Hline]].
    destruct (merged_complete p inp w0 Hw0) as [line' [_ [_ Hin]]];
      [exists line; auto |].
    eapply where_wellid_In; [exact Hin | exact Eid]. }
  assert (E : nomatch_ids (merged p inp) (conspy_table inp) = []).
  { unfold nomatch_ids.
    replace (filter (conspy_nomatch (merged p inp)) (conspy_table inp)) with (@nil ConspyRec);
      [reflexivity |].
    symmetry. now apply filter_none. }
  eexists. rewrite <- E. now apply conspys_run_runs.
Qed.

Lemma no_warning_no_unmatched_record_witness :
  exists g', runs (Conspys.run params1 inputs1) empty_gdb [] g'.
Proof.
  apply (no_warning_no_unmatched_record params1 inputs1 empty_gdb).
  - unfold conspys_inputs_ok, swl_inputs_ok. simpl.
    repeat split; try lia; try discriminate. repeat constructor.
  - reflexivity.
  - reflexivity.
Defined.

(* ================================================================== *)
(** * The messages of the two loops                                    *)
(* ================================================================== *)

Lemma prints_nothing {A : Type} (c : M A) :
  prints_only (fun _ => False) c -> forall g, log (c g) = [].
Proof.
  intros H g. specialize (H g). destruct (log (c g)) as [| m l]; [reflexivity |].
  inversion H; contradiction.
Qed.

Lemma prints_only_lift {A : Type} Q (o : outcome A) : prints_only Q (lift o).
Proof. now apply prints_only_silent. Qed.

Lemma prints_only_modify Q f : prints_only Q (modify f).
Proof. now apply prints_only_silent. Qed.

Lemma swl_point_body_log p count row g :
  buffer_dist p <> 0%Z -> vertical_exaggeration p <> 0%Z ->
  log (SWL.point_body p count row g) = point_messages count row.
Proof.
  intros Hb Hv. unfold SWL.point_body, point_messages.
  unfold SWL.pct_dist, SWL.x_coord_2d. rewrite py_div_int_nonzero by exact Hb. cbn [obind].
  rewrite (log_runs_bind _ _ g _ g (runs_lift _ g)). cbn [lift log app].
  destruct (wp_elevation (nw_well (snd row))) as [well_z |]; [| reflexivity].
  destruct (wp_meas_elev (nw_well (snd row))) as [swl_z |]; [| reflexivity].
  rewrite py_div_int_nonzero by exact Hv.
  rewrite (log_runs_bind _ _ g _ g (runs_lift _ g)). cbn [lift log app].
  rewrite log_quiet_then by (apply quiet_if; [apply quiet_printit | apply quiet_ret]).
  rewrite (prints_nothing (SWL.insert_pointfile _)).
  - rewrite app_nil_r. destruct (fst row mod 5000 =? 0)%Z; reflexivity.
  - unfold SWL.insert_pointfile. apply prints_only_bind; [apply prints_only_rows_of |].
    intros rows. apply prints_only_modify.
Qed.

Lemma swl_point_loop_log p count l : forall g rows,
  buffer_dist p <> 0%Z -> vertical_exaggeration p <> 0%Z ->
  swl_2d_xsecview g = Some rows ->
  log (for_each l tt (fun _ row => SWL.point_body p count row) g) =
  flat_map (point_messages count) l.
Proof.
  induction l as [| [i w] t IH]; intros g rows Hb Hv Hrows; [reflexivity |].
  cbn [for_each flat_map].
  rewrite (log_runs_bind _ _ g tt _ (swl_point_body_runs p count i w g rows Hb Hv Hrows)).
  rewrite swl_point_body_log by assumption. f_equal.
  eapply IH; [exact Hb | exact Hv | reflexivity].
Qed.

Lemma point_messages_count p count i w :
  (List.length (option_list (swl_row p w)) +
   List.length (filter is_skipping (point_messages count (i, w))) = 1)%nat.
Proof.
  unfold swl_row, point_messages. cbn [fst snd].
  destruct (wp_elevation (nw_well w)); [| reflexivity].
  destruct (wp_meas_elev (nw_well w)); [| reflexivity].
  destruct (i mod 5000 =? 0)%Z; reflexivity.
Qed.

Lemma point_loop_count p count l :
  (List.length (swl_rows p (map snd l)) +
   List.length (filter is_skipping (flat_map (point_messages count) l)) =
   List.length l)%nat.
Proof.
  induction l as [| [i w] t IH]; [reflexivity |].
  cbn [map snd flat_map List.length]. unfold swl_rows. cbn [flat_map].
  fold (swl_rows p (map snd t)). rewrite filter_app, !length_app.
  pose proof (point_messages_count p count i w). lia.
Qed.

(** X19.  The point loop of the static-water-level script accounts for
    every row of [wwpt_merge]: the row either adds a point to the point
    file or is reported by one message that ends in "Skipping.", so that
    the number of points written and the number of those messages add up
    to the number of rows of [wwpt_merge]. *)
Theorem every_well_accounted_for (p : Params) (inp : Inputs) (g : Gdb)
  (wells : list NearWell) (rows : list SwlPoint) :
  (0 < buffer_dist p)%Z -> (0 < vertical_exaggeration p)%Z ->
  wwpt_merge g = Some wells -> swl_2d_xsecview g = Some rows ->
  exists out,
    runs (SWL.create_points p inp) g tt (set_swl_2d_xsecview g (Some (rows ++ out))) /\
    (List.length out +
     List.length (filter is_skipping (log (SWL.create_points p inp g))) =
     List.length wells)%nat.
Proof.
  intros Hb Hv Hw Hrows. exists (swl_rows p wells).
  assert (Hb' : buffer_dist p <> 0%Z) by lia.
  assert (Hv' : vertical_exaggeration p <> 0%Z) by lia.
  split; [now apply swl_create_points_runs |].
  unfold SWL.create_points.
  rewrite (log_runs_bind _ _ g wells g (runs_rows_of wwpt_merge g wells Hw)).
  rewrite (prints_nothing _ (prints_only_rows_of _ wwpt_merge)). cbn [app].
  rewrite (swl_point_loop_log p _ (with_oid wells) g rows Hb' Hv' Hrows).
  pose proof (point_loop_count p (Z.of_nat (List.length (wwpt_file_orig inp)))
                (with_oid wells)) as H.
  rewrite map_snd_with_oid in H. rewrite H.
  rewrite <- (map_snd_with_oid wells) at 2. now rewrite length_map.
Qed.

Lemma every_well_accounted_for_witness :
  let w := mkNearWell (mkWellPoint (WellNum 4) "A" (mkPoint 3 1) None (Some 290) None None None None)
                      1 3 0 3 in
  let g := mkGdb (Some []) None None None None None (Some [w]) in
  exists out,
    runs (SWL.create_points params1 inputs1) g tt (set_swl_2d_xsecview g (Some ([] ++ out))) /\
    (List.length out +
     List.length (filter is_skipping (log (SWL.create_points params1 inputs1 g))) = 1)%nat.
Proof.
  intros w g.
  apply (every_well_accounted_for params1 inputs1 g [w] []).
  - simpl. lia.
  - simpl. lia.
  - reflexivity.
  - reflexivity.
Defined.

Lemma conspy_body_log p count vars row g :
  log (Conspys.conspy_body p count vars row g) = conspy_messages count row.
Proof.
  unfold Conspys.conspy_body, conspy_messages.
  destruct (cr_elev_top row); [| reflexivity].
  destruct (cr_elev_bot row); [| reflexivity].
  rewrite log_quiet_then by (apply quiet_if; [apply quiet_printit | apply quiet_ret]).
  match goal with |- _ ++ log (?c g) = _ => rewrite (prints_nothing c) end.
  - rewrite app_nil_r. destruct (cr_oid row mod 1000 =? 0)%Z; reflexivity.
  - apply prints_only_bind; [apply prints_only_rows_of |].
    intros merged. apply prints_only_bind.
    { apply prints_only_for_each. intros s x. apply prints_only_lift. }
    intros st. destruct (fst st =? 0)%Z; [apply prints_only_ret |].
    destruct (snd st); [| now apply prints_only_silent].
    apply prints_only_bind.
    { unfold Conspys.insert_polylinefile_3d. apply prints_only_bind; [apply prints_only_rows_of |].
      intros rows. apply prints_only_modify. }
    intros _. apply prints_only_bind.
    { unfold Conspys.insert_polylinefile_2d. apply prints_only_bind; [apply prints_only_rows_of |].
      intros rows. apply prints_only_modify. }
    intros _. apply prints_only_ret.
Qed.

Lemma conspy_loop_log p count wells records : forall nm v0 g r3 r2,
  buffer_dist p <> 0%Z -> vertical_exaggeration p <> 0%Z ->
  wwpt_merge g = Some wells ->
  conspys_3d g = Some r3 -> conspys_2d_line g = Some r2 ->
  log (for_each records (nm, v0) (Conspys.conspy_body p count) g) =
  flat_map (conspy_messages count) records.
Proof.
  induction records as [| row t IH]; intros nm v0 g r3 r2 Hb Hv Hw H3 H2; [reflexivity |].
  cbn [for_each flat_map].
  destruct (conspys_body_runs p count nm v0 row g wells r3 r2 Hb Hv Hw H3 H2) as [v1 Hbody].
  rewrite (log_runs_bind _ _ g _ _ Hbody). rewrite conspy_body_log. f_equal.
  eapply IH; try eassumption; reflexivity.
Qed.

Lemma conspy_messages_count p count wells row :
  (List.length (option_list (option_map fst (conspy_rows p wells row))) +
   List.length (if conspy_nomatch wells row then [cr_wellid row] else []) +
   List.length (filter is_skipping (conspy_messages count row)) = 1)%nat.
Proof.
  unfold conspy_rows, conspy_nomatch, conspy_messages.
  destruct (cr_elev_top row); [| reflexivity].
  destruct (cr_elev_bot row); [| reflexivity].
  destruct (last_match wells (cr_wellid row));
    destruct (cr_oid row mod 1000 =? 0)%Z; reflexivity.
Qed.

Lemma conspy_loop_count p count wells records :
  (List.length (conspy_rows_3d p wells records) +
   List.length (nomatch_ids wells records) +
   List.length (filter is_skipping (flat_map (conspy_messages count) records)) =
   List.length records)%nat.
Proof.
  induction records as [| r t IH]; [reflexivity |].
  unfold conspy_rows_3d, nomatch_ids. cbn [flat_map filter List.length].
  fold (conspy_rows_3d p wells t). rewrite filter_app, !length_app.
  pose proof (conspy_messages_count p count wells r) as H.
  unfold nomatch_ids in IH.
  destruct (conspy_nomatch wells r); cbn [map List.length] in *; lia.
Qed.

(** X20.  The polyline loop of the construction script accounts for every
    record of the construction table: the record adds one row to each of
    the two polyline files, or its well id is appended to the no-match
    list, or it is reported by one message that ends in "Skipping.".
    The numbers of rows written, of ids in the no-match list and of
    those messages add up to the number of records. *)
Theorem every_record_accounted_for (p : Params) (inp : Inputs) (g : Gdb)
  (wells : list NearWell) (r3 : list Conspy3d) (r2 : list Conspy2d) :
  (0 < buffer_dist p)%Z -> (0 < vertical_exaggeration p)%Z ->
  wwpt_merge g = Some wells ->
  conspys_3d g = Some r3 -> conspys_2d_line g = Some r2 ->
  exists nomatch_list out3 out2,
    runs (Conspys.create_polylines p inp) g nomatch_list
         (set_conspys_2d_line (set_conspys_3d g (Some (r3 ++ out3))) (Some (r2 ++ out2))) /\
    List.length out3 = List.length out2 /\
    (List.length out3 + List.length nomatch_list +
     List.length (filter is_skipping (log (Conspys.create_polylines p inp g))) =
     List.length (conspy_table inp))%nat.
Proof.
  intros Hb Hv Hw H3 H2.
  assert (Hb' : buffer_dist p <> 0%Z) by lia.
  assert (Hv' : vertical_exaggeration p <> 0%Z) by lia.
  exists (nomatch_ids wells (conspy_table inp)),
         (conspy_rows_3d p wells (conspy_table inp)),
         (conspy_rows_2d p wells (conspy_table inp)).
  split; [now apply conspys_create_polylines_runs |].
  split; [eapply Forall2_length; apply conspy_rows_aligned |].
  unfold Conspys.create_polylines.
  destruct (conspys_loop_runs p (Z.of_nat (List.length (conspy_table inp))) wells
              (conspy_table inp) [] None g r3 r2 Hb' Hv' Hw H3 H2) as [v' Hloop].
  rewrite (log_runs_bind _ _ g _ _ Hloop).
  rewrite (conspy_loop_log p _ wells (conspy_table inp) [] None g r3 r2 Hb' Hv' Hw H3 H2).
  rewrite filter_app, length_app. cbn [fst app].
  pose proof (conspy_loop_count p (Z.of_nat (List.length (conspy_table inp))) wells
                (conspy_table inp)) as H.
  match goal with |- (_ + _ + (_ + List.length (filter _ (log ?c))))%nat = _ =>
    assert (E : filter is_skipping (log c) = []) end.
  { destruct (nomatch_ids wells (conspy_table inp)); reflexivity. }
  rewrite E. cbn [List.length]. lia.
Qed.

Lemma every_record_accounted_for_witness :
  let g := mkGdb None (Some []) (Some []) None None None (Some []) in
  exists nomatch_list out3 out2,
    runs (Conspys.create_polylines params1 inputs1) g nomatch_list
         (set_conspys_2d_line (set_conspys_3d g (Some ([] ++ out3))) (Some ([] ++ out2))) /\
    List.length out3 = List.length out2 /\
    (List.length out3 + List.length nomatch_list +
     List.length (filter is_skipping (log (Conspys.create_polylines params1 inputs1 g))) =
     List.length (conspy_table inputs1))%nat.
Proof.
  intros g.
  apply (every_record_accounted_for params1 inputs1 g [] [] []).
  - simpl. lia.
  - simpl. lia.
  - reflexivity.
  - reflexivity.
  - reflexivity.
Defined.
